(** * SUMOxPyPSA: traffic / EV / power coupling engine

    A shallow embedding of the per-tick logic of
      - [app.py]: [ManhattanTrafficController] (signal phase machine) and
        [ManhattanEVNetwork] (EV charging metering), and
      - [manhattan_power_network.py]: economic dispatch, line-flow estimate,
        violation check and battery state-of-charge update,
    together with the properties the specification states about them.
    Further parts of the same classes (station creation and routing, the
    station panel, [update_traffic_loads] and the bookkeeping of
    [PowerGridManager]) follow the three core modules, with properties read
    off the code.

    Conventions.  Python [int]s are [Z]; Python [float]s are modelled by exact
    rationals [Q] (rounding is not modelled); ordered [dict]s whose iteration
    order matters are association lists, the others are [gmap]s; calls into
    the external traffic simulator (traci), the clock and the random number
    generator are explicit arguments of the functions that use them. *)

From Stdlib Require Import QArith Qminmax Qabs Lqa ZArith Lia.
From Stdlib Require Import Sorted Permutation.
From stdpp Require Import gmap strings list pretty.

Local Open Scope Z_scope.

(** ** Python helpers shared by the three components *)

(** [a < b] on floats, as a boolean. *)
Definition Qltb (a b : Q) : bool :=
  match Qcompare a b with Lt => true | _ => false end.

(** Python's [int(x)] on a float: truncation toward zero. *)
Definition py_int (x : Q) : Z := Z.quot (Qnum x) (Zpos (Qden x)).

(** Assignment [d[k] = v] on an insertion-ordered dict: an existing key keeps
    its place, a new key goes last. *)
Fixpoint dict_set {V : Type} (k : string) (v : V) (d : list (string * V))
  : list (string * V) :=
  match d with
  | [] => [(k, v)]
  | (k', v') :: d' =>
      if String.eqb k' k then (k, v) :: d' else (k', v') :: dict_set k v d'
  end.

(** [d.get(k)] on an insertion-ordered dict. *)
Fixpoint dict_get {V : Type} (k : string) (d : list (string * V)) : option V :=
  match d with
  | [] => None
  | (k', v') :: d' => if String.eqb k' k then Some v' else dict_get k d'
  end.

(** ['c' * n]. *)
Fixpoint str_rep (c : string) (n : nat) : string :=
  match n with
  | O => EmptyString
  | S n' => String.append c (str_rep c n')
  end.

(** [needle in s] on strings. *)
Fixpoint str_in (needle s : string) : bool :=
  if String.prefix needle s then true
  else match s with
       | EmptyString => false
       | String _ s' => str_in needle s'
       end.

(** * Signal phase controller ([ManhattanTrafficController]) *)
Module Traffic.

Inductive Pattern := AVENUE | STREET.

(** One entry of [self.lights]. *)
Record Light := mkLight {
  pattern : Pattern;
  phase : Z;
  timer : Z;
  green_time : Z;
  yellow_time : Z;
  all_red_time : Z;
  position : Q * Q;            (* gps = (lon, lat) *)
  state_history : list string
}.

(** The external simulator's signal table: the state string each existing
    signal currently shows.  A traci call on an absent signal raises. *)
Abbreviation Traci := (gmap string string).

Definition traci_get (env : Traci) (tl_id : string) : option string :=
  env !! tl_id.

Definition traci_set (env : Traci) (tl_id : string) (s : string)
  : option Traci :=
  match env !! tl_id with
  | Some _ => Some (<[tl_id := s]> env)
  | None => None
  end.

(** [_generate_manhattan_state].  [light_info] is [self.lights.get(tl_id)];
    a failing traci call is caught and yields ['rrrr']. *)
Definition _generate_manhattan_state
    (env : Traci) (light_info : option Light) (tl_id : string) (ph : Z)
  : string :=
  match traci_get env tl_id with
  | None => "rrrr"%string
  | Some current_state =>
      let num_signals := String.length current_state in
      let pat := match light_info with Some l => pattern l | None => STREET end in
      let two := (2 <? num_signals)%nat in
      let half := (num_signals / 2)%nat in
      let rest := (num_signals - half)%nat in
      let state :=
        match pat with
        | AVENUE =>
            if ph =? 0 then
              if two then String.append "GG" (str_rep "r" (num_signals - 2)) else "GG"%string
            else if ph =? 1 then
              if two then String.append "yy" (str_rep "r" (num_signals - 2)) else "yy"%string
            else if ph =? 2 then str_rep "r" num_signals
            else if ph =? 3 then
              if two then String.append (str_rep "r" 2) (str_rep "G" (num_signals - 2)) else "GG"%string
            else if ph =? 4 then
              if two then String.append (str_rep "r" 2) (str_rep "y" (num_signals - 2)) else "yy"%string
            else str_rep "r" num_signals
        | STREET =>
            if ph =? 0 then String.append (str_rep "G" half) (str_rep "r" rest)
            else if ph =? 1 then String.append (str_rep "y" half) (str_rep "r" rest)
            else if ph =? 2 then str_rep "r" num_signals
            else if ph =? 3 then String.append (str_rep "r" half) (str_rep "G" rest)
            else if ph =? 4 then String.append (str_rep "r" half) (str_rep "y" rest)
            else str_rep "r" num_signals
        end in
      if (String.length state =? num_signals)%nat then state
      else if (num_signals <? String.length state)%nat
           then String.substring 0 num_signals state
           else String.append state (str_rep "r" (num_signals - String.length state))
  end.

(** The controller object. *)
Record Controller := mkController {
  lights : list (string * Light);
  cycle_time : Z;
  traffic_light_states : gmap string string
}.

Definition manhattan_bounds_ok (gps : Q * Q) : bool :=
  Qle_bool 40.700 (snd gps) && Qle_bool (snd gps) 40.800 &&
  Qle_bool (-74.020) (fst gps) && Qle_bool (fst gps) (-73.930).

(** Discovery loop of [initialize_manhattan_lights]: the inventory gives, per
    signal id, the geo-position of its first controlled lane, or [None] when
    the signal has no lane, no shape, or a traci call raises. *)
Definition discover (inventory : list (string * option (Q * Q)))
  : list (string * (Q * Q)) :=
  omap (fun e => match snd e with
                 | Some gps => if manhattan_bounds_ok gps
                               then Some (fst e, gps) else None
                 | None => None
                 end) inventory.

Definition is_avenue (i : nat) : bool := (Z.of_nat i mod 3 =? 0).

Definition avenue_offset (gps : Q * Q) : Z :=
  py_int ((snd gps - 40.700) * 1000)%Q mod 60.

(** The record stored for the [i]-th discovered signal; [draw] is the value
    returned by [random.randint(0, 30)] (only consulted for streets). *)
Definition new_light (i : nat) (gps : Q * Q) (draw : Z) : Light :=
  {| pattern := if is_avenue i then AVENUE else STREET;
     phase := 0;
     timer := if is_avenue i then avenue_offset gps else draw;
     green_time := if is_avenue i then 35 else 25;
     yellow_time := 3;
     all_red_time := 2;
     position := gps;
     state_history := [] |}.

(** Body of the enumeration loop, from index [i] on.  [randint i] is the draw
    taken at index [i].  A raising [setRedYellowGreenState] leaves the loop
    through the outer handler: the result flag is [false] and the lights
    stored so far are kept. *)
Fixpoint init_loop (randint : nat -> Z) (i : nat)
    (found : list (string * (Q * Q))) (env : Traci) (c : Controller)
  : bool * Traci * Controller :=
  match found with
  | [] => (true, env, c)
  | (tl_id, gps) :: rest =>
      let l := new_light i gps (randint i) in
      let lights1 := dict_set tl_id l (lights c) in
      let c1 := mkController lights1 (cycle_time c) (traffic_light_states c) in
      let initial_state :=
        _generate_manhattan_state env (dict_get tl_id lights1) tl_id 0 in
      match traci_set env tl_id initial_state with
      | None => (false, env, c1)
      | Some env' =>
          init_loop randint (S i) rest env'
            (mkController lights1 (cycle_time c)
               (<[tl_id := initial_state]> (traffic_light_states c)))
      end
  end.

Definition initialize_manhattan_lights (randint : nat -> Z)
    (inventory : list (string * option (Q * Q))) (env : Traci) (c : Controller)
  : bool * Traci * Controller :=
  init_loop randint 0 (discover inventory) env c.

(** The entries the enumeration loop stores for [found], counted from [i]. *)
Fixpoint enumerated (randint : nat -> Z) (i : nat)
    (found : list (string * (Q * Q))) : list (string * Light) :=
  match found with
  | [] => []
  | (tl_id, gps) :: rest =>
      (tl_id, new_light i gps (randint i)) :: enumerated randint (S i) rest
  end.

(** [ManhattanTrafficController.__init__]. *)
Definition new_controller : Controller := mkController [] 0 ∅.

(** Per-tick tallies written to [metrics['traffic_lights']]. *)
Record Counts := mkCounts { green_count : nat; yellow_count : nat; red_count : nat }.

(** Mutable context threaded through the loop of [update_cycle]. *)
Record Ctx := mkCtx {
  cx_env : Traci;
  cx_states : gmap string string;
  cx_counts : Counts
}.

Definition duration_of (l : Light) : Z :=
  if (phase l =? 0) || (phase l =? 3) then green_time l
  else if (phase l =? 1) || (phase l =? 4) then yellow_time l
  else all_red_time l.

Definition set_clock (l : Light) (ph t : Z) : Light :=
  mkLight (pattern l) ph t (green_time l) (yellow_time l) (all_red_time l)
          (position l) (state_history l).

Definition set_history (l : Light) (h : list string) : Light :=
  mkLight (pattern l) (phase l) (timer l) (green_time l) (yellow_time l)
          (all_red_time l) (position l) h.

(** The tally at the end of the loop body; a raising
    [getRedYellowGreenState] skips it. *)
Definition tally (tl_id : string) (c : Ctx) : Ctx :=
  match traci_get (cx_env c) tl_id with
  | None => c
  | Some current_state =>
      let n := cx_counts c in
      let n' :=
        if str_in "G" current_state || str_in "g" current_state
        then mkCounts (S (green_count n)) (yellow_count n) (red_count n)
        else if str_in "y" current_state || str_in "Y" current_state
        then mkCounts (green_count n) (S (yellow_count n)) (red_count n)
        else mkCounts (green_count n) (yellow_count n) (S (red_count n)) in
      mkCtx (cx_env c) (cx_states c) n'
  end.

(** Loop body of [update_cycle] for one light. *)
Definition update_light (tl_id : string) (l : Light) (c : Ctx) : Light * Ctx :=
  let l0 := set_clock l (phase l) (timer l + 1) in
  if duration_of l0 <=? timer l0 then
    let l1 := set_clock l0 ((phase l0 + 1) mod 6) 0 in
    let new_state :=
      _generate_manhattan_state (cx_env c) (Some l1) tl_id (phase l1) in
    match traci_set (cx_env c) tl_id new_state with
    | None => (l1, c)
    | Some env' =>
        let h := state_history l1 ++ [new_state] in
        let h' := if (10 <? length h)%nat then tail h else h in
        (set_history l1 h',
         tally tl_id (mkCtx env' (<[tl_id := new_state]> (cx_states c)) (cx_counts c)))
    end
  else (l0, tally tl_id c).

Fixpoint update_lights (ls : list (string * Light)) (c : Ctx)
  : list (string * Light) * Ctx :=
  match ls with
  | [] => ([], c)
  | (tl_id, l) :: rest =>
      let '(l', c') := update_light tl_id l c in
      let '(rest', c'') := update_lights rest c' in
      ((tl_id, l') :: rest', c'')
  end.

(** [update_cycle]: returns the controller, the simulator's signal table and
    the tallies. *)
Definition update_cycle (env : Traci) (c : Controller)
  : Controller * Traci * Counts :=
  let '(ls', cx) :=
    update_lights (lights c) (mkCtx env (traffic_light_states c) (mkCounts 0 0 0)) in
  (mkController ls' (cycle_time c + 1) (cx_states cx), cx_env cx, cx_counts cx).

(** Successive controller cycles; [envs] lists the simulator's signal table
    as the controller finds it at each cycle. *)
Fixpoint run_cycles (envs : list Traci) (c : Controller) : Controller :=
  match envs with
  | [] => c
  | env :: envs' => run_cycles envs' (fst (fst (update_cycle env c)))
  end.

(** The timing part of a light: what the phase machine reads and writes. *)
Record Clock := mkClock {
  ck_phase : Z; ck_timer : Z; ck_green : Z; ck_yellow : Z; ck_all_red : Z
}.

Definition clock_of (l : Light) : Clock :=
  mkClock (phase l) (timer l) (green_time l) (yellow_time l) (all_red_time l).

Definition ck_duration (k : Clock) : Z :=
  if (ck_phase k =? 0) || (ck_phase k =? 3) then ck_green k
  else if (ck_phase k =? 1) || (ck_phase k =? 4) then ck_yellow k
  else ck_all_red k.

(** The phase machine of [update_cycle] on the timing part alone. *)
Definition clock_tick (k : Clock) : Clock :=
  let t := ck_timer k + 1 in
  if ck_duration k <=? t
  then mkClock ((ck_phase k + 1) mod 6) 0 (ck_green k) (ck_yellow k) (ck_all_red k)
  else mkClock (ck_phase k) t (ck_green k) (ck_yellow k) (ck_all_red k).

(** Where a light that started a cycle (phase 0, timer 0) stands [j] ticks
    later, for [0 <= j < 2 * (g + y + r)]: its phase and its timer. *)
Definition schedule (g y r j : Z) : Z * Z :=
  if j <? g then (0, j)
  else if j <? g + y then (1, j - g)
  else if j <? g + y + r then (2, j - (g + y))
  else if j <? 2 * g + y + r then (3, j - (g + y + r))
  else if j <? 2 * g + 2 * y + r then (4, j - (2 * g + y + r))
  else (5, j - (2 * g + 2 * y + r)).

Definition cycle_length (l : Light) : Z :=
  2 * (green_time l + yellow_time l + all_red_time l).

(** One tick of the phase machine, as a relation between a light before and
    after [update_cycle]. *)
Definition phase_step (l l' : Light) : Prop :=
  pattern l' = pattern l /\ green_time l' = green_time l /\
  yellow_time l' = yellow_time l /\ all_red_time l' = all_red_time l /\
  ((timer l + 1 < duration_of l /\ phase l' = phase l /\ timer l' = timer l + 1) \/
   (duration_of l <= timer l + 1 /\ phase l' = (phase l + 1) mod 6 /\ timer l' = 0)).

End Traffic.

(** * Charging coordinator ([ManhattanEVNetwork]) *)
Module EV.

(** One entry of [self.stations]. *)
Record Station := mkStation {
  id : string;
  lat : Q;
  lon : Q;
  power : Q;
  capacity : Z;
  vehicles_charging : list string
}.

(** One entry of [self.ev_vehicles]. *)
Record EVState := mkEVState {
  battery : Q;
  charging : bool;
  target_station : option string
}.

(** One entry of [self.charging_sessions[station_id]]. *)
Record Session := mkSession { start : Q; energy_kwh : Q }.

(** One vehicle of the snapshot built by [get_manhattan_vehicles]; the keys
    ['angle'] and ['type'] are not read by the coordinator. *)
Record Vehicle := mkVehicle {
  vid : string;
  x : Q;
  y : Q;
  speed : Q;
  is_ev : bool;
  v_charging : bool
}.

(** What the environment answers while one vehicle is processed:
    [random.uniform(20, 80)], [random.random()], whether the simulator finds
    and accepts a route to the chosen station, and the two readings of
    [time.time()] taken while metering. *)
Record Draws := mkDraws {
  uniform_20_80 : Q;
  random_01 : Q;
  route_accepted : bool;
  time_start : Q;
  time_now : Q
}.

(** The coordinator object. *)
Record Network := mkNetwork {
  stations : list Station;
  charging_sessions : gmap string (gmap string Session);
  charging_vehicles : gmap string (list string);
  ev_share_percent : Z;
  ev_charging_bias_percent : Z;
  ev_vehicles : gmap string EVState
}.

(** [ManhattanEVNetwork.__init__]. *)
Definition new_network : Network := mkNetwork [] ∅ ∅ 30 30 ∅.

(** The stations as [create_manhattan_grid_stations] leaves them registered:
    every station gets an empty session table. *)
Definition register_sessions (n : Network) : Network :=
  mkNetwork (stations n)
    (fold_left (fun m st => <[id st := ∅]> m) (stations n) (charging_sessions n))
    (charging_vehicles n) (ev_share_percent n) (ev_charging_bias_percent n)
    (ev_vehicles n).

(** Squared straight-line distance; [route_ev_to_station] compares
    [math.sqrt] of it, which orders the same way. *)
Definition dist2 (pos : Q * Q) (st : Station) : Q :=
  ((fst pos - lon st) * (fst pos - lon st)
   + (snd pos - lat st) * (snd pos - lat st))%Q.

(** The search loop of [route_ev_to_station]: the nearest station with free
    capacity, with its squared distance ([None] stands for [inf]). *)
Fixpoint nearest_free (pos : Q * Q) (sts : list Station)
    (best : option (Station * Q)) : option (Station * Q) :=
  match sts with
  | [] => best
  | st :: rest =>
      if Z.of_nat (length (vehicles_charging st)) <? capacity st then
        let d := dist2 pos st in
        let closer := match best with
                      | None => true
                      | Some (_, m) => Qltb d m
                      end in
        nearest_free pos rest (if closer then Some (st, d) else best)
      else nearest_free pos rest best
  end.

(** [route_ev_to_station]: the station is returned only when it is within
    0.01 degrees and the simulator accepts the new route. *)
Definition route_ev_to_station (sts : list Station) (pos : Q * Q)
    (accepted : bool) : option Station :=
  match nearest_free pos sts None with
  | Some (best_station, d2) =>
      if Qltb d2 (0.01 * 0.01)%Q && accepted then Some best_station else None
  | None => None
  end.

(** The state the vehicle loop of [process_ev_charging] mutates. *)
Record Loop := mkLoop {
  l_ev : gmap string EVState;
  l_cv : gmap string (list string);
  l_sessions : gmap string (gmap string Session);
  l_total_evs : Z;
  l_charging_count : Z
}.

Definition within (capture_radius : Q) (v : Vehicle) (st : Station) : bool :=
  Qltb (Qabs (y v - lat st)) capture_radius &&
  Qltb (Qabs (x v - lon st)) capture_radius.

(** The metering block, entered for a slow vehicle inside the capture radius
    of [st] whose list [occ] still has room.  [None]: the station has no
    session table and the lookup raises [KeyError]. *)
Definition meter (v : Vehicle) (d : Draws) (ev_data : EVState)
    (st : Station) (occ : list string) (s : Loop) : option (Loop * bool) :=
  let b := Qmin 100 (battery ev_data + 0.5) in
  match l_sessions s !! id st with
  | None => None
  | Some table =>
      let session0 := match table !! vid v with
                      | Some se => se
                      | None => mkSession (time_start d) 0
                      end in
      let duration_hours := ((time_now d - start session0) / 3600)%Q in
      let session := mkSession (start session0)
                               (Qmin (power st * duration_hours) 100) in
      let full := Qle_bool 95 b in
      let ev' := if full then mkEVState b false None
                 else mkEVState b true (target_station ev_data) in
      Some (mkLoop (<[vid v := ev']> (l_ev s))
                   (<[id st := occ ++ [vid v]]> (l_cv s))
                   (<[id st := <[vid v := session]> table]> (l_sessions s))
                   (l_total_evs s)
                   (l_charging_count s + 1),
            negb full)
  end.

(** The station loop for one vehicle; it stops at the first station that
    meters the vehicle.  The boolean is the vehicle's ['charging'] key. *)
Fixpoint station_loop (capture_radius : Q) (v : Vehicle) (d : Draws)
    (ev_data : EVState) (sts : list Station) (s : Loop)
  : option (Loop * bool) :=
  match sts with
  | [] => Some (s, v_charging v)
  | st :: rest =>
      if within capture_radius v st then
        let cv1 := match l_cv s !! id st with
                   | Some _ => l_cv s
                   | None => <[id st := []]> (l_cv s)
                   end in
        let occ := default [] (cv1 !! id st) in
        let s1 := mkLoop (l_ev s) cv1 (l_sessions s) (l_total_evs s)
                         (l_charging_count s) in
        if Z.of_nat (length occ) <? capacity st then
          if Qltb (speed v) 2.0 then meter v d ev_data st occ s1
          else station_loop capture_radius v d ev_data rest s1
        else station_loop capture_radius v d ev_data rest s1
      else station_loop capture_radius v d ev_data rest s
  end.

Section WithHash.

(** Python's [hash] on vehicle ids. *)
Variable hash : string -> Z.

Definition classify (share : Z) (v : Vehicle) : bool := hash (vid v) mod 100 <? share.

(** Body of the vehicle loop. *)
Definition process_vehicle (share bias : Z) (capture_radius : Q)
    (sts : list Station) (v : Vehicle) (d : Draws) (s : Loop)
  : option (Loop * Vehicle) :=
  if negb (classify share v) then
    Some (s, mkVehicle (vid v) (x v) (y v) (speed v) false (v_charging v))
  else
    let ev0 := match l_ev s !! vid v with
               | Some e => e
               | None => mkEVState (uniform_20_80 d) false None
               end in
    let needs_charging :=
      Qltb (battery ev0) 30 ||
      (Qltb (battery ev0) 50 && Qltb (random_01 d) (inject_Z bias / 100)) in
    let ev1 :=
      if needs_charging && negb (charging ev0) then
        match route_ev_to_station sts (x v, y v) (route_accepted d) with
        | Some station => mkEVState (battery ev0) (charging ev0) (Some (id station))
        | None => ev0
        end
      else ev0 in
    let s1 := mkLoop (<[vid v := ev1]> (l_ev s)) (l_cv s) (l_sessions s)
                     (l_total_evs s + 1) (l_charging_count s) in
    match station_loop capture_radius v d ev1 sts s1 with
    | None => None
    | Some (s2, flag) =>
        Some (s2, mkVehicle (vid v) (x v) (y v) (speed v) true flag)
    end.

Fixpoint vehicle_loop (share bias : Z) (capture_radius : Q)
    (sts : list Station) (obs : list (Vehicle * Draws)) (s : Loop)
  : option (Loop * list Vehicle) :=
  match obs with
  | [] => Some (s, [])
  | (v, d) :: rest =>
      match process_vehicle share bias capture_radius sts v d s with
      | None => None
      | Some (s1, v') =>
          match vehicle_loop share bias capture_radius sts rest s1 with
          | None => None
          | Some (s2, vs) => Some (s2, v' :: vs)
          end
      end
  end.

Definition clamp_percent (p : Z) : Z := Z.max 0 (Z.min 100 p).

Definition capture_radius_of (bias : Z) : Q :=
  (0.002 + (inject_Z bias / 100.0) * 0.006)%Q.

(** What one call of [process_ev_charging] returns and leaves behind. *)
Record Tick := mkTick {
  network : Network;
  vehicles : list Vehicle;
  total_evs : Z;
  charging_count : Z
}.

(** [process_ev_charging].  [obs] is the snapshot, each vehicle paired with
    the environment's answers while it is processed.  [None]: a [KeyError]
    left the function. *)
Definition process_ev_charging (n : Network) (obs : list (Vehicle * Draws))
  : option Tick :=
  let share := clamp_percent (ev_share_percent n) in
  let bias := clamp_percent (ev_charging_bias_percent n) in
  let capture_radius := capture_radius_of bias in
  match vehicle_loop share bias capture_radius (stations n) obs
          (mkLoop (ev_vehicles n) ∅ (charging_sessions n) 0 0) with
  | None => None
  | Some (s, vs) =>
      let stations' :=
        map (fun st => mkStation (id st) (lat st) (lon st) (power st)
                         (capacity st) (default [] (l_cv s !! id st)))
            (stations n) in
      Some (mkTick (mkNetwork stations' (l_sessions s) (l_cv s)
                      (ev_share_percent n) (ev_charging_bias_percent n) (l_ev s))
                   vs (l_total_evs s) (l_charging_count s))
  end.

(** Successive ticks. *)
Fixpoint run_ticks (n : Network) (snapshots : list (list (Vehicle * Draws)))
  : option Network :=
  match snapshots with
  | [] => Some n
  | obs :: rest =>
      match process_ev_charging n obs with
      | None => None
      | Some t => run_ticks (network t) rest
      end
  end.

End WithHash.

(** In the tick that produced [cv], vehicle [k] was the [i]-th one taken in
    at station [sid]; it was metered at all. *)
Definition slot (cv : gmap string (list string)) (sid : string) (i : nat)
    (k : string) : Prop :=
  exists occ, cv !! sid = Some occ /\ occ !! i = Some k.

Definition metered (cv : gmap string (list string)) (k : string) : Prop :=
  exists sid i, slot cv sid i k.

(** The record vehicle [k] enters a tick with: the tracked one, or the one
    created on first observation. *)
Definition start_state (d : Draws) (ev : gmap string EVState) (k : string)
  : EVState :=
  default (mkEVState (uniform_20_80 d) false None) (ev !! k).

(** [cv'] is [cv] with empty lists added under new keys. *)
Definition cv_ext (cv cv' : gmap string (list string)) : Prop :=
  forall sid, cv' !! sid = cv !! sid \/ (cv !! sid = None /\ cv' !! sid = Some []).

(** The record the metering block leaves for a vehicle whose record was
    [e] when the block was entered. *)
Definition metered_state (e e' : EVState) : Prop :=
  battery e' = Qmin 100 (battery e + 0.5) /\
  charging e' = negb (Qle_bool 95 (battery e')).

(** Outcome of the station loop for one vehicle: either no station metered
    it, or exactly one did. *)
Definition station_outcome (capture_radius : Q) (v : Vehicle) (e : EVState)
    (sts : list Station) (s s' : Loop) (flag : bool) : Prop :=
  (l_ev s' = l_ev s /\ l_sessions s' = l_sessions s /\
   cv_ext (l_cv s) (l_cv s') /\ l_charging_count s' = l_charging_count s /\
   flag = v_charging v)
  \/
  (exists st occ cvm e',
      st ∈ sts /\ within capture_radius v st = true /\
      Qltb (speed v) 2.0 = true /\
      Z.of_nat (length occ) < capacity st /\
      cv_ext (l_cv s) cvm /\ cvm !! id st = Some occ /\
      l_cv s' = <[id st := occ ++ [vid v]]> cvm /\
      l_ev s' = <[vid v := e']> (l_ev s) /\
      metered_state e e' /\ flag = charging e' /\
      l_charging_count s' = l_charging_count s + 1 /\
      exists table, l_sessions s' = <[id st := table]> (l_sessions s)).

(** No list of [cv] is longer than its station's capacity. *)
Definition cap_inv (sts : list Station) (cv : gmap string (list string))
  : Prop :=
  forall st occ, st ∈ sts -> cv !! id st = Some occ ->
                 Z.of_nat (length occ) <= capacity st.



(** The static side conditions on the station table that
    [create_manhattan_grid_stations] establishes, and the occupancy bound. *)
Definition stations_ok (n : Network) : Prop :=
  NoDup (map id (stations n)) /\
  (forall st, st ∈ stations n -> 0 <= capacity st) /\
  (forall st, st ∈ stations n -> is_Some (charging_sessions n !! id st)).

Definition occupancy_ok (n : Network) : Prop :=
  (forall st, st ∈ stations n ->
              Z.of_nat (length (vehicles_charging st)) <= capacity st) /\
  cap_inv (stations n) (charging_vehicles n).

(** What processing one vehicle does to the tracked records and to the
    occupancy lists. *)
Definition step_summary (classified : bool) (capture_radius : Q)
    (sts : list Station) (v : Vehicle) (d : Draws) (s s' : Loop) : Prop :=
  (classified = false /\ s' = s) \/
  (classified = true /\
   exists e', l_ev s' = <[vid v := e']> (l_ev s) /\
     ((battery e' = battery (start_state d (l_ev s) (vid v)) /\
       charging e' = charging (start_state d (l_ev s) (vid v)) /\
       (forall sid j k, slot (l_cv s') sid j k <-> slot (l_cv s) sid j k))
      \/
      (metered_state (start_state d (l_ev s) (vid v)) e' /\
       exists st i,
         st ∈ sts /\ within capture_radius v st = true /\
         Qltb (speed v) 2.0 = true /\ Z.of_nat i < capacity st /\
         (forall sid j k, slot (l_cv s') sid j k <->
                          slot (l_cv s) sid j k \/
                          (sid = id st /\ j = i /\ k = vid v))))).

(** Every station has a session table, as after
    [create_manhattan_grid_stations]. *)
Definition sessions_registered (sts : list Station)
    (sessions : gmap string (gmap string Session)) : Prop :=
  forall st, st ∈ sts -> is_Some (sessions !! id st).

(** A small concrete world: one single-charger station and two vehicles
    standing on it; every id hashes to 0, so every vehicle is electric. *)
Definition demo_hash (_ : string) : Z := 0.

Definition demo_station : Station :=
  mkStation "ev_station_0" 40.75 (-73.98) 150 1 [].

Definition demo_network : Network :=
  register_sessions (mkNetwork [demo_station] ∅ ∅ 30 30 ∅).

Definition demo_draws : Draws := mkDraws 50 0.5 false 0 1.

Definition demo_va : Vehicle := mkVehicle "veh0" (-73.98) 40.75 0 false false.
Definition demo_vb : Vehicle := mkVehicle "veh1" (-73.98) 40.75 0 false false.

End EV.

(** * Dispatch and flow engine ([ManhattanPowerNetworkRealistic]) *)
Module Power.

Local Open Scope Q_scope.

Inductive GenType :=
  gas_turbine | combined_cycle | steam_turbine | solar_pv | wind | battery
| diesel | fuel_cell.

(** One entry of [self.generators].  [must_run] is [gen.get('must_run')]
    (absent in the built-in table, hence false there); the last three fields
    are only read for batteries. *)
Record Generator := mkGenerator {
  capacity_mw : Q;
  min_mw : Q;
  gen_type : GenType;
  cost_per_mwh : Q;
  must_run : bool;
  current_output : Q;
  current_soc : Q;
  energy_capacity_mwh : Q;
  efficiency : Q
}.

(** One entry of [self.lines]. *)
Record Line := mkLine {
  voltage : Q;
  line_capacity_mw : Q;
  current_flow : Q
}.

(** One entry of [self.loads]. *)
Record Load := mkLoad {
  load_type : string;
  base_mw : Q;
  current_mw : Q
}.

Inductive ViolationType := line_overload | high_loading | transformer_overload.
Inductive Severity := critical | warning.

(** One entry of [self.thermal_violations]; [v_value] is the ['utilization']
    or ['loading'] key. *)
Record Violation := mkViolation {
  element : string;
  v_type : ViolationType;
  v_value : Q;
  severity : Severity
}.

(** The network object; the infrastructure load tables are kept as the
    [current_mw] of each entry, the transformer table as its keys. *)
Record Network := mkNetwork {
  generators : list (string * Generator);
  loads : list (string * Load);
  lines : list (string * Line);
  transformers : list string;
  traffic_light_loads : list (string * Q);
  street_light_loads : list (string * Q);
  ev_charging_loads : list (string * Q);
  total_load : Q;
  total_generation : Q;
  thermal_violations : list Violation;
  voltage_violations : list Violation
}.

Definition set_output (g : Generator) (o : Q) : Generator :=
  mkGenerator (capacity_mw g) (min_mw g) (gen_type g) (cost_per_mwh g)
              (must_run g) o (current_soc g) (energy_capacity_mwh g)
              (efficiency g).

Definition set_soc (g : Generator) (soc : Q) : Generator :=
  mkGenerator (capacity_mw g) (min_mw g) (gen_type g) (cost_per_mwh g)
              (must_run g) (current_output g) soc (energy_capacity_mwh g)
              (efficiency g).

Definition is_renewable (g : Generator) : bool :=
  match gen_type g with solar_pv | wind => true | _ => false end.

Definition is_thermal (g : Generator) : bool :=
  match gen_type g with
  | gas_turbine | combined_cycle | steam_turbine => true
  | _ => false
  end.

Definition is_battery (g : Generator) : bool :=
  match gen_type g with battery => true | _ => false end.

(** [sorted(self.generators.items(), key=cost_per_mwh)]: a stable sort,
    written as insertion from the right. *)
Fixpoint insert_by_cost (x : string * Generator)
    (l : list (string * Generator)) : list (string * Generator) :=
  match l with
  | [] => [x]
  | y :: l' =>
      if Qle_bool (cost_per_mwh (snd x)) (cost_per_mwh (snd y))
      then x :: y :: l'
      else y :: insert_by_cost x l'
  end.

Definition sorted_gens (gens : list (string * Generator))
  : list (string * Generator) :=
  fold_right insert_by_cost [] gens.

(** The two running totals of [_economic_dispatch]. *)
Record Acc := mkAcc { remaining_load : Q; acc_generation : Q }.

Section Dispatch.

(** [hour] is [datetime.now().hour]; [solar_curve] is
    [math.sin((hour - 6) * math.pi / 12)]. *)
Variable hour : Z.
Variable solar_curve : Q.

(** First loop: must-run and renewable generation. *)
Definition renewable_body (g : Generator) (a : Acc) : Generator * Acc :=
  if is_renewable g then
    let g' :=
      match gen_type g with
      | solar_pv =>
          if ((6 <=? hour) && (hour <=? 18))%Z
          then set_output g (capacity_mw g * solar_curve * 0.85)
          else set_output g 0
      | _ => g
      end in
    (g', mkAcc (remaining_load a - current_output g')
               (acc_generation a + current_output g'))
  else (g, a).

(** The level a thermal unit is set to when no demand is left for it. *)
Definition idle_output (g : Generator) : Q :=
  if must_run g then min_mw g else 0.

(** Second loop: thermal generators. *)
Definition thermal_body (g : Generator) (a : Acc) : Generator * Acc :=
  if is_thermal g then
    if Qltb 0 (remaining_load a) then
      let output := Qmin (capacity_mw g) (Qmax (min_mw g) (remaining_load a)) in
      (set_output g output,
       mkAcc (remaining_load a - output) (acc_generation a + output))
    else (set_output g (idle_output g), a)
  else (g, a).

(** Third loop: battery storage. *)
Definition battery_body (g : Generator) (a : Acc) : Generator * Acc :=
  if is_battery g then
    if Qltb 0 (remaining_load a) && Qltb 0.2 (current_soc g) then
      let discharge :=
        Qmin (Qmin (capacity_mw g) (remaining_load a))
             (current_soc g * energy_capacity_mwh g) in
      (set_output g discharge,
       mkAcc (remaining_load a - discharge) (acc_generation a + discharge))
    else if Qltb (remaining_load a) (-50) && Qltb (current_soc g) 0.9 then
      let charge :=
        Qmin (Qmin (capacity_mw g) (- remaining_load a))
             ((1 - current_soc g) * energy_capacity_mwh g) in
      (set_output g (- charge),
       mkAcc (remaining_load a + charge) (acc_generation a))
    else (g, a)
  else (g, a).

(** A [for] loop over generator items that updates each generator in place
    and threads the running totals. *)
Fixpoint gen_loop (body : Generator -> Acc -> Generator * Acc)
    (l : list (string * Generator)) (a : Acc)
  : list (string * Generator) * Acc :=
  match l with
  | [] => ([], a)
  | (name, g) :: rest =>
      let '(g', a') := body g a in
      let '(rest', a'') := gen_loop body rest a' in
      ((name, g') :: rest', a'')
  end.

(** The generators of [self.generators], in its own order, as the loops over
    [sorted_gens] left them: both hold the same generator objects. *)
Definition write_back (gens updated : list (string * Generator))
  : list (string * Generator) :=
  map (fun e => (fst e, default (snd e) (dict_get (fst e) updated))) gens.

Definition set_dispatch (n : Network) (gens : list (string * Generator))
    (gen : Q) : Network :=
  mkNetwork gens (loads n) (lines n) (transformers n) (traffic_light_loads n)
            (street_light_loads n) (ev_charging_loads n) (total_load n) gen
            (thermal_violations n) (voltage_violations n).

(** [_economic_dispatch]. *)
Definition _economic_dispatch (n : Network) : Network :=
  let sorted := sorted_gens (generators n) in
  let '(s1, a1) := gen_loop renewable_body sorted (mkAcc (total_load n) 0) in
  let '(s2, a2) := gen_loop thermal_body s1 a1 in
  let '(g3, a3) := gen_loop battery_body (write_back (generators n) s2) a2 in
  set_dispatch n g3 (acc_generation a3).

End Dispatch.

(** [_calculate_line_flows], one line. *)
Definition line_flow (total : Q) (l : Line) : Line :=
  let base_flow := total * 0.001 * line_capacity_mw l in
  let flow :=
    if Qeq_bool (voltage l) 138
    then Qmin (base_flow * 1.5) (line_capacity_mw l * 0.8)
    else if Qeq_bool (voltage l) 27
    then Qmin (base_flow * 1.2) (line_capacity_mw l * 0.7)
    else if Qeq_bool (voltage l) 13.8
    then Qmin (base_flow * 1.0) (line_capacity_mw l * 0.6)
    else Qmin (base_flow * 0.8) (line_capacity_mw l * 0.5) in
  mkLine (voltage l) (line_capacity_mw l) flow.

Definition _calculate_line_flows (n : Network) : Network :=
  mkNetwork (generators n) (loads n)
            (map (fun e => (fst e, line_flow (total_load n) (snd e))) (lines n))
            (transformers n) (traffic_light_loads n) (street_light_loads n)
            (ev_charging_loads n) (total_load n) (total_generation n)
            (thermal_violations n) (voltage_violations n).

Definition utilization (l : Line) : Q :=
  if Qltb 0 (line_capacity_mw l)
  then (current_flow l / line_capacity_mw l) * 100
  else 0.

(** The entries the line loop of [_check_violations] appends for one line. *)
Definition line_violation (name : string) (l : Line) : list Violation :=
  let u := utilization l in
  if Qltb 100 u then
    [mkViolation name line_overload u (if Qltb 120 u then critical else warning)]
  else if Qltb 90 u then [mkViolation name high_loading u warning]
  else [].

(** The entries the transformer loop appends for one transformer whose
    placeholder loading is [loading]. *)
Definition transformer_violation (name : string) (loading : Q)
  : list Violation :=
  if Qltb 100 loading
  then [mkViolation name transformer_overload loading critical]
  else [].

(** [_check_violations]; [uniform_60_95 name] is the value
    [np.random.uniform(60, 95)] returns for transformer [name]. *)
Definition _check_violations (uniform_60_95 : string -> Q) (n : Network)
  : Network :=
  mkNetwork (generators n) (loads n) (lines n) (transformers n)
            (traffic_light_loads n) (street_light_loads n)
            (ev_charging_loads n) (total_load n) (total_generation n)
            (flat_map (fun e => line_violation (fst e) (snd e)) (lines n)
             ++ flat_map (fun x => transformer_violation x (uniform_60_95 x))
                         (transformers n))
            [].

(** Float division: dividing by zero raises [ZeroDivisionError]. *)
Definition py_div (a b : Q) : option Q :=
  if Qeq_bool b 0 then None else Some (a / b).

Definition time_step_hours : Q := 0.25.

(** [_update_battery_soc], one generator. *)
Definition update_soc (g : Generator) : option Generator :=
  if is_battery g then
    let soc1 :=
      if Qltb 0 (current_output g) then
        match py_div (current_output g * time_step_hours) (efficiency g) with
        | None => None
        | Some energy_discharged =>
            match py_div energy_discharged (energy_capacity_mwh g) with
            | None => None
            | Some delta => Some (current_soc g - delta)
            end
        end
      else if Qltb (current_output g) 0 then
        let energy_charged :=
          - current_output g * time_step_hours * efficiency g in
        match py_div energy_charged (energy_capacity_mwh g) with
        | None => None
        | Some delta => Some (current_soc g + delta)
        end
      else Some (current_soc g) in
    match soc1 with
    | None => None
    | Some soc => Some (set_soc g (Qmax 0.0 (Qmin 1.0 soc)))
    end
  else Some g.

Fixpoint update_soc_all (l : list (string * Generator))
  : option (list (string * Generator)) :=
  match l with
  | [] => Some []
  | (name, g) :: rest =>
      match update_soc g with
      | None => None
      | Some g' =>
          match update_soc_all rest with
          | None => None
          | Some rest' => Some ((name, g') :: rest')
          end
      end
  end.

Definition _update_battery_soc (n : Network) : option Network :=
  match update_soc_all (generators n) with
  | None => None
  | Some gens =>
      Some (mkNetwork gens (loads n) (lines n) (transformers n)
              (traffic_light_loads n) (street_light_loads n)
              (ev_charging_loads n) (total_load n) (total_generation n)
              (thermal_violations n) (voltage_violations n))
  end.

(** [get_status()['violations']['thermal']]. *)
Definition thermal_violation_count (n : Network) : nat :=
  length (thermal_violations n).

Definition in_hours (lo hi hour : Z) : bool := ((lo <=? hour) && (hour <? hi))%Z.

(** [_get_load_profiles]. *)
Definition _get_load_profiles (hour minute day_of_week : Z)
  : list (string * Q) :=
  let is_weekend := (5 <=? day_of_week)%Z in
  let commercial :=
    if is_weekend then
      if in_hours 10 18 hour then 0.6 else 0.4
    else if in_hours 7 9 hour then 0.7
    else if in_hours 9 12 hour then 0.95
    else if in_hours 12 13 hour then 0.9
    else if in_hours 13 17 hour then 1.0
    else if in_hours 17 19 hour then 0.85
    else if in_hours 19 22 hour then 0.6
    else 0.4 in
  let residential :=
    if is_weekend then
      if in_hours 8 12 hour then 0.8
      else if in_hours 12 17 hour then 0.7
      else if in_hours 17 22 hour then 0.9
      else 0.5
    else if in_hours 6 8 hour then 0.7
    else if in_hours 8 17 hour then 0.4
    else if in_hours 17 20 hour then 0.8
    else if in_hours 20 23 hour then 1.0
    else 0.5 in
  [("commercial"%string, commercial);
   ("residential"%string, residential);
   ("retail"%string, if in_hours 10 21 hour then commercial * 1.1 else 0.3);
   ("data_center"%string, 0.95);
   ("hospital"%string, if in_hours 7 22 hour then 0.85 else 0.7);
   ("transit"%string,
    if in_hours 7 10 hour || in_hours 17 20 hour then 1.2 else 0.8);
   ("traffic_control"%string, 1.0)].

Definition apply_profile (profiles : list (string * Q)) (l : Load) : Load :=
  mkLoad (load_type l) (base_mw l)
         (base_mw l * default 1.0 (dict_get (load_type l) profiles)).

Definition sum_mw (l : list (string * Q)) (start : Q) : Q :=
  fold_left (fun acc e => acc + snd e) l start.

(** [simulate_power_flow].  [None]: [_update_battery_soc] raised. *)
Definition simulate_power_flow (hour minute day_of_week : Z) (solar_curve : Q)
    (uniform_60_95 : string -> Q) (n : Network) : option Network :=
  let load_profiles := _get_load_profiles hour minute day_of_week in
  let loads' := map (fun e => (fst e, apply_profile load_profiles (snd e)))
                    (loads n) in
  let total :=
    sum_mw (ev_charging_loads n)
      (sum_mw (street_light_loads n)
         (sum_mw (traffic_light_loads n)
            (fold_left (fun acc e => acc + current_mw (snd e)) loads' 0))) in
  let n1 := mkNetwork (generators n) loads' (lines n) (transformers n)
              (traffic_light_loads n) (street_light_loads n)
              (ev_charging_loads n) total (total_generation n)
              (thermal_violations n) (voltage_violations n) in
  _update_battery_soc
    (_check_violations uniform_60_95
       (_calculate_line_flows (_economic_dispatch hour solar_curve n1))).

(** What the first loop sets a generator's output to (it does not depend on
    the running totals). *)
Definition renewable_output (hour : Z) (solar_curve : Q) (g : Generator) : Q :=
  current_output (fst (renewable_body hour solar_curve g (mkAcc 0 0))).

(** The demand left for the thermal units once the renewables of the merit
    list [l] are taken. *)
Definition residual_demand (hour : Z) (solar_curve : Q)
    (l : list (string * Generator)) (total : Q) : Q :=
  fold_left (fun r e => if is_renewable (snd e)
                        then r - renewable_output hour solar_curve (snd e)
                        else r) l total.


(** The built-in generator table of [_add_generators]. *)
Definition manhattan_generators : list (string * Generator) :=
  [("GEN_East_River_GT1"%string, mkGenerator 180 50 gas_turbine 120 false 0 0 0 0);
   ("GEN_East_River_GT2"%string, mkGenerator 180 50 gas_turbine 120 false 0 0 0 0);
   ("GEN_Hudson_CC1"%string, mkGenerator 500 150 combined_cycle 65 false 0 0 0 0);
   ("GEN_ConEd_Steam"%string, mkGenerator 300 100 steam_turbine 80 false 0 0 0 0);
   ("GEN_Solar_Midtown"%string, mkGenerator 25 0 solar_pv 0 false 0 0 0 0.22);
   ("GEN_Solar_Chelsea"%string, mkGenerator 20 0 solar_pv 0 false 0 0 0 0.22);
   ("GEN_Solar_Financial"%string, mkGenerator 15 0 solar_pv 0 false 0 0 0 0.22);
   ("GEN_BESS_Times_Square"%string, mkGenerator 50 (-50) battery 15 false 0 0.5 200 0.90);
   ("GEN_BESS_Wall_Street"%string, mkGenerator 40 (-40) battery 15 false 0 0.5 160 0.90);
   ("GEN_Emergency_Traffic_Control"%string, mkGenerator 5 1 diesel 200 false 0 0 0 0);
   ("GEN_FuelCell_OneWTC"%string, mkGenerator 10 2 fuel_cell 90 false 0 0 0 0.60)].


(** One line of each voltage class, with the capacities the builders use. *)
Definition sample_lines : list (string * Line) :=
  [("TL_138_Hellgate_Columbus"%string, mkLine 138 600 0);
   ("TL_27_SUB_Hellgate_SUB_27_Harlem"%string, mkLine 27 200 0);
   ("FDR_13_8_001"%string, mkLine 13.8 40 0);
   ("FDR_4_16_002"%string, mkLine 4.16 15 0)].

(** A network with the built-in generators, the sample lines, one
    transformer and a given total load. *)
Definition sample_network (total : Q) : Network :=
  mkNetwork manhattan_generators [] sample_lines ["XFMR_138_27_01"%string]
            [] [] [] total 0 [] [].

End Power.

(** * Further parts of the components *)

(** ** Signal heads, tallies and histories *)
Module Signals.
Import Traffic.

(** The number of lights tallied in [metrics['traffic_lights']]. *)
Definition counted (n : Counts) : nat :=
  (green_count n + yellow_count n + red_count n)%nat.

(** The simulator knows signal [k]: a traci call on it does not raise. *)
Definition known (env : gmap string string) (k : string) : bool :=
  match env !! k with Some _ => true | None => false end.

(** How many of the lights the simulator knows. *)
Fixpoint known_lights (env : gmap string string) (ls : list (string * Light))
  : nat :=
  match ls with
  | [] => 0
  | (k, _) :: rest => ((if known env k then 1 else 0) + known_lights env rest)%nat
  end.

(** The head colours used in state strings. *)
Definition GREEN : option Ascii.ascii := String.get 0 "G".
Definition YELLOW : option Ascii.ascii := String.get 0 "y".
Definition RED : option Ascii.ascii := String.get 0 "r".

End Signals.

(** ** Charging coordinator: routing, counters and sessions *)
Module Charging.
Import EV.

(** A station with room, as [route_ev_to_station] tests it. *)
Definition has_room (st : Station) : Prop :=
  Z.of_nat (length (vehicles_charging st)) < capacity st.

(** Sum of the lengths of the stations' occupancy lists in [cv]. *)
Fixpoint occupants (sts : list Station) (cv : gmap string (list string)) : Z :=
  match sts with
  | [] => 0
  | st :: rest => Z.of_nat (length (default [] (cv !! id st))) + occupants rest cv
  end.

(** Number of snapshot vehicles classified as electric. *)
Fixpoint electric (hash : string -> Z) (share : Z)
    (obs : list (Vehicle * Draws)) : Z :=
  match obs with
  | [] => 0
  | (v, _) :: rest =>
      (if classify hash share v then 1 else 0) + electric hash share rest
  end.

(** Sum of the lengths of the stations' own ['vehicles_charging'] lists. *)
Fixpoint occupied (sts : list Station) : Z :=
  match sts with
  | [] => 0
  | st :: rest => Z.of_nat (length (vehicles_charging st)) + occupied rest
  end.

(** No vehicle holds two slots of [cv]. *)
Definition one_slot_each (cv : gmap string (list string)) : Prop :=
  forall sid i sid' j k,
    slot cv sid i k -> slot cv sid' j k -> sid = sid' /\ i = j.

(** What the returned copy [v'] of the snapshot vehicle [v] says, against
    the occupancy lists [cv] and the records [ev] the tick leaves. *)
Definition reported (cv : gmap string (list string))
    (ev : gmap string EVState) (classified : bool) (v v' : Vehicle) : Prop :=
  vid v' = vid v /\ x v' = x v /\ y v' = y v /\ speed v' = speed v /\
  is_ev v' = classified /\
  ((classified = true /\ metered cv (vid v) /\
    exists e, ev !! vid v = Some e /\ v_charging v' = charging e)
   \/
   ((classified = false \/ ~ metered cv (vid v)) /\
    v_charging v' = v_charging v)).

(** [self.charging_sessions[sid][k]], when both keys exist. *)
Definition session_of (sessions : gmap string (gmap string Session))
    (sid k : string) : option Session :=
  match sessions !! sid with
  | Some table => table !! k
  | None => None
  end.

(** How a session entry may differ after some metering: not at all, or it
    now holds at most 100 kWh and, if it existed, its start is kept. *)
Definition session_step (old new : option Session) : Prop :=
  new = old \/
  exists se', new = Some se' /\ (energy_kwh se' <= 100)%Q /\
              forall se, old = Some se -> start se' = start se.

End Charging.

(** ** Station creation ([create_manhattan_grid_stations]) *)
Module Stations.
Import EV.

(** What [random] answers while one station is built: the two
    [random.uniform(-0.0005, 0.0005)] offsets, [random.choice([150, 250,
    350])] and [random.randint(6, 12)]. *)
Record StationDraw := mkStationDraw {
  jitter_lat : Q;
  jitter_lon : Q;
  power_choice : Q;
  capacity_draw : Z
}.

(** [f'ev_station_{k}']. *)
Definition station_id (k : nat) : string := "ev_station_" +:+ pretty k.

(** The sort key [(x[1], x[0])] of a position [(lon, lat)], compared as
    Python compares tuples. *)
Definition key_le (a b : Q * Q) : bool :=
  Qltb (snd a) (snd b) ||
  (Qeq_bool (snd a) (snd b) && Qle_bool (fst a) (fst b)).

Fixpoint insert_by_key (p : Q * Q) (l : list (Q * Q)) : list (Q * Q) :=
  match l with
  | [] => [p]
  | q :: rest => if key_le q p then q :: insert_by_key p rest else p :: q :: rest
  end.

(** [sorted(traffic_light_positions, key=...)]: a stable sort. *)
Definition sorted_by_key (l : list (Q * Q)) : list (Q * Q) :=
  fold_left (fun acc p => insert_by_key p acc) l [].

(** [range(i, stop, step)] for a positive step. *)
Fixpoint range_from (fuel i stop step : nat) : list nat :=
  match fuel with
  | O => []
  | S fuel' =>
      if (i <? stop)%nat then i :: range_from fuel' (i + step) stop step
      else []
  end.

Definition py_range (stop step : nat) : list nat := range_from stop 0 stop step.

(** The station appended next to the traffic light at [light_pos]. *)
Definition station_near (dr : StationDraw) (k : nat) (light_pos : Q * Q)
  : Station :=
  let station_lat := (snd light_pos + jitter_lat dr)%Q in
  let station_lon := (fst light_pos + jitter_lon dr)%Q in
  mkStation (station_id k)
            (Qmax 40.700 (Qmin 40.800 station_lat))
            (Qmax (-74.020) (Qmin (-73.930) station_lon))
            (power_choice dr) (capacity_draw dr) [].

(** The placement loop over the sampled indices.  [None]: the index is
    outside [sorted_lights] and the lookup raises [IndexError]. *)
Fixpoint place_loop (draw : nat -> StationDraw) (sorted_lights : list (Q * Q))
    (idxs : list nat) (acc : list Station) : option (list Station) :=
  match idxs with
  | [] => Some acc
  | i :: rest =>
      if (12 <=? length acc)%nat then Some acc
      else
        match sorted_lights !! i with
        | None => None
        | Some light_pos =>
            place_loop draw sorted_lights rest
              (acc ++ [station_near (draw (length acc)) (length acc) light_pos])
        end
  end.

Definition lat_step : Q := ((40.800 - 40.700) / 4)%Q.
Definition lon_step : Q := ((-73.930 - (-74.020)) / 3)%Q.

Definition fallback_station (dr : StationDraw) (idx lat_i lon_i : nat)
  : Station :=
  mkStation (station_id idx)
            (40.710 + inject_Z (Z.of_nat lat_i) * lat_step)%Q
            (-74.010 + inject_Z (Z.of_nat lon_i) * lon_step)%Q
            (power_choice dr) (capacity_draw dr) [].

(** The inner loop of the fallback grid; the state is the list built so
    far and [idx]. *)
Fixpoint fallback_row (draw : nat -> StationDraw) (lat_i : nat)
    (lon_is : list nat) (st : list Station * nat) : list Station * nat :=
  match lon_is with
  | [] => st
  | lon_i :: rest =>
      if (12 <=? snd st)%nat then st
      else fallback_row draw lat_i rest
             (fst st ++ [fallback_station (draw (snd st)) (snd st) lat_i lon_i],
              S (snd st))
  end.

Definition fallback_grid (draw : nat -> StationDraw) : list Station :=
  fst (fold_left (fun st lat_i => fallback_row draw lat_i (seq 0 3) st)
                 (seq 0 4) ([], O)).

(** The two branches of [create_manhattan_grid_stations] that fill
    [self.stations].  [traffic_light_positions] holds [(lon, lat)] pairs. *)
Definition build_stations (draw : nat -> StationDraw)
    (traffic_light_positions : list (Q * Q)) : option (list Station) :=
  if (0 <? length traffic_light_positions)%nat then
    let sorted_lights := sorted_by_key traffic_light_positions in
    let num_stations := Nat.min 12 (length sorted_lights / 5) in
    let step := if (0 <? num_stations)%nat
                then (length sorted_lights / num_stations)%nat else 1%nat in
    place_loop draw sorted_lights
      (py_range (Nat.min (length sorted_lights) (num_stations * step)) step)
      []
  else Some (fallback_grid draw).

(** [create_manhattan_grid_stations]: the stations are built, then every
    station gets an empty session table.  The keys ['name'] and ['street']
    are not read by the coordinator. *)
Definition create_manhattan_grid_stations (draw : nat -> StationDraw)
    (traffic_light_positions : list (Q * Q)) (n : Network) : option Network :=
  match build_stations draw traffic_light_positions with
  | None => None
  | Some sts =>
      Some (register_sessions
              (mkNetwork sts (charging_sessions n) (charging_vehicles n)
                         (ev_share_percent n) (ev_charging_bias_percent n)
                         (ev_vehicles n)))
  end.

(** What every created station satisfies. *)
Definition station_sane (st : Station) : Prop :=
  6 <= capacity st <= 12 /\
  (40.700 <= lat st <= 40.800)%Q /\ (-74.020 <= lon st <= -73.930)%Q /\
  vehicles_charging st = [].

Definition demo_station_draw (_ : nat) : StationDraw :=
  mkStationDraw 0.0001 (-0.0002) 150 8.

End Stations.

(** ** Station panel ([prepare_ev_station_data]) *)
Module StationPanel.
Import EV.

(** One entry of the station list [prepare_ev_station_data] sends to the
    front end; ['name'] and ['street'] are copied from keys the station
    record here does not carry. *)
Record StationData := mkStationData {
  sd_id : string;
  sd_lat : Q;
  sd_lon : Q;
  sd_power : Q;
  sd_capacity : Z;
  evs_charging : Z;
  utilization : Q;
  power_output_mw : Q;
  busy : bool;
  sd_vehicles : list string
}.

(** Body of the loop of [prepare_ev_station_data]. *)
Definition station_entry (charging_vehicles : gmap string (list string))
    (station : Station) : StationData :=
  let vehicles_at_station := default [] (charging_vehicles !! id station) in
  let num_charging := Z.of_nat (length vehicles_at_station) in
  let utilization :=
    if 0 <? capacity station
    then (inject_Z num_charging / inject_Z (capacity station) * 100)%Q
    else 0%Q in
  let power_output_mw := (inject_Z num_charging * power station / 1000)%Q in
  mkStationData (id station) (lat station) (lon station) (power station)
                (capacity station) num_charging utilization power_output_mw
                (Qltb 80 utilization) vehicles_at_station.

(** [prepare_ev_station_data]: the entries, [total_power_mw] and
    [ev_charging_data]. *)
Definition prepare_ev_station_data (sts : list Station)
    (charging_vehicles : gmap string (list string))
  : list StationData * Q * list (string * list string) :=
  (map (station_entry charging_vehicles) sts,
   fold_left (fun total st =>
                (total + power_output_mw (station_entry charging_vehicles st))%Q)
             sts 0%Q,
   fold_left (fun m st =>
                dict_set (id st) (default [] (charging_vehicles !! id st)) m)
             sts []).

Fixpoint sum_evs (data : list StationData) : Z :=
  match data with
  | [] => 0
  | d :: rest => evs_charging d + sum_evs rest
  end.

(** What an entry says about load, for the front end. *)
Definition entry_sane (d : StationData) : Prop :=
  0 <= evs_charging d <= sd_capacity d /\
  (0 <= utilization d <= 100)%Q /\
  (busy d = true <-> 4 * sd_capacity d < 5 * evs_charging d) /\
  evs_charging d = Z.of_nat (length (sd_vehicles d)).

End StationPanel.

(** ** Dispatch and flow engine: capacities and totals *)
Module Grid.
Import Power.
Local Open Scope Q_scope.

(** The batteries on which [_update_battery_soc] divides by zero. *)
Definition soc_undefined (g : Generator) : Prop :=
  is_battery g = true /\
  ((0 < current_output g /\
    (efficiency g == 0 \/ energy_capacity_mwh g == 0)) \/
   (current_output g < 0 /\ energy_capacity_mwh g == 0)).

(** Sum of [f] over the generators of a table. *)
Fixpoint qsum (f : Generator -> Q) (l : list (string * Generator)) : Q :=
  match l with
  | [] => 0
  | e :: rest => f (snd e) + qsum f rest
  end.

(** Installed capacity of the thermal units. *)
Definition thermal_capacity (l : list (string * Generator)) : Q :=
  qsum (fun g => if is_thermal g then capacity_mw g else 0) l.

(** What the renewable units deliver at this hour. *)
Definition renewable_supply (hour : Z) (solar_curve : Q)
    (l : list (string * Generator)) : Q :=
  qsum (fun g => if is_renewable g then renewable_output hour solar_curve g
                 else 0) l.

(** Nameplate sum of [self.loads]. *)
Fixpoint base_total (l : list (string * Load)) : Q :=
  match l with
  | [] => 0
  | e :: rest => base_mw (snd e) + base_total rest
  end.

(** Sum of the three infrastructure tables. *)
Definition infrastructure_total (n : Network) : Q :=
  sum_mw (ev_charging_loads n)
    (sum_mw (street_light_loads n) (sum_mw (traffic_light_loads n) 0)).

(** A network with one commercial load of 100 MW. *)
Definition loaded_network : Network :=
  mkNetwork manhattan_generators
            [("LOAD_Midtown_Commercial"%string, mkLoad "commercial" 100 0)]
            sample_lines ["XFMR_138_27_01"%string] [] [] [] 0 0 [] [].

End Grid.

(** ** Infrastructure loads ([update_traffic_loads]) *)
Module Infra.
Local Open Scope Q_scope.

(** One entry of [self.traffic_light_loads], [self.street_light_loads]
    and [self.ev_charging_loads]; only the keys [update_traffic_loads]
    reads or writes are kept. *)
Record SignalLoad := mkSignalLoad {
  sg_base_mw : Q;
  sg_current_mw : Q;
  adaptive_control : bool
}.

Record StreetLoad := mkStreetLoad {
  sl_base_mw : Q;
  sl_current_mw : Q;
  dimming_capable : bool
}.

Record ChargerLoad := mkChargerLoad {
  ch_capacity_mw : Q;
  chargers : Z;
  ch_utilization : Q;
  ch_current_mw : Q
}.

Record Tables := mkTables {
  signal_tbl : list (string * SignalLoad);
  street_tbl : list (string * StreetLoad);
  charger_tbl : list (string * ChargerLoad)
}.

(** ['y' in s.lower()]. *)
Definition has_yellow (s : string) : bool := str_in "y" s || str_in "Y" s.

(** [sum(1 for s in states.values() if 'y' in s.lower()) / len(states)]. *)
Definition yellow_ratio (states : gmap string string) : Q :=
  inject_Z (Z.of_nat (length (List.filter has_yellow
                                 (map snd (map_to_list states)))))
  / inject_Z (Z.of_nat (size states)).

Definition update_signal (adaptive_factor : Q) (l : SignalLoad) : SignalLoad :=
  mkSignalLoad (sg_base_mw l)
               (if adaptive_control l
                then sg_base_mw l * adaptive_factor * 1.2
                else sg_base_mw l * adaptive_factor)
               (adaptive_control l).

Definition update_charger (charging_vehicles : list string) (st : ChargerLoad)
  : ChargerLoad :=
  let utilization :=
    if (0 <? chargers st)%Z
    then inject_Z (Z.of_nat (length charging_vehicles)) / inject_Z (chargers st)
    else 0 in
  mkChargerLoad (ch_capacity_mw st) (chargers st) utilization
                (ch_capacity_mw st * utilization * 0.85).

(** The loop over [ev_charging_data.items()]: an id that is not a key of
    the table is skipped. *)
Definition ev_loop (ev_charging_data : list (string * list string))
    (tbl : list (string * ChargerLoad)) : list (string * ChargerLoad) :=
  fold_left (fun t e =>
               match dict_get (fst e) t with
               | Some st => dict_set (fst e) (update_charger (snd e) st) t
               | None => t
               end)
            ev_charging_data tbl.

Definition dimming_by_hour (current_hour : Z) : Q :=
  if ((6 <=? current_hour) && (current_hour <=? 18))%Z then 0.0
  else if ((18 <=? current_hour) && (current_hour <=? 20))%Z then 0.7
  else if (((20 <=? current_hour) && (current_hour <=? 24))
           || ((0 <=? current_hour) && (current_hour <=? 5)))%Z then 1.0
  else 0.5.

Definition dimming_factor (current_hour vehicle_count : Z) : Q :=
  let d := dimming_by_hour current_hour in
  if (vehicle_count <? 100)%Z then d * 0.7
  else if (500 <? vehicle_count)%Z then d * 1.1
  else d.

Definition update_street (dimming : Q) (l : StreetLoad) : StreetLoad :=
  mkStreetLoad (sl_base_mw l)
               (if dimming_capable l
                then sl_base_mw l * dimming * 0.8
                else sl_base_mw l * Qmin 1.0 dimming)
               (dimming_capable l).

(** [update_traffic_loads]; [current_hour] is [datetime.now().hour]. *)
Definition update_traffic_loads (current_hour vehicle_count : Z)
    (traffic_light_states : gmap string string)
    (ev_charging_data : list (string * list string)) (t : Tables) : Tables :=
  let signals :=
    if (0 <? size traffic_light_states)%nat then
      let adaptive_factor := 1.0 + yellow_ratio traffic_light_states * 0.15 in
      map (fun e => (fst e, update_signal adaptive_factor (snd e)))
          (signal_tbl t)
    else signal_tbl t in
  let chargers' :=
    match ev_charging_data with
    | [] => charger_tbl t
    | _ => ev_loop ev_charging_data (charger_tbl t)
    end in
  let dimming := dimming_factor current_hour vehicle_count in
  mkTables signals
           (map (fun e => (fst e, update_street dimming (snd e))) (street_tbl t))
           chargers'.

End Infra.

(** ** Grid bookkeeping ([PowerGridManager]) *)
Module GridManager.
Local Open Scope Q_scope.

(** The bookkeeping fields of [PowerGridManager]. *)
Record Manager := mkManager {
  history : list Q;
  peak_demand : Q;
  total_energy : Q
}.

(** [PowerGridManager.__init__]. *)
Definition new_manager : Manager := mkManager [] 0 0.

Inductive Trend := stable | increasing | decreasing.

(** [sum(l)]. *)
Definition total (l : list Q) : Q := fold_left Qplus l 0.

(** [l[-k:]]. *)
Definition last_items (k : nat) (l : list Q) : list Q :=
  drop (length l - k) l.

(** [_calculate_trend]; [history[-10:-5]] is read only when the history
    holds at least 10 samples. *)
Definition _calculate_trend (history : list Q) : Trend :=
  if (length history <? 10)%nat then stable
  else
    let recent := total (last_items 5 history) / 5 in
    let older := total (take 5 (last_items 10 history)) / 5 in
    if Qltb (older * 1.05) recent then increasing
    else if Qltb recent (older * 0.95) then decreasing
    else stable.

(** The keys of the dict [calculate_real_time_load] returns that come from
    the manager's own bookkeeping. *)
Record Report := mkReport {
  load_factor : Q;
  peak_demand_mw : Q;
  total_energy_mwh : Q;
  trend : Trend
}.

(** The bookkeeping of [calculate_real_time_load] once the network has
    reported [total_load_mw] (the rounded [status['total_load_mw']]). *)
Definition record_load (m : Manager) (total_load_mw : Q) : Manager * Report :=
  let appended := history m ++ [total_load_mw] in
  let history' := if (100 <? length appended)%nat then tail appended
                  else appended in
  let peak := if Qltb (peak_demand m) total_load_mw then total_load_mw
              else peak_demand m in
  let energy := total_energy m + total_load_mw / 3600 in
  (mkManager history' peak energy,
   mkReport (if Qltb 0 peak then total_load_mw / peak * 100 else 0)
            peak energy (_calculate_trend history')).

(** The manager after a run of reported loads. *)
Definition record_all (reported : list Q) (m : Manager) : Manager :=
  fold_left (fun m x => fst (record_load m x)) reported m.

End GridManager.

(** * Properties *)

(** ** Helper facts *)

Lemma Qltb_lt (a b : Q) : Qltb a b = true <-> (a < b)%Q.
Proof.
  unfold Qltb. rewrite Qlt_alt.
  destruct (Qcompare a b); split; intros H; try reflexivity; discriminate H.
Qed.

Lemma Qltb_ge (a b : Q) : Qltb a b = false <-> (b <= a)%Q.
Proof.
  unfold Qltb. rewrite Qle_alt, <- (Qcompare_antisym a b).
  destruct (Qcompare a b); simpl; split; intros H;
    try reflexivity; try discriminate H; try (intros H'; discriminate H').
  exfalso; apply H; reflexivity.
Qed.

(** ** Signal phase controller *)

Section TrafficFacts.
Import Traffic.

Lemma update_light_clock tl_id l c :
  clock_of (fst (update_light tl_id l c)) = clock_tick (clock_of l).
Proof.
  unfold update_light, clock_tick, clock_of, duration_of, ck_duration; simpl.
  destruct (_ <=? timer l + 1); simpl; [|reflexivity].
  destruct (traci_set _ _ _); reflexivity.
Qed.

Lemma update_light_pattern tl_id l c :
  pattern (fst (update_light tl_id l c)) = pattern l.
Proof.
  unfold update_light; simpl.
  destruct (_ <=? timer l + 1); simpl; [|reflexivity].
  destruct (traci_set _ _ _); reflexivity.
Qed.

Lemma update_lights_lookup ls : forall c i tl_id l,
  ls !! i = Some (tl_id, l) ->
  exists c0, fst (update_lights ls c) !! i
             = Some (tl_id, fst (update_light tl_id l c0)).
Proof.
  induction ls as [|[k0 l0] ls IH]; intros c i tl_id l Hi; [discriminate Hi|].
  simpl. destruct (update_light k0 l0 c) as [l0' c'] eqn:E0.
  destruct (update_lights ls c') as [ls' c''] eqn:E1.
  destruct i as [|i]; simpl in *.
  - inversion Hi; subst. exists c. rewrite E0. reflexivity.
  - destruct (IH c' i tl_id l Hi) as [c0 H0]. exists c0.
    rewrite E1 in H0. exact H0.
Qed.

Lemma update_cycle_lookup env c i tl_id l :
  lights c !! i = Some (tl_id, l) ->
  exists l', lights (fst (fst (update_cycle env c))) !! i = Some (tl_id, l') /\
             clock_of l' = clock_tick (clock_of l) /\ pattern l' = pattern l.
Proof.
  intros Hi. unfold update_cycle.
  destruct (update_lights_lookup (lights c)
              (mkCtx env (traffic_light_states c) (mkCounts 0 0 0)) i tl_id l Hi)
    as [c0 H0].
  destruct (update_lights _ _) as [ls' cx]. simpl in *.
  eexists; split; [exact H0|]. split.
  - apply update_light_clock.
  - apply update_light_pattern.
Qed.

Lemma run_cycles_lookup envs : forall c i tl_id l,
  lights c !! i = Some (tl_id, l) ->
  exists l', lights (run_cycles envs c) !! i = Some (tl_id, l') /\
             clock_of l' = Nat.iter (length envs) clock_tick (clock_of l).
Proof.
  induction envs as [|env envs IH]; intros c i tl_id l Hi; simpl.
  - exists l. split; [exact Hi | reflexivity].
  - destruct (update_cycle_lookup env c i tl_id l Hi) as (l1 & H1 & Hc & _).
    destruct (IH _ i tl_id l1 H1) as (l' & H' & Hc').
    exists l'. split; [exact H'|].
    rewrite Hc', Hc. symmetry. exact (Nat.iter_succ_r _ _ _).
Qed.

Ltac split_tests :=
  repeat match goal with
         | |- context [Z.ltb ?a ?b] => destruct (Z.ltb_spec a b)
         | |- context [Z.leb ?a ?b] => destruct (Z.leb_spec a b)
         end.

Lemma clock_schedule g y r (j : nat) :
  1 <= g -> 1 <= y -> 1 <= r -> Z.of_nat j < 2 * (g + y + r) ->
  Nat.iter j clock_tick (mkClock 0 0 g y r)
  = mkClock (fst (schedule g y r (Z.of_nat j)))
            (snd (schedule g y r (Z.of_nat j))) g y r.
Proof.
  intros Hg Hy Hr. induction j as [|j IH]; intros Hj.
  - simpl. unfold schedule. split_tests; try lia. reflexivity.
  - rewrite Nat2Z.inj_succ in *. simpl Nat.iter. rewrite IH by lia.
    unfold clock_tick, schedule, ck_duration.
    set (n := Z.of_nat j) in *. clearbody n.
    repeat match goal with
           | |- context [Z.ltb n ?b] => destruct (Z.ltb_spec n b)
           end; simpl; split_tests; simpl; try lia; f_equal; lia.
Qed.

Lemma clock_cycle g y r (j : nat) :
  1 <= g -> 1 <= y -> 1 <= r -> Z.of_nat j = 2 * (g + y + r) ->
  Nat.iter j clock_tick (mkClock 0 0 g y r) = mkClock 0 0 g y r.
Proof.
  intros Hg Hy Hr Hj. destruct j as [|j]; [simpl in Hj; lia|].
  rewrite Nat2Z.inj_succ in Hj. simpl Nat.iter.
  rewrite clock_schedule by lia.
  unfold clock_tick, schedule, ck_duration.
  set (n := Z.of_nat j) in *. clearbody n.
  repeat match goal with
         | |- context [Z.ltb n ?b] => destruct (Z.ltb_spec n b)
         end; simpl; split_tests; simpl; try lia; f_equal; lia.
Qed.

Lemma clock_tick_range k :
  0 <= ck_phase k <= 5 -> 0 <= ck_phase (clock_tick k) <= 5.
Proof.
  intros H. unfold clock_tick. destruct (_ <=? _); simpl; [|exact H].
  pose proof (Z.mod_pos_bound (ck_phase k + 1) 6). lia.
Qed.

Lemma clock_iter_range n k :
  0 <= ck_phase k <= 5 -> 0 <= ck_phase (Nat.iter n clock_tick k) <= 5.
Proof.
  intros H. induction n as [|n IH]; simpl; [exact H|].
  apply clock_tick_range, IH.
Qed.

Lemma clock_tick_step l l' :
  clock_of l' = clock_tick (clock_of l) -> pattern l' = pattern l ->
  phase_step l l'.
Proof.
  unfold clock_of, clock_tick, phase_step, duration_of, ck_duration; simpl.
  intros H Hp.
  destruct (Z.leb_spec
              (if (phase l =? 0) || (phase l =? 3) then green_time l
               else if (phase l =? 1) || (phase l =? 4) then yellow_time l
                    else all_red_time l) (timer l + 1)) as [Hd|Hd];
    injection H as H1 H2 H3 H4 H5; repeat split; auto;
    first [ left; repeat split; auto; lia | right; repeat split; auto; lia ].
Qed.

(** C5. Every call of [update_cycle] moves each light one step of the
    phase machine: the phase stays in 0..5 and either stays put while the
    timer counts up below the active duration, or advances by one modulo 6
    with the timer reset once the incremented timer reaches the duration of
    the active phase (green for phases 0 and 3, yellow for 1 and 4, all-red
    for 2 and 5).  A light that starts a cycle (phase 0, timer 0) follows the
    green/yellow/all-red schedule and is back at phase 0, timer 0 after
    exactly [2 * (green + yellow + all_red)] cycles, and not before. *)
Theorem update_cycle_phase_machine envs c i tl_id l :
  lights c !! i = Some (tl_id, l) ->
  0 <= phase l <= 5 ->
  (forall env, exists l',
      lights (fst (fst (update_cycle env c))) !! i = Some (tl_id, l') /\
      phase_step l l' /\ 0 <= phase l' <= 5) /\
  (exists l', lights (run_cycles envs c) !! i = Some (tl_id, l') /\
              0 <= phase l' <= 5) /\
  (phase l = 0 -> timer l = 0 ->
   1 <= green_time l -> 1 <= yellow_time l -> 1 <= all_red_time l ->
   exists l',
     lights (run_cycles envs c) !! i = Some (tl_id, l') /\
     (Z.of_nat (length envs) < cycle_length l ->
      (phase l', timer l')
      = schedule (green_time l) (yellow_time l) (all_red_time l)
                 (Z.of_nat (length envs))) /\
     (0 < Z.of_nat (length envs) < cycle_length l ->
      ~ (phase l' = 0 /\ timer l' = 0)) /\
     (Z.of_nat (length envs) = cycle_length l ->
      phase l' = 0 /\ timer l' = 0)).
Proof.
  intros Hi Hr. split; [|split].
  - intros env.
    destruct (update_cycle_lookup env c i tl_id l Hi) as (l' & H' & Hc & Hp).
    exists l'. split; [exact H'|]. split; [apply clock_tick_step; assumption|].
    change (phase l') with (ck_phase (clock_of l')). rewrite Hc.
    apply clock_tick_range. exact Hr.
  - destruct (run_cycles_lookup envs c i tl_id l Hi) as (l' & H' & Hc).
    exists l'. split; [exact H'|].
    change (phase l') with (ck_phase (clock_of l')). rewrite Hc.
    apply clock_iter_range. exact Hr.
  - intros Hp Ht Hg Hy Ha.
    destruct (run_cycles_lookup envs c i tl_id l Hi) as (l' & H' & Hc).
    exists l'. split; [exact H'|].
    assert (Hs : clock_of l = mkClock 0 0 (green_time l) (yellow_time l)
                                      (all_red_time l)).
    { unfold clock_of. rewrite Hp, Ht. reflexivity. }
    rewrite Hs in Hc. unfold cycle_length.
    assert (Hsched : Z.of_nat (length envs)
                     < 2 * (green_time l + yellow_time l + all_red_time l) ->
                     (phase l', timer l')
                     = schedule (green_time l) (yellow_time l) (all_red_time l)
                                (Z.of_nat (length envs))).
    { intros Hlt. rewrite clock_schedule in Hc by assumption.
      unfold clock_of in Hc. injection Hc as H0 H1 _ _ _.
      rewrite H0, H1. destruct (schedule _ _ _ _); reflexivity. }
    split; [exact Hsched|]. split.
    + intros [Hpos Hlt] [H0 H1]. specialize (Hsched Hlt).
      rewrite H0, H1 in Hsched. unfold schedule in Hsched.
      revert Hsched. split_tests; intros Hsched; inversion Hsched; lia.
    + intros Heq. rewrite clock_cycle in Hc by assumption.
      unfold clock_of in Hc. injection Hc as H0 H1 _ _ _. split; assumption.
Qed.

(** A street light (25 / 3 / 2) with four signal heads, run for one full
    cycle of 60 controller cycles. *)
Lemma update_cycle_phase_machine_witness :
  exists l',
    lights (run_cycles (replicate 60 (<["tl0"%string := "rrrr"%string]> ∅))
              (mkController [("tl0"%string, new_light 1 (-73.98, 40.75)%Q 0)] 0 ∅))
      !! 0%nat = Some ("tl0"%string, l') /\ phase l' = 0 /\ timer l' = 0.
Proof.
  destruct (update_cycle_phase_machine
              (replicate 60 (<["tl0"%string := "rrrr"%string]> ∅))
              (mkController [("tl0"%string, new_light 1 (-73.98, 40.75)%Q 0)] 0 ∅)
              0 "tl0"%string (new_light 1 (-73.98, 40.75)%Q 0))
    as (_ & _ & H).
  - reflexivity.
  - vm_compute. split; discriminate.
  - destruct H as (l' & H1 & _ & _ & H4).
    + reflexivity.
    + reflexivity.
    + vm_compute. discriminate.
    + vm_compute. discriminate.
    + vm_compute. discriminate.
    + exists l'. split; [exact H1|]. apply H4. reflexivity.
Defined.

Lemma dict_set_fresh {V} (k : string) (v : V) d :
  k ∉ map fst d -> dict_set k v d = d ++ [(k, v)].
Proof.
  induction d as [|[k' v'] d IH]; simpl; intros Hk; [reflexivity|].
  rewrite not_elem_of_cons in Hk. destruct Hk as [Hne Hk].
  destruct (String.eqb_spec k' k) as [->|_]; [contradiction|].
  rewrite IH by assumption. reflexivity.
Qed.






End TrafficFacts.

(** ** Charging coordinator *)

Section EVFacts.
Import EV.

Lemma cv_ext_refl cv : cv_ext cv cv.
Proof. intros sid. left. reflexivity. Qed.

Lemma cv_ext_trans a b c : cv_ext a b -> cv_ext b c -> cv_ext a c.
Proof.
  intros Hab Hbc sid. destruct (Hbc sid) as [H1|[H1 H2]];
    destruct (Hab sid) as [H3|[H3 H4]].
  - left. congruence.
  - right. split; congruence.
  - right. split; congruence.
  - rewrite H4 in H1. discriminate H1.
Qed.

Lemma station_loop_outcome cr v d e sts : forall s s' flag,
  station_loop cr v d e sts s = Some (s', flag) ->
  station_outcome cr v e sts s s' flag.
Proof.
  induction sts as [|st sts IH]; intros s s' flag Hrun; simpl in Hrun.
  - inversion Hrun; subst. left. repeat split. apply cv_ext_refl.
  - assert (Hlift : forall s1, cv_ext (l_cv s) (l_cv s1) ->
               l_ev s1 = l_ev s -> l_sessions s1 = l_sessions s ->
               l_charging_count s1 = l_charging_count s ->
               station_outcome cr v e sts s1 s' flag ->
               station_outcome cr v e (st :: sts) s s' flag).
    { intros s1 Hext He Hs Hc [(H1 & H2 & H3 & H4 & H5)|H].
      - left. repeat split; try congruence. eapply cv_ext_trans; eassumption.
      - destruct H as (st0 & occ & cvm & e' & Hin & Hw & Hsp & Hlen & Hx & Hocc
                       & Hcv & Hev & Hm & Hf & Hcnt & table & Hse).
        right. exists st0, occ, cvm, e'.
        repeat split; try assumption; try congruence.
        + right. exact Hin.
        + eapply cv_ext_trans; eassumption.
        + apply Hm.
        + apply Hm.
        + exists table. rewrite Hse, Hs. reflexivity. }
    destruct (within cr v st) eqn:Hw.
    2:{ apply (Hlift s); auto using cv_ext_refl. }
    set (cv1 := match l_cv s !! id st with
                | Some _ => l_cv s
                | None => <[id st := []]> (l_cv s)
                end) in *.
    assert (Hext : cv_ext (l_cv s) cv1).
    { intros sid. subst cv1. destruct (l_cv s !! id st) eqn:E; [left; reflexivity|].
      destruct (decide (id st = sid)) as [<-|Hne].
      - right. split; [exact E | apply lookup_insert_eq].
      - left. apply lookup_insert_ne. exact Hne. }
    assert (Hocc : cv1 !! id st = Some (default [] (cv1 !! id st))).
    { subst cv1. destruct (l_cv s !! id st) eqn:E.
      - rewrite E. reflexivity.
      - rewrite lookup_insert_eq. reflexivity. }
    destruct (Z.ltb_spec (Z.of_nat (length (default [] (cv1 !! id st))))
                (capacity st)) as [Hlen|Hlen].
    2:{ eapply Hlift; [| | | |apply IH; exact Hrun]; auto. }
    destruct (Qltb (speed v) 2.0) eqn:Hsp.
    2:{ eapply Hlift; [| | | |apply IH; exact Hrun]; auto. }
    unfold meter in Hrun. simpl in Hrun.
    destruct (l_sessions s !! id st) as [table|]; [|discriminate Hrun].
    inversion Hrun; subst s' flag; clear Hrun. right.
    eexists st, _, cv1, _. simpl.
    split; [left|]. split; [exact Hw|]. split; [exact Hsp|].
    split; [exact Hlen|]. split; [exact Hext|]. split; [exact Hocc|].
    split; [reflexivity|]. split; [reflexivity|].
    split; [|split; [|split; [reflexivity|eexists; reflexivity]]].
    + split; destruct (Qle_bool 95 (Qmin 100 (battery e + 0.5))) eqn:E;
        simpl; try reflexivity; rewrite E; reflexivity.
    + destruct (Qle_bool 95 (Qmin 100 (battery e + 0.5))); reflexivity.
Qed.

Lemma station_loop_total cr v d e sts : forall s,
  (forall st, st ∈ sts -> is_Some (l_sessions s !! id st)) ->
  is_Some (station_loop cr v d e sts s).
Proof.
  induction sts as [|st sts IH]; intros s Hreg; simpl; [eauto|].
  assert (Hrest : forall s1, l_sessions s1 = l_sessions s ->
                             is_Some (station_loop cr v d e sts s1)).
  { intros s1 Hs. apply IH. intros st' Hin. rewrite Hs. apply Hreg.
    right. exact Hin. }
  destruct (within cr v st); [|apply Hrest; reflexivity].
  destruct (_ <? capacity st); [|apply Hrest; reflexivity].
  destruct (Qltb (speed v) 2.0); [|apply Hrest; reflexivity].
  unfold meter; simpl. destruct (Hreg st) as [table Ht]; [left|].
  rewrite Ht. eauto.
Qed.

Section WithHash.
Variable hash : string -> Z.
Variables (share bias : Z) (cr : Q) (sts : list Station).

Lemma process_vehicle_outcome v d s s' v' :
  process_vehicle hash share bias cr sts v d s = Some (s', v') ->
  (classify hash share v = false /\ s' = s) \/
  (classify hash share v = true /\
   exists e1 flag,
     battery e1 = battery (start_state d (l_ev s) (vid v)) /\
     charging e1 = charging (start_state d (l_ev s) (vid v)) /\
     station_outcome cr v e1 sts
       (mkLoop (<[vid v := e1]> (l_ev s)) (l_cv s) (l_sessions s)
               (l_total_evs s + 1) (l_charging_count s)) s' flag).
Proof.
  unfold process_vehicle. destruct (classify hash share v); simpl.
  2:{ intros H. inversion H. left. split; reflexivity. }
  intros H. right. split; [reflexivity|].
  match type of H with
  | match station_loop _ _ _ ?e1 _ ?s1 with _ => _ end = _ =>
      destruct (station_loop cr v d e1 sts s1) as [[s2 flag]|] eqn:Hrun;
      [|discriminate H];
      exists e1, flag
  end.
  inversion H; subst s2; clear H.
  split; [|split; [|apply station_loop_outcome in Hrun; exact Hrun]].
  - unfold start_state. destruct (l_ev s !! vid v) as [e|]; simpl;
      repeat match goal with
             | |- context [if ?b then _ else _] => destruct b
             | |- context [match ?o with Some _ => _ | None => _ end] => destruct o
             end; reflexivity.
  - unfold start_state. destruct (l_ev s !! vid v) as [e|]; simpl;
      repeat match goal with
             | |- context [if ?b then _ else _] => destruct b
             | |- context [match ?o with Some _ => _ | None => _ end] => destruct o
             end; reflexivity.
Qed.

Lemma process_vehicle_total v d s :
  (forall st, st ∈ sts -> is_Some (l_sessions s !! id st)) ->
  is_Some (process_vehicle hash share bias cr sts v d s).
Proof.
  intros Hreg. unfold process_vehicle.
  destruct (classify hash share v); simpl; [|eauto].
  match goal with
  | |- is_Some (match station_loop _ _ _ ?e1 _ ?s1 with _ => _ end) =>
      destruct (station_loop_total cr v d e1 sts s1) as [[s2 flag] Hrun];
      [exact Hreg | rewrite Hrun; eauto]
  end.
Qed.

(** Invariants of the vehicle loop. *)
Lemma vehicle_loop_invariant (P : Loop -> Prop) obs :
  (forall v d s s' v', (v, d) ∈ obs -> P s ->
     process_vehicle hash share bias cr sts v d s = Some (s', v') -> P s') ->
  forall s res vs,
    P s -> vehicle_loop hash share bias cr sts obs s = Some (res, vs) -> P res.
Proof.
  induction obs as [|[v d] obs IH]; intros Hstep s res vs HP Hrun;
    simpl in Hrun.
  - inversion Hrun; subst. exact HP.
  - destruct (process_vehicle hash share bias cr sts v d s)
      as [[s1 v1]|] eqn:E1; [|discriminate Hrun].
    destruct (vehicle_loop hash share bias cr sts obs s1)
      as [[s2 vs2]|] eqn:E2; [|discriminate Hrun].
    inversion Hrun; subst. eapply IH; [| |exact E2].
    + intros v0 d0 s0 s0' v0' Hin. apply Hstep. right. exact Hin.
    + eapply Hstep; [left| exact HP | exact E1].
Qed.

Lemma process_vehicle_reg v d s s' v' :
  sessions_registered sts (l_sessions s) ->
  process_vehicle hash share bias cr sts v d s = Some (s', v') ->
  sessions_registered sts (l_sessions s').
Proof.
  intros Hreg Hrun. apply process_vehicle_outcome in Hrun.
  destruct Hrun as [[_ ->]|(_ & e1 & flag & _ & _ & Hout)]; [exact Hreg|].
  destruct Hout as [(_ & Hs & _)|Hm]; simpl in *.
  - intros st Hin. rewrite Hs. apply Hreg, Hin.
  - destruct Hm as (st0 & occ & cvm & e' & _ & _ & _ & _ & _ & _ & _ & _ & _
                    & _ & _ & table & Hs).
    intros st Hin. rewrite Hs.
    destruct (decide (id st0 = id st)) as [->|Hne].
    + rewrite lookup_insert_eq. eauto.
    + rewrite lookup_insert_ne by exact Hne. apply Hreg, Hin.
Qed.

Lemma vehicle_loop_total obs : forall s,
  sessions_registered sts (l_sessions s) ->
  is_Some (vehicle_loop hash share bias cr sts obs s).
Proof.
  induction obs as [|[v d] obs IH]; intros s Hreg; simpl; [eauto|].
  destruct (process_vehicle_total v d s Hreg) as [[s1 v1] E1]. rewrite E1.
  destruct (IH s1) as [[s2 vs] E2].
  - eapply process_vehicle_reg; eassumption.
  - rewrite E2. eauto.
Qed.

Lemma station_by_id st st' :
  NoDup (map id sts) -> st ∈ sts -> st' ∈ sts -> id st = id st' -> st = st'.
Proof.
  clear. induction sts as [|a l IH]; intros Hnd H1 H2 Heq.
  - inversion H1.
  - simpl in Hnd. apply NoDup_cons in Hnd as [Hni Hnd].
    apply elem_of_cons in H1 as [->|H1]; apply elem_of_cons in H2 as [->|H2].
    + reflexivity.
    + exfalso. apply Hni. rewrite Heq. apply list_elem_of_fmap_2. exact H2.
    + exfalso. apply Hni. rewrite <- Heq. apply list_elem_of_fmap_2. exact H1.
    + apply IH; assumption.
Qed.

Lemma cap_inv_ext cv cv' :
  (forall st, st ∈ sts -> 0 <= capacity st) ->
  cap_inv sts cv -> cv_ext cv cv' -> cap_inv sts cv'.
Proof.
  intros Hcap Hinv Hext st occ Hin Hocc.
  destruct (Hext (id st)) as [H|[_ H]]; rewrite H in Hocc.
  - eapply Hinv; eassumption.
  - inversion Hocc; subst. simpl. apply Hcap, Hin.
Qed.

Lemma cap_inv_append cvm st occ k :
  NoDup (map id sts) -> cap_inv sts cvm -> st ∈ sts ->
  Z.of_nat (length occ) < capacity st ->
  cap_inv sts (<[id st := occ ++ [k]]> cvm).
Proof.
  intros Hnd Hinv Hin Hlen st' occ' Hin' Hocc'.
  destruct (decide (id st = id st')) as [Heq|Hne].
  - rewrite <- Heq, lookup_insert_eq in Hocc'. inversion Hocc'; subst.
    rewrite (station_by_id st' st Hnd Hin' Hin (eq_sym Heq)).
    rewrite length_app. simpl. lia.
  - rewrite lookup_insert_ne in Hocc' by exact Hne. eapply Hinv; eassumption.
Qed.

Lemma process_vehicle_cap v d s s' v' :
  NoDup (map id sts) -> (forall st, st ∈ sts -> 0 <= capacity st) ->
  cap_inv sts (l_cv s) ->
  process_vehicle hash share bias cr sts v d s = Some (s', v') ->
  cap_inv sts (l_cv s').
Proof.
  intros Hnd Hcap Hinv Hrun. apply process_vehicle_outcome in Hrun.
  destruct Hrun as [[_ ->]|(_ & e1 & flag & _ & _ & Hout)]; [exact Hinv|].
  destruct Hout as [(_ & _ & Hext & _)|Hm]; simpl in *.
  - eapply cap_inv_ext; eassumption.
  - destruct Hm as (st0 & occ & cvm & e' & Hin & _ & _ & Hlen & Hext & _ & Hcv
                    & _).
    rewrite Hcv. apply cap_inv_append; try assumption.
    eapply cap_inv_ext; eassumption.
Qed.





Lemma slot_ext cv cv' sid j k :
  cv_ext cv cv' -> (slot cv' sid j k <-> slot cv sid j k).
Proof.
  clear. intros Hext. unfold slot. destruct (Hext sid) as [H|[H1 H2]].
  - rewrite H. reflexivity.
  - rewrite H1, H2. split; intros (occ & Ho & Hk).
    + inversion Ho; subst. destruct j; discriminate Hk.
    + discriminate Ho.
Qed.

Lemma slot_append cvm sid0 occ k0 sid j k :
  cvm !! sid0 = Some occ ->
  (slot (<[sid0 := occ ++ [k0]]> cvm) sid j k <->
   slot cvm sid j k \/ (sid = sid0 /\ j = length occ /\ k = k0)).
Proof.
  clear. intros Hocc. unfold slot. destruct (decide (sid0 = sid)) as [->|Hne].
  - rewrite lookup_insert_eq, Hocc. split.
    + intros (o & Ho & Hk). inversion Ho; subst o.
      apply lookup_app_Some in Hk as [Hk|[Hlen Hk]].
      * left. eauto.
      * apply list_lookup_singleton_Some in Hk as [Hj ->].
        right. repeat split. lia.
    + intros [(o & Ho & Hk)|(_ & -> & ->)].
      * inversion Ho; subst o. eexists; split; [reflexivity|].
        apply lookup_app_Some. left. exact Hk.
      * eexists; split; [reflexivity|]. apply lookup_app_Some. right.
        split; [lia|]. rewrite Nat.sub_diag. reflexivity.
  - rewrite lookup_insert_ne by exact Hne. split.
    + intros H. left. exact H.
    + intros [H|(-> & _)]; [exact H | contradiction].
Qed.

Lemma process_vehicle_summary v d s s' v' :
  process_vehicle hash share bias cr sts v d s = Some (s', v') ->
  step_summary (classify hash share v) cr sts v d s s'.
Proof.
  intros Hrun. apply process_vehicle_outcome in Hrun.
  destruct Hrun as [[Hc ->]|(Hc & e1 & flag & Hb & Hch & Hout)];
    rewrite Hc; [left; split; reflexivity|].
  right. split; [reflexivity|].
  destruct Hout as [(He & _ & Hext & _)|Hm]; simpl in *.
  - exists e1. split; [exact He|]. left. split; [exact Hb|]. split; [exact Hch|].
    intros sid j k. apply slot_ext. exact Hext.
  - destruct Hm as (st0 & occ & cvm & e' & Hin & Hw & Hsp & Hlen & Hext & Hocc
                    & Hcv & He & [Hm1 Hm2] & _).
    exists e'. split; [rewrite He; apply insert_insert_eq|]. right.
    split; [split; [rewrite Hm1, Hb; reflexivity | exact Hm2]|].
    exists st0, (length occ). repeat split; try assumption.
    + intros H. rewrite Hcv in H. apply slot_append in H; [|exact Hocc].
      destruct H as [H|H]; [left; apply (slot_ext _ _ _ _ _ Hext); exact H
                           | right; exact H].
    + intros H. rewrite Hcv. apply slot_append; [exact Hocc|].
      destruct H as [H|H]; [left; apply (slot_ext _ _ _ _ _ Hext); exact H
                           | right; exact H].
Qed.

Lemma vehicle_loop_rel obs : forall s res vs,
  NoDup (map (fun o => vid (fst o)) obs) ->
  vehicle_loop hash share bias cr sts obs s = Some (res, vs) ->
  (forall k, (forall v d, (v, d) ∈ obs -> classify hash share v = true ->
                          vid v <> k) ->
             l_ev res !! k = l_ev s !! k) /\
  (forall sid j k, slot (l_cv s) sid j k -> slot (l_cv res) sid j k) /\
  (forall sid j k, slot (l_cv res) sid j k ->
     slot (l_cv s) sid j k \/
     exists v d st, (v, d) ∈ obs /\ classify hash share v = true /\ vid v = k /\
                    st ∈ sts /\ id st = sid /\ within cr v st = true /\
                    Qltb (speed v) 2.0 = true /\ Z.of_nat j < capacity st) /\
  (forall v d, (v, d) ∈ obs -> classify hash share v = true ->
     ~ metered (l_cv s) (vid v) ->
     exists e', l_ev res !! vid v = Some e' /\
       ((metered (l_cv res) (vid v) /\
         metered_state (start_state d (l_ev s) (vid v)) e') \/
        (~ metered (l_cv res) (vid v) /\
         battery e' = battery (start_state d (l_ev s) (vid v)) /\
         charging e' = charging (start_state d (l_ev s) (vid v))))).
Proof.
  induction obs as [|[v0 d0] rest IH]; intros s res vs Hnd Hrun; simpl in Hrun.
  - inversion Hrun; subst. repeat split; auto.
    intros v d Hin. inversion Hin.
  - destruct (process_vehicle hash share bias cr sts v0 d0 s)
      as [[s1 v1]|] eqn:E1; [|discriminate Hrun].
    destruct (vehicle_loop hash share bias cr sts rest s1)
      as [[s2 vs2]|] eqn:E2; [|discriminate Hrun].
    inversion Hrun; subst s2 vs; clear Hrun.
    simpl in Hnd. apply NoDup_cons in Hnd as [Hfresh Hnd].
    destruct (IH s1 res vs2 Hnd E2) as (I1 & I2 & I3 & I4).
    pose proof (process_vehicle_summary v0 d0 s s1 v1 E1) as Hsum.
    assert (Hother : forall v d, (v, d) ∈ rest -> vid v <> vid v0).
    { intros v d Hin Heq. apply Hfresh. rewrite <- Heq.
      apply (list_elem_of_fmap_2 (fun o => vid (fst o)) rest (v, d)). exact Hin. }
    assert (Hev1 : forall k, k <> vid v0 -> l_ev s1 !! k = l_ev s !! k).
    { intros k Hk. destruct Hsum as [[_ ->]|(_ & e' & He & _)]; [reflexivity|].
      rewrite He. apply lookup_insert_ne. congruence. }
    assert (Hs1 : forall sid j k, slot (l_cv s) sid j k -> slot (l_cv s1) sid j k).
    { intros sid j k H.
      destruct Hsum as [[_ ->]|(_ & e' & _ & [(_ & _ & Hsl)|(_ & st & i & _ & _ & _ & _ & Hsl)])];
        [exact H | apply Hsl; exact H | apply Hsl; left; exact H]. }
    assert (Hs2 : forall sid j k, slot (l_cv s1) sid j k ->
              slot (l_cv s) sid j k \/
              (classify hash share v0 = true /\ k = vid v0 /\
               exists st, st ∈ sts /\ id st = sid /\ within cr v0 st = true /\
                          Qltb (speed v0) 2.0 = true /\ Z.of_nat j < capacity st)).
    { intros sid j k H.
      destruct Hsum as [[_ ->]|(Hc & e' & _ & [(_ & _ & Hsl)|(_ & st & i & Hin & Hw & Hsp & Hi & Hsl)])].
      - left. exact H.
      - left. apply Hsl. exact H.
      - apply Hsl in H as [H|(-> & -> & ->)]; [left; exact H|].
        right. split; [exact Hc|]. split; [reflexivity|].
        exists st. repeat split; assumption. }
    split; [|split; [|split]].
    + intros k Hk. rewrite I1 by (intros v d Hin; apply (Hk v d); right; exact Hin).
      destruct Hsum as [[_ ->]|(Hc & e' & He & _)]; [reflexivity|].
      rewrite He. apply lookup_insert_ne. apply (Hk v0 d0); [left | exact Hc].
    + intros sid j k H. apply I2, Hs1, H.
    + intros sid j k H. apply I3 in H as [H|(v & d & st & Hin & Hrest)].
      * apply Hs2 in H as [H|(Hc & -> & st & Hst)]; [left; exact H|].
        right. exists v0, d0, st. split; [left|]. split; [exact Hc|].
        split; [reflexivity|]. exact Hst.
      * right. exists v, d, st. split; [right; exact Hin | exact Hrest].
    + intros v d Hin Hc Hnm. apply elem_of_cons in Hin as [Heq|Hin].
      * inversion Heq; subst v d; clear Heq.
        destruct Hsum as [[Hf _]|(_ & e' & He & Hcase)]; [congruence|].
        exists e'. split.
        { rewrite I1; [rewrite He; apply lookup_insert_eq|].
          intros v d Hin _. eapply Hother; exact Hin. }
        destruct Hcase as [(Hb & Hch & Hsl)|(Hm & st & i & _ & _ & _ & _ & Hsl)].
        -- right. split; [|split; assumption].
           intros (sid & j & H). apply I3 in H as [H|(v & d & st & Hin & _ & Hv & _)].
           ++ apply Hnm. exists sid, j. apply Hsl. exact H.
           ++ eapply Hother; eassumption.
        -- left. split; [|exact Hm].
           exists (id st), i. apply I2, Hsl. right. repeat split.
      * assert (Hne : vid v <> vid v0) by (eapply Hother; exact Hin).
        destruct (I4 v d Hin Hc) as (e' & He' & Hcase).
        { intros (sid & j & H). apply Hs2 in H as [H|(_ & Heq & _)];
            [apply Hnm; exists sid, j; exact H | contradiction]. }
        exists e'. split; [exact He'|].
        unfold start_state in *. rewrite (Hev1 (vid v) Hne) in Hcase.
        exact Hcase.
Qed.

Lemma vehicle_loop_dom obs : forall s res vs,
  vehicle_loop hash share bias cr sts obs s = Some (res, vs) ->
  forall k, is_Some (l_ev res !! k) <->
            is_Some (l_ev s !! k) \/
            exists v d, (v, d) ∈ obs /\ classify hash share v = true /\ vid v = k.
Proof.
  induction obs as [|[v0 d0] rest IH]; intros s res vs Hrun k; simpl in Hrun.
  - inversion Hrun; subst. split; [intros H; left; exact H|].
    intros [H|(v & d & Hin & _)]; [exact H | inversion Hin].
  - destruct (process_vehicle hash share bias cr sts v0 d0 s)
      as [[s1 v1]|] eqn:E1; [|discriminate Hrun].
    destruct (vehicle_loop hash share bias cr sts rest s1)
      as [[s2 vs2]|] eqn:E2; [|discriminate Hrun].
    inversion Hrun; subst s2 vs; clear Hrun.
    rewrite (IH s1 res vs2 E2 k).
    pose proof (process_vehicle_summary v0 d0 s s1 v1 E1) as Hsum.
    assert (H1 : is_Some (l_ev s1 !! k) <->
                 is_Some (l_ev s !! k) \/
                 (classify hash share v0 = true /\ vid v0 = k)).
    { destruct Hsum as [[Hc ->]|(Hc & e' & He & _)].
      - split; [intros H; left; exact H|]. intros [H|[H _]]; [exact H|congruence].
      - rewrite He. destruct (decide (vid v0 = k)) as [->|Hne].
        + rewrite lookup_insert_eq. split; [intros _; right; split; auto|eauto].
        + rewrite lookup_insert_ne by exact Hne.
          split; [intros H; left; exact H|]. intros [H|[_ H]]; [exact H|contradiction]. }
    rewrite H1. split.
    + intros [[H|[Hc Hv]]|(v & d & Hin & Hc & Hv)].
      * left. exact H.
      * right. exists v0, d0. split; [left|split; assumption].
      * right. exists v, d. split; [right; exact Hin|split; assumption].
    + intros [H|(v & d & Hin & Hc & Hv)]; [left; left; exact H|].
      apply elem_of_cons in Hin as [Heq|Hin].
      * inversion Heq; subst. left. right. split; [exact Hc|reflexivity].
      * right. exists v, d. repeat split; assumption.
Qed.

Lemma vehicle_loop_untouched obs : forall s res vs k,
  vehicle_loop hash share bias cr sts obs s = Some (res, vs) ->
  (forall v d, (v, d) ∈ obs -> classify hash share v = true -> vid v <> k) ->
  l_ev res !! k = l_ev s !! k.
Proof.
  induction obs as [|[v0 d0] rest IH]; intros s res vs k Hrun Habs;
    simpl in Hrun.
  - inversion Hrun; subst. reflexivity.
  - destruct (process_vehicle hash share bias cr sts v0 d0 s)
      as [[s1 v1]|] eqn:E1; [|discriminate Hrun].
    destruct (vehicle_loop hash share bias cr sts rest s1)
      as [[s2 vs2]|] eqn:E2; [|discriminate Hrun].
    inversion Hrun; subst s2 vs; clear Hrun.
    rewrite (IH s1 res vs2 k E2)
      by (intros v d Hin; apply (Habs v d); right; exact Hin).
    apply process_vehicle_summary in E1.
    destruct E1 as [[_ ->]|(Hc & e' & He & _)]; [reflexivity|].
    rewrite He. apply lookup_insert_ne.
    apply (Habs v0 d0); [left | exact Hc].
Qed.

End WithHash.


(** C9 (as amended). A record is created the first time an electric vehicle
    is observed, and no record is ever removed: after a tick the tracked ids
    are those tracked before together with the electric vehicles of the
    snapshot, and the record of a tracked vehicle that the snapshot does not
    list as electric is unchanged. *)
Theorem ev_records_never_removed hash n obs :
  sessions_registered (stations n) (charging_sessions n) ->
  exists t,
    process_ev_charging hash n obs = Some t /\
    (forall k, is_Some (ev_vehicles (network t) !! k) <->
               is_Some (ev_vehicles n !! k) \/
               exists v d, (v, d) ∈ obs /\
                 classify hash (clamp_percent (ev_share_percent n)) v = true /\
                 vid v = k) /\
    (forall k e, ev_vehicles n !! k = Some e ->
       (forall v d, (v, d) ∈ obs ->
          classify hash (clamp_percent (ev_share_percent n)) v = true ->
          vid v <> k) ->
       ev_vehicles (network t) !! k = Some e).
Proof.
  intros Hreg. unfold process_ev_charging.
  set (share := clamp_percent (ev_share_percent n)).
  set (bias := clamp_percent (ev_charging_bias_percent n)).
  set (cr := capture_radius_of bias).
  set (s0 := mkLoop (ev_vehicles n) ∅ (charging_sessions n) 0 0).
  destruct (vehicle_loop_total hash share bias cr (stations n) obs s0 Hreg)
    as [[s vs] Hrun].
  rewrite Hrun. eexists; split; [reflexivity|]. cbn [network ev_vehicles].
  split.
  - intros k. exact (vehicle_loop_dom hash share bias cr (stations n) obs s0 s vs Hrun k).
  - intros k e Hk Habs.
    rewrite (vehicle_loop_untouched hash share bias cr (stations n) obs s0 s vs k
               Hrun Habs).
    exact Hk.
Qed.

Lemma demo_registered :
  sessions_registered (stations demo_network) (charging_sessions demo_network).
Proof.
  intros st Hin. apply list_elem_of_singleton in Hin as ->.
  vm_compute. eauto.
Defined.


(** The same tick evaluated: [veh0] takes the only charger and goes from 50
    to 50.5; [veh1] finds the station full and stays at 50. *)
Example demo_tick_values :
  exists t,
    process_ev_charging demo_hash demo_network
      [(demo_va, demo_draws); (demo_vb, demo_draws)] = Some t /\
    charging_vehicles (network t) !! "ev_station_0"%string
    = Some ["veh0"%string] /\
    (exists e, ev_vehicles (network t) !! "veh0"%string = Some e /\
               (battery e == 50.5)%Q /\ charging e = true) /\
    (exists e, ev_vehicles (network t) !! "veh1"%string = Some e /\
               (battery e == 50)%Q /\ charging e = false).
Proof.
  eexists. split; [vm_compute; reflexivity|].
  split; [vm_compute; reflexivity|]. split.
  - eexists. split; [vm_compute; reflexivity|].
    split; [vm_compute; reflexivity | reflexivity].
  - eexists. split; [vm_compute; reflexivity|].
    split; [vm_compute; reflexivity | reflexivity].
Qed.

Lemma ev_records_never_removed_witness :
  exists t,
    process_ev_charging demo_hash demo_network [(demo_va, demo_draws)] = Some t /\
    is_Some (ev_vehicles (network t) !! "veh0"%string).
Proof.
  destruct (ev_records_never_removed demo_hash demo_network
              [(demo_va, demo_draws)] demo_registered) as (t & Ht & Hdom & _).
  exists t. split; [exact Ht|]. apply Hdom. right.
  exists demo_va, demo_draws. split; [left|]. split; reflexivity.
Defined.

(** C9 as stated fails: [veh0] is tracked after the first tick, is absent
    from the second snapshot, and is still tracked after the second tick. *)
Lemma ev_record_outlives_vehicle :
  exists n',
    run_ticks demo_hash demo_network
      [[(demo_va, demo_draws)]; [(demo_vb, demo_draws)]] = Some n' /\
    is_Some (ev_vehicles n' !! "veh0"%string) /\
    ~ (exists o, o ∈ [(demo_vb, demo_draws)] /\ vid (fst o) = "veh0"%string).
Proof.
  eexists. split; [vm_compute; reflexivity|]. split.
  - vm_compute. eauto.
  - intros (o & Hin & Hv). apply list_elem_of_singleton in Hin. subst o.
    discriminate Hv.
Qed.

Lemma process_ev_charging_cap hash n obs :
  stations_ok n ->
  exists t, process_ev_charging hash n obs = Some t /\
            stations_ok (network t) /\ occupancy_ok (network t).
Proof.
  intros (Hnd & Hcap & Hreg). unfold process_ev_charging.
  set (share := clamp_percent (ev_share_percent n)).
  set (bias := clamp_percent (ev_charging_bias_percent n)).
  set (cr := capture_radius_of bias).
  set (s0 := mkLoop (ev_vehicles n) ∅ (charging_sessions n) 0 0).
  destruct (vehicle_loop_total hash share bias cr (stations n) obs s0 Hreg)
    as [[s vs] Hrun].
  rewrite Hrun. eexists; split; [reflexivity|]. simpl.
  assert (Hc : cap_inv (stations n) (l_cv s)).
  { apply (vehicle_loop_invariant hash share bias cr (stations n)
             (fun s => cap_inv (stations n) (l_cv s)) obs) with (s := s0) (vs := vs);
      [| |exact Hrun].
    - intros v d s1 s1' v' _ H1 H2.
      eapply process_vehicle_cap; eassumption.
    - intros st occ _ H. simpl in H. rewrite lookup_empty in H. discriminate H. }
  assert (Hr : sessions_registered (stations n) (l_sessions s)).
  { apply (vehicle_loop_invariant hash share bias cr (stations n)
             (fun s => sessions_registered (stations n) (l_sessions s)) obs)
      with (s := s0) (vs := vs); [| exact Hreg | exact Hrun].
    intros v d s1 s1' v' _ H1 H2. eapply process_vehicle_reg; eassumption. }
  assert (Hids : forall st', st' ∈ map (fun st => mkStation (id st) (lat st) (lon st)
                      (power st) (capacity st) (default [] (l_cv s !! id st)))
                      (stations n) ->
                 exists st, st ∈ stations n /\ id st' = id st /\
                            capacity st' = capacity st /\
                            vehicles_charging st' = default [] (l_cv s !! id st)).
  { intros st' Hin. apply list_elem_of_fmap in Hin as (st & -> & Hin).
    exists st. repeat split; assumption. }
  split; [split; [|split]|split]; cbn [stations network charging_sessions
                                        charging_vehicles].
  - cbn [stations network]. rewrite map_map. exact Hnd.
  - intros st' Hin. destruct (Hids st' Hin) as (st & Hin0 & _ & -> & _).
    apply Hcap, Hin0.
  - intros st' Hin. destruct (Hids st' Hin) as (st & Hin0 & -> & _ & _).
    apply Hr, Hin0.
  - intros st' Hin. destruct (Hids st' Hin) as (st & Hin0 & _ & -> & ->).
    destruct (l_cv s !! id st) as [occ|] eqn:E; simpl.
    + eapply Hc; eassumption.
    + apply Hcap, Hin0.
  - intros st' occ Hin Hocc. destruct (Hids st' Hin) as (st & Hin0 & Hid & -> & _).
    rewrite Hid in Hocc. eapply Hc; eassumption.
Qed.

(** C4. From a station table with distinct ids, non-negative capacities and
    a session table per station, every tick returns, and after any number
    of ticks no station's occupancy list (and no list handed to the load
    aggregation) is longer than the station's capacity. *)
Theorem station_occupancy_capped hash n snapshots :
  stations_ok n -> occupancy_ok n ->
  exists n', run_ticks hash n snapshots = Some n' /\
             map id (stations n') = map id (stations n) /\
             map capacity (stations n') = map capacity (stations n) /\
             (forall st, st ∈ stations n' ->
                Z.of_nat (length (vehicles_charging st)) <= capacity st) /\
             (forall st occ, st ∈ stations n' ->
                charging_vehicles n' !! id st = Some occ ->
                Z.of_nat (length occ) <= capacity st).
Proof.
  revert n. induction snapshots as [|obs rest IH]; intros n Hok Hocc; simpl.
  - exists n. split; [reflexivity|]. split; [reflexivity|].
    split; [reflexivity|]. exact Hocc.
  - destruct (process_ev_charging_cap hash n obs Hok) as (t & Ht & Hok' & Hocc').
    rewrite Ht. destruct (IH (network t) Hok' Hocc') as (n' & Hn' & Hi & Hc & H).
    exists n'. split; [exact Hn'|].
    assert (Hst : stations (network t)
                  = map (fun st => mkStation (id st) (lat st) (lon st) (power st)
                           (capacity st)
                           (default [] (charging_vehicles (network t) !! id st)))
                        (stations n)).
    { unfold process_ev_charging in Ht.
      destruct (vehicle_loop _ _ _ _ _ _ _) as [[s vs]|]; [|discriminate Ht].
      inversion Ht; subst t. reflexivity. }
    split; [|split; [|exact H]].
    + rewrite Hi, Hst, map_map. reflexivity.
    + rewrite Hc, Hst, map_map. reflexivity.
Qed.

Lemma station_occupancy_capped_witness :
  exists n',
    run_ticks demo_hash demo_network
      [[(demo_va, demo_draws); (demo_vb, demo_draws)]] = Some n' /\
    forall st, st ∈ stations n' ->
               Z.of_nat (length (vehicles_charging st)) <= capacity st.
Proof.
  destruct (station_occupancy_capped demo_hash demo_network
              [[(demo_va, demo_draws); (demo_vb, demo_draws)]])
    as (n' & Hn & _ & _ & Hcap & _).
  - split; [|split].
    + apply (bool_decide_unpack _). vm_compute. reflexivity.
    + intros st Hin. apply list_elem_of_singleton in Hin as ->.
      vm_compute. discriminate.
    + exact demo_registered.
  - split.
    + intros st Hin. apply list_elem_of_singleton in Hin as ->.
      vm_compute. discriminate.
    + intros st occ _ H. vm_compute in H. discriminate H.
  - exists n'. split; [exact Hn | exact Hcap].
Defined.

End EVFacts.

(** ** Dispatch and flow engine *)

Section PowerFacts.
Import Power.
Local Open Scope Q_scope.

(** C7. [_calculate_line_flows] keeps every line's name, voltage and
    capacity and sets its flow to [total_load * 0.001 * capacity] times the
    class multiplier, capped at the class fraction of the capacity: 1.5 and
    80% at 138 kV, 1.2 and 70% at 27 kV, 1.0 and 60% at 13.8 kV, 0.8 and 50%
    for every other voltage. *)
Theorem line_flow_estimate n name l :
  (name, l) ∈ lines n ->
  let base_flow := total_load n * 0.001 * line_capacity_mw l in
  let l' := line_flow (total_load n) l in
  (name, l') ∈ lines (_calculate_line_flows n) /\
  map fst (lines (_calculate_line_flows n)) = map fst (lines n) /\
  voltage l' = voltage l /\ line_capacity_mw l' = line_capacity_mw l /\
  (voltage l == 138 ->
   current_flow l' = Qmin (base_flow * 1.5) (line_capacity_mw l * 0.8) /\
   current_flow l' <= line_capacity_mw l * 0.8) /\
  (voltage l == 27 ->
   current_flow l' = Qmin (base_flow * 1.2) (line_capacity_mw l * 0.7) /\
   current_flow l' <= line_capacity_mw l * 0.7) /\
  (voltage l == 13.8 ->
   current_flow l' = Qmin (base_flow * 1.0) (line_capacity_mw l * 0.6) /\
   current_flow l' <= line_capacity_mw l * 0.6) /\
  (~ voltage l == 138 -> ~ voltage l == 27 -> ~ voltage l == 13.8 ->
   current_flow l' = Qmin (base_flow * 0.8) (line_capacity_mw l * 0.5) /\
   current_flow l' <= line_capacity_mw l * 0.5).
Proof.
  intros Hin base_flow l'. split; [|split; [|split; [reflexivity|split; [reflexivity|]]]].
  - unfold _calculate_line_flows; simpl.
    apply (list_elem_of_fmap_2 (fun e => (fst e, line_flow (total_load n) (snd e)))
             (lines n) (name, l)). exact Hin.
  - unfold _calculate_line_flows; simpl. rewrite map_map. reflexivity.
  - assert (Hne : forall a b : Q, ~ a == b -> Qeq_bool a b = false).
    { intros a b H. destruct (Qeq_bool a b) eqn:E; [|reflexivity].
      apply Qeq_bool_iff in E. contradiction. }
    subst l'. unfold line_flow; simpl. fold base_flow.
    repeat split.
    + rewrite (proj2 (Qeq_bool_iff _ _) H). reflexivity.
    + rewrite (proj2 (Qeq_bool_iff _ _) H). apply Q.le_min_r.
    + rewrite (Hne (voltage l) 138) by (rewrite H; discriminate).
      rewrite (proj2 (Qeq_bool_iff _ _) H). reflexivity.
    + rewrite (Hne (voltage l) 138) by (rewrite H; discriminate).
      rewrite (proj2 (Qeq_bool_iff _ _) H). apply Q.le_min_r.
    + rewrite (Hne (voltage l) 138) by (rewrite H; discriminate).
      rewrite (Hne (voltage l) 27) by (rewrite H; discriminate).
      rewrite (proj2 (Qeq_bool_iff _ _) H). reflexivity.
    + rewrite (Hne (voltage l) 138) by (rewrite H; discriminate).
      rewrite (Hne (voltage l) 27) by (rewrite H; discriminate).
      rewrite (proj2 (Qeq_bool_iff _ _) H). apply Q.le_min_r.
    + rewrite !Hne by assumption. reflexivity.
    + rewrite !Hne by assumption. apply Q.le_min_r.
Qed.

Lemma line_flow_estimate_witness :
  ("FDR_13_8_001"%string, line_flow 300 (mkLine 13.8 40 0))
    ∈ lines (_calculate_line_flows (sample_network 300)) /\
  current_flow (line_flow 300 (mkLine 13.8 40 0)) == 12.
Proof.
  destruct (line_flow_estimate (sample_network 300) "FDR_13_8_001"%string
              (mkLine 13.8 40 0)) as (H1 & _ & _ & _ & _ & _ & H13 & _).
  - vm_compute. do 2 right. left.
  - split; [exact H1|]. destruct H13 as [_ H]; [reflexivity|].
    vm_compute. reflexivity.
Defined.

Lemma utilization_capped total l :
  utilization (line_flow total l) <= 80.
Proof.
  unfold utilization, line_flow; simpl.
  destruct (Qltb 0 (line_capacity_mw l)) eqn:Hc; [|lra].
  apply Qltb_lt in Hc.
  set (c := line_capacity_mw l) in *.
  assert (Hdiv : forall f, f <= c * 0.8 -> f / c * 100 <= 80).
  { intros f Hf. assert (f / c <= 0.8)
      by (apply Qle_shift_div_r; [exact Hc | lra]).
    lra. }
  apply Hdiv.
  repeat match goal with
         | |- context [if ?b then _ else _] => destruct b
         end;
    match goal with
    | |- Qmin ?a ?b <= _ => pose proof (Q.le_min_r a b); lra
    end.
Qed.

Lemma flow_capped total l :
  0 <= line_capacity_mw l ->
  current_flow (line_flow total l) <= line_capacity_mw l * 0.8.
Proof.
  intros Hc. unfold line_flow; simpl.
  repeat match goal with
         | |- context [if ?b then _ else _] => destruct b
         end;
    match goal with
    | |- Qmin ?a ?b <= _ => pose proof (Q.le_min_r a b); lra
    end.
Qed.

Lemma line_violation_none l name :
  utilization l <= 90 -> line_violation name l = [].
Proof.
  intros Hu. unfold line_violation.
  destruct (Qltb 100 (utilization l)) eqn:E1; [apply Qltb_lt in E1; lra|].
  destruct (Qltb 90 (utilization l)) eqn:E2; [apply Qltb_lt in E2; lra|].
  reflexivity.
Qed.

Lemma flat_map_nil {A B} (f : A -> list B) l :
  (forall x, x ∈ l -> f x = []) -> flat_map f l = [].
Proof.
  induction l as [|a l IH]; intros H; simpl; [reflexivity|].
  rewrite (H a) by left. apply IH. intros x Hx. apply H. right. exact Hx.
Qed.

Lemma check_after_flows_empty draws n :
  (forall x, 60 <= draws x <= 95) ->
  thermal_violations (_check_violations draws (_calculate_line_flows n)) = [].
Proof.
  intros Hd. unfold _check_violations, _calculate_line_flows; simpl.
  rewrite !flat_map_nil; [reflexivity| |].
  - intros x _. unfold transformer_violation.
    destruct (Qltb 100 (draws x)) eqn:E; [|reflexivity].
    apply Qltb_lt in E. specialize (Hd x). lra.
  - intros [name l'] Hin.
    apply (list_elem_of_fmap_1 (fun e => (fst e, line_flow (total_load n) (snd e))))
      in Hin as ([name0 l0] & Heq & _).
    inversion Heq; subst. simpl. apply line_violation_none.
    pose proof (utilization_capped (total_load n) l0). lra.
Qed.

(** C2 (as amended). For a line passed to [_check_violations], with
    utilization [flow / capacity * 100] (0 when the capacity is not
    positive): above 120 it is recorded as a critical [line_overload]; above
    100 and up to 120 as a [line_overload] of severity warning; above 90 and
    up to 100 as a [high_loading] warning.  Every recorded line entry has
    utilization above 90, is a [line_overload] exactly when above 100 and
    critical exactly when above 120; and the utilization is not negative
    when the flow is not. *)
Theorem check_violations_thresholds draws n name l :
  (name, l) ∈ lines n ->
  let u := utilization l in
  let vs := thermal_violations (_check_violations draws n) in
  (120 < u -> mkViolation name line_overload u critical ∈ vs) /\
  (100 < u -> u <= 120 -> mkViolation name line_overload u warning ∈ vs) /\
  (90 < u -> u <= 100 -> mkViolation name high_loading u warning ∈ vs) /\
  (0 <= current_flow l -> 0 <= u) /\
  (forall v, v ∈ vs -> v_type v <> transformer_overload ->
     exists name0 l0,
       (name0, l0) ∈ lines n /\ element v = name0 /\
       v_value v = utilization l0 /\ 90 < v_value v /\
       (v_type v = line_overload <-> 100 < v_value v) /\
       (severity v = critical <-> 120 < v_value v)).
Proof.
  intros Hin u vs.
  assert (Hline : forall v, v ∈ line_violation name l -> v ∈ vs).
  { intros v Hv. subst vs. unfold _check_violations; simpl.
    apply elem_of_app. left. apply list_elem_of_In, in_flat_map.
    exists (name, l). split; apply list_elem_of_In; assumption. }
  split; [|split; [|split; [|split]]].
  - intros H. apply Hline. unfold line_violation. fold u.
    rewrite (proj2 (Qltb_lt 100 u)) by lra.
    rewrite (proj2 (Qltb_lt 120 u)) by lra. left.
  - intros H1 H2. apply Hline. unfold line_violation. fold u.
    rewrite (proj2 (Qltb_lt 100 u)) by lra.
    rewrite (proj2 (Qltb_ge 120 u)) by lra. left.
  - intros H1 H2. apply Hline. unfold line_violation. fold u.
    rewrite (proj2 (Qltb_ge 100 u)) by lra.
    rewrite (proj2 (Qltb_lt 90 u)) by lra. left.
  - intros Hf. subst u. unfold utilization.
    destruct (Qltb 0 (line_capacity_mw l)) eqn:Hc; [|lra].
    apply Qltb_lt in Hc.
    assert (0 <= current_flow l / line_capacity_mw l).
    { apply Qle_shift_div_l; [exact Hc | lra]. }
    lra.
  - intros v Hv Hty. subst vs. unfold _check_violations in Hv; simpl in Hv.
    apply elem_of_app in Hv as [Hv|Hv].
    + apply list_elem_of_In, in_flat_map in Hv as ([name0 l0] & Hin0 & Hv).
      apply list_elem_of_In in Hin0. exists name0, l0. split; [exact Hin0|].
      simpl in Hv. unfold line_violation in Hv.
      destruct (Qltb 100 (utilization l0)) eqn:E1.
      * apply Qltb_lt in E1. destruct Hv as [<-|[]]; simpl.
        destruct (Qltb 120 (utilization l0)) eqn:E2;
          [apply Qltb_lt in E2 | apply Qltb_ge in E2];
          repeat split; try reflexivity; try lra; try discriminate; auto;
          intros H; lra.
      * apply Qltb_ge in E1. destruct (Qltb 90 (utilization l0)) eqn:E2;
          [|destruct Hv].
        apply Qltb_lt in E2. destruct Hv as [<-|[]]; simpl.
        repeat split; try reflexivity; try lra; try discriminate;
          intros H; lra.
    + apply list_elem_of_In, in_flat_map in Hv as (x & _ & Hv).
      unfold transformer_violation in Hv.
      destruct (Qltb 100 (draws x)); [|destruct Hv].
      destruct Hv as [<-|[]]. simpl in Hty. contradiction.
Qed.

Lemma check_violations_thresholds_witness :
  mkViolation "L" line_overload (utilization (mkLine 138 100 130)) critical
    ∈ thermal_violations
        (_check_violations (fun _ => 60)
           (mkNetwork [] [] [("L"%string, mkLine 138 100 130)] [] [] [] [] 0 0 [] [])).
Proof.
  destruct (check_violations_thresholds (fun _ => 60)
              (mkNetwork [] [] [("L"%string, mkLine 138 100 130)] [] [] [] [] 0 0 [] [])
              "L"%string (mkLine 138 100 130)) as (H & _).
  - left.
  - apply H. vm_compute. reflexivity.
Defined.

(** C2 as stated fails: a line at 110% is recorded as a [line_overload] of
    severity warning, and nothing critical is recorded. *)
Lemma overload_at_110_is_warning :
  100 < utilization (mkLine 138 100 110) /\
  thermal_violations
    (_check_violations (fun _ => 60)
       (mkNetwork [] [] [("L"%string, mkLine 138 100 110)] [] [] [] [] 0 0 [] []))
  = [mkViolation "L" line_overload (utilization (mkLine 138 100 110)) warning].
Proof.
  split; vm_compute; reflexivity.
Qed.

Lemma dict_get_Some_elem {V} (k : string) (v : V) d :
  dict_get k d = Some v -> (k, v) ∈ d.
Proof.
  induction d as [|[k' v'] d IH]; simpl; intros H; [discriminate H|].
  destruct (String.eqb_spec k' k) as [->|_].
  - inversion H; subst. left.
  - right. apply IH, H.
Qed.

Lemma dict_get_None {V} (k : string) (d : list (string * V)) :
  dict_get k d = None -> k ∉ map fst d.
Proof.
  induction d as [|[k' v'] d IH]; simpl; intros H Hin; [inversion Hin|].
  destruct (String.eqb_spec k' k) as [->|Hne]; [discriminate H|].
  apply elem_of_cons in Hin as [Heq|Hin]; [congruence|].
  exact (IH H Hin).
Qed.

Lemma insert_by_cost_elem x y l :
  y ∈ insert_by_cost x l <-> y = x \/ y ∈ l.
Proof.
  induction l as [|z l IH]; simpl.
  - rewrite list_elem_of_singleton. split; [intros H; left; exact H|].
    intros [H|H]; [exact H | inversion H].
  - destruct (Qle_bool _ _).
    + rewrite elem_of_cons. reflexivity.
    + rewrite !elem_of_cons, IH. tauto.
Qed.

Lemma sorted_gens_elem y l : y ∈ sorted_gens l <-> y ∈ l.
Proof.
  induction l as [|x l IH]; simpl; [reflexivity|].
  rewrite insert_by_cost_elem, IH, elem_of_cons. reflexivity.
Qed.

Lemma gen_loop_elem body l : forall a name g',
  (name, g') ∈ fst (gen_loop body l a) ->
  exists g a0, (name, g) ∈ l /\ g' = fst (body g a0).
Proof.
  induction l as [|[k g0] l IH]; intros a name g' Hin; simpl in Hin;
    [inversion Hin|].
  destruct (body g0 a) as [g1 a1] eqn:E.
  destruct (gen_loop body l a1) as [rest a2] eqn:E2.
  simpl in Hin. apply elem_of_cons in Hin as [Heq|Hin].
  - inversion Heq; subst. exists g0, a. split; [left|]. rewrite E. reflexivity.
  - destruct (IH a1 name g') as (g & a0 & H1 & H2); [rewrite E2; exact Hin|].
    exists g, a0. split; [right; exact H1 | exact H2].
Qed.

Lemma gen_loop_names body l : forall a,
  map fst (fst (gen_loop body l a)) = map fst l.
Proof.
  induction l as [|[k g0] l IH]; intros a; simpl; [reflexivity|].
  destruct (body g0 a) as [g1 a1]. specialize (IH a1).
  destruct (gen_loop body l a1) as [rest a2]. simpl in *. rewrite IH.
  reflexivity.
Qed.

Lemma write_back_elem gens upd name g' :
  (forall e, e ∈ gens -> fst e ∈ map fst upd) ->
  (name, g') ∈ write_back gens upd -> (name, g') ∈ upd.
Proof.
  intros Hkeys Hin. unfold write_back in Hin.
  apply (list_elem_of_fmap_1 _ gens) in Hin as (e & Heq & He).
  inversion Heq; subst; clear Heq.
  destruct (dict_get (fst e) upd) as [g|] eqn:E; simpl.
  - apply dict_get_Some_elem. exact E.
  - exfalso. exact (dict_get_None _ _ E (Hkeys e He)).
Qed.

Lemma dispatch_entry hour sc n name g' :
  (name, g') ∈ generators (_economic_dispatch hour sc n) ->
  exists g0 a1 a2 a3,
    (name, g0) ∈ generators n /\
    g' = fst (battery_body
                (fst (thermal_body (fst (renewable_body hour sc g0 a1)) a2)) a3).
Proof.
  unfold _economic_dispatch.
  destruct (gen_loop (renewable_body hour sc) (sorted_gens (generators n))
              (mkAcc (total_load n) 0)) as [s1 a1] eqn:E1.
  destruct (gen_loop thermal_body s1 a1) as [s2 a2] eqn:E2.
  destruct (gen_loop battery_body (write_back (generators n) s2) a2)
    as [g3 a3] eqn:E3.
  simpl. intros Hin.
  destruct (gen_loop_elem battery_body (write_back (generators n) s2) a2 name g')
    as (gb & ab & Hb & ->); [rewrite E3; exact Hin|].
  apply write_back_elem in Hb.
  2:{ intros e He.
      pose proof (gen_loop_names (renewable_body hour sc)
                    (sorted_gens (generators n)) (mkAcc (total_load n) 0)) as N1.
      pose proof (gen_loop_names thermal_body s1 a1) as N2.
      rewrite E1 in N1. rewrite E2 in N2. simpl in N1, N2.
      rewrite N2, N1.
      apply (list_elem_of_fmap_2 fst). apply sorted_gens_elem. exact He. }
  destruct (gen_loop_elem thermal_body s1 a1 name gb)
    as (gt & at' & Ht & ->); [rewrite E2; exact Hb|].
  destruct (gen_loop_elem (renewable_body hour sc) (sorted_gens (generators n))
              (mkAcc (total_load n) 0) name gt)
    as (g0 & ar & Hr & ->); [rewrite E1; exact Ht|].
  exists g0, ar, at', ab. split; [apply sorted_gens_elem; exact Hr | reflexivity].
Qed.

Lemma renewable_static hour sc g a :
  fst (renewable_body hour sc g a)
  = set_output g (current_output (fst (renewable_body hour sc g a))).
Proof.
  unfold renewable_body. destruct g as [c m t k r o s e f].
  destruct t; simpl; try reflexivity.
  destruct (_ && _)%bool; reflexivity.
Qed.

Lemma thermal_static g a :
  fst (thermal_body g a) = set_output g (current_output (fst (thermal_body g a))).
Proof.
  unfold thermal_body. destruct g as [c m t k r o s e f].
  destruct t; simpl; try reflexivity; destruct (Qltb 0 _); reflexivity.
Qed.

Lemma battery_static g a :
  fst (battery_body g a) = set_output g (current_output (fst (battery_body g a))).
Proof.
  unfold battery_body. destruct g as [c m t k r o s e f].
  destruct t; simpl; try reflexivity.
  destruct (_ && _)%bool; [reflexivity|].
  destruct (_ && _)%bool; reflexivity.
Qed.

Lemma dispatch_static hour sc n name g' :
  (name, g') ∈ generators (_economic_dispatch hour sc n) ->
  exists g0, (name, g0) ∈ generators n /\
             g' = set_output g0 (current_output g').
Proof.
  intros Hin. apply dispatch_entry in Hin as (g0 & a1 & a2 & a3 & Hin & ->).
  exists g0. split; [exact Hin|].
  rewrite battery_static at 1. rewrite thermal_static at 1.
  rewrite renewable_static at 1. reflexivity.
Qed.

Lemma update_soc_total g :
  (is_battery g = true ->
   ~ efficiency g == 0 /\ ~ energy_capacity_mwh g == 0) ->
  exists g', update_soc g = Some g' /\
             (is_battery g = true ->
              current_soc g' = Qmax 0.0 (Qmin 1.0
                (if Qltb 0 (current_output g)
                 then current_soc g
                      - current_output g * time_step_hours / efficiency g
                        / energy_capacity_mwh g
                 else if Qltb (current_output g) 0
                 then current_soc g
                      + - current_output g * time_step_hours * efficiency g
                        / energy_capacity_mwh g
                 else current_soc g))) /\
             (is_battery g = false -> g' = g) /\
             g' = set_soc g (current_soc g').
Proof.
  intros Hok. unfold update_soc. destruct (is_battery g) eqn:Hb.
  2:{ exists g. repeat split; try discriminate; destruct g; reflexivity. }
  destruct (Hok eq_refl) as [He HE].
  assert (Hdiv : forall a b, ~ b == 0 -> py_div a b = Some (a / b)).
  { intros a b H. unfold py_div. destruct (Qeq_bool b 0) eqn:E; [|reflexivity].
    apply Qeq_bool_iff in E. contradiction. }
  destruct (Qltb 0 (current_output g)).
  - rewrite (Hdiv _ _ He), (Hdiv _ _ HE). eexists. split; [reflexivity|].
    repeat split; try discriminate; reflexivity.
  - destruct (Qltb (current_output g) 0).
    + rewrite (Hdiv _ _ HE). eexists. split; [reflexivity|].
      repeat split; try discriminate; reflexivity.
    + eexists. split; [reflexivity|].
      repeat split; try discriminate; reflexivity.
Qed.

Lemma update_soc_all_total l :
  (forall name g, (name, g) ∈ l -> is_battery g = true ->
     ~ efficiency g == 0 /\ ~ energy_capacity_mwh g == 0) ->
  exists l', update_soc_all l = Some l' /\
             Forall2 (fun e e' => fst e' = fst e /\
                                  update_soc (snd e) = Some (snd e')) l l'.
Proof.
  induction l as [|[name g] l IH]; intros Hok; simpl.
  - exists []. split; [reflexivity | constructor].
  - destruct (update_soc_total g) as (g' & Hg & _); [apply (Hok name); left|].
    rewrite Hg. destruct IH as (l' & Hl & HF).
    { intros k g0 Hin. apply (Hok k). right. exact Hin. }
    rewrite Hl. eexists. split; [reflexivity|].
    constructor; [split; [reflexivity | exact Hg] | exact HF].
Qed.

(** C10. A simulation pass records no thermal violation: the flow estimate
    leaves every line at no more than 80% utilization (and no more than 80%
    of a non-negative capacity), which is below both thresholds, and a
    transformer loading drawn from [60, 95] never exceeds 100.  The pass
    returns when no battery has a zero efficiency or energy capacity. *)
Theorem no_thermal_violations hour minute day_of_week sc draws n :
  (forall x, 60 <= draws x <= 95) ->
  (forall name g, (name, g) ∈ generators n -> is_battery g = true ->
     ~ efficiency g == 0 /\ ~ energy_capacity_mwh g == 0) ->
  exists n',
    simulate_power_flow hour minute day_of_week sc draws n = Some n' /\
    thermal_violations n' = [] /\
    thermal_violation_count n' = 0%nat /\
    (forall name l, (name, l) ∈ lines n' ->
       utilization l <= 80 /\
       (0 <= line_capacity_mw l ->
        current_flow l <= line_capacity_mw l * 0.8)).
Proof.
  intros Hd Hok. unfold simulate_power_flow.
  match goal with
  | |- context [_economic_dispatch hour sc ?m] => set (n1 := m)
  end.
  set (n2 := _economic_dispatch hour sc n1).
  unfold _update_battery_soc.
  destruct (update_soc_all_total
              (generators (_check_violations draws (_calculate_line_flows n2))))
    as (gens & Hg & _).
  { intros name g Hin Hb. simpl in Hin.
    apply dispatch_static in Hin as (g0 & Hin0 & Hg0). simpl in Hin0.
    specialize (Hok name g0 Hin0).
    rewrite Hg0 in Hb |- *. unfold is_battery in *. simpl in *.
    exact (Hok Hb). }
  rewrite Hg. eexists. split; [reflexivity|].
  cbn [thermal_violations lines].
  pose proof (check_after_flows_empty draws n2 Hd) as Hempty.
  split; [exact Hempty|].
  split; [exact (f_equal (@length Violation) Hempty)|].
  intros name l Hin. simpl in Hin.
  apply (list_elem_of_fmap_1 (fun e => (fst e, line_flow (total_load n2) (snd e))))
    in Hin as ([name0 l0] & Heq & _).
  inversion Heq; subst. simpl. split.
  - apply utilization_capped.
  - intros Hc. apply flow_capped. exact Hc.
Qed.

Lemma no_thermal_violations_witness :
  exists n',
    simulate_power_flow 12 0 2 1 (fun _ => 77.5) (sample_network 0) = Some n' /\
    thermal_violations n' = [].
Proof.
  destruct (no_thermal_violations 12 0 2 1 (fun _ => 77.5) (sample_network 0))
    as (n' & Hn & He & _).
  - intros x. lra.
  - intros name g Hin Hb.
    unfold sample_network, manhattan_generators in Hin; simpl in Hin.
    repeat (apply elem_of_cons in Hin as [Hin|Hin];
            [inversion Hin; subst; try discriminate Hb;
             simpl; split; intros H; discriminate H|]).
    inversion Hin.
  - exists n'. split; assumption.
Defined.

Lemma clamp_range x : 0 <= Qmax 0.0 (Qmin 1.0 x) <= 1.
Proof.
  destruct (Q.max_spec 0.0 (Qmin 1.0 x)) as [[H1 H2]|[H1 H2]];
    destruct (Q.min_spec 1.0 x) as [[H3 H4]|[H3 H4]];
    rewrite H2; try rewrite H4 in *; lra.
Qed.

(** C6. [_update_battery_soc] returns when no battery has a zero efficiency
    or energy capacity, and then every battery's new state of charge is the
    old one, lowered by [output * 0.25 / efficiency / energy_capacity] when
    the output is positive, raised by
    [|output| * 0.25 * efficiency / energy_capacity] when it is negative,
    and clamped to [0, 1]. *)
Theorem battery_soc_update n i name g :
  generators n !! i = Some (name, g) ->
  is_battery g = true ->
  (forall name0 g0, (name0, g0) ∈ generators n -> is_battery g0 = true ->
     ~ efficiency g0 == 0 /\ ~ energy_capacity_mwh g0 == 0) ->
  exists n' g',
    _update_battery_soc n = Some n' /\
    generators n' !! i = Some (name, g') /\
    g' = set_soc g (current_soc g') /\
    0 <= current_soc g' <= 1 /\
    (0 < current_output g ->
     current_soc g'
     = Qmax 0.0 (Qmin 1.0 (current_soc g
                           - current_output g * time_step_hours / efficiency g
                             / energy_capacity_mwh g))) /\
    (current_output g < 0 ->
     current_soc g'
     = Qmax 0.0 (Qmin 1.0 (current_soc g
                           + - current_output g * time_step_hours * efficiency g
                             / energy_capacity_mwh g)) /\
     - current_output g == Qabs (current_output g)) /\
    (current_output g == 0 ->
     current_soc g' = Qmax 0.0 (Qmin 1.0 (current_soc g))).
Proof.
  intros Hi Hb Hok. unfold _update_battery_soc.
  destruct (update_soc_all_total (generators n) Hok) as (l' & Hl & HF).
  rewrite Hl.
  destruct (Forall2_lookup_l _ _ _ i (name, g) HF Hi) as ([name' g'] & Hi' & Hn & Hg).
  simpl in Hn, Hg. subst name'.
  destruct (update_soc_total g) as (g2 & Hg2 & Hsoc & _ & Hset).
  { intros _. apply (Hok name g); [|exact Hb].
    apply list_elem_of_lookup. exists i. exact Hi. }
  rewrite Hg in Hg2. inversion Hg2; subst g2; clear Hg2.
  specialize (Hsoc Hb).
  eexists _, g'. split; [reflexivity|]. split; [exact Hi'|].
  split; [exact Hset|]. split; [rewrite Hsoc; apply clamp_range|].
  split; [|split].
  - intros Ho. rewrite Hsoc, (proj2 (Qltb_lt _ _) Ho). reflexivity.
  - intros Ho. split.
    + rewrite Hsoc, (proj2 (Qltb_ge 0 (current_output g))) by lra.
      rewrite (proj2 (Qltb_lt _ _) Ho). reflexivity.
    + symmetry. apply Qabs_neg. lra.
  - intros Ho. rewrite Hsoc.
    rewrite (proj2 (Qltb_ge 0 (current_output g))) by lra.
    rewrite (proj2 (Qltb_ge (current_output g) 0)) by lra. reflexivity.
Qed.

(** The scenario of the specification: SOC 0.5, 200 MWh, discharging 50 MW
    for a quarter of an hour at efficiency 0.9. *)
Lemma battery_soc_update_witness :
  exists n' g',
    _update_battery_soc
      (mkNetwork [("GEN_BESS_Times_Square"%string,
                   mkGenerator 50 (-50) battery 15 false 50 0.5 200 0.9)]
                 [] [] [] [] [] [] 0 0 [] []) = Some n' /\
    generators n' !! 0%nat = Some ("GEN_BESS_Times_Square"%string, g') /\
    current_soc g' == 0.5 - (50 * 0.25 / 0.9) / 200 /\
    0.4305 < current_soc g' < 0.4307.
Proof.
  destruct (battery_soc_update
              (mkNetwork [("GEN_BESS_Times_Square"%string,
                           mkGenerator 50 (-50) battery 15 false 50 0.5 200 0.9)]
                         [] [] [] [] [] [] 0 0 [] [])
              0 "GEN_BESS_Times_Square"%string
              (mkGenerator 50 (-50) battery 15 false 50 0.5 200 0.9))
    as (n' & g' & Hn & Hi & _ & _ & Hdis & _).
  - reflexivity.
  - reflexivity.
  - intros name0 g0 Hin _. apply list_elem_of_singleton in Hin.
    inversion Hin; subst. simpl. split; intros H; discriminate H.
  - exists n', g'. split; [exact Hn|]. split; [exact Hi|].
    rewrite Hdis by (simpl; lra). vm_compute. repeat split; reflexivity.
Defined.



Lemma thermal_body_other g a :
  is_thermal g = false -> thermal_body g a = (g, a).
Proof. intros H. unfold thermal_body. rewrite H. reflexivity. Qed.

Lemma renewable_body_other hour sc g a :
  is_renewable g = false -> renewable_body hour sc g a = (g, a).
Proof. intros H. unfold renewable_body. rewrite H. reflexivity. Qed.



Lemma static_fields g g' o :
  g' = set_output g o ->
  capacity_mw g' = capacity_mw g /\ min_mw g' = min_mw g /\
  gen_type g' = gen_type g /\ must_run g' = must_run g /\
  current_soc g' = current_soc g /\
  energy_capacity_mwh g' = energy_capacity_mwh g /\
  efficiency g' = efficiency g /\ cost_per_mwh g' = cost_per_mwh g.
Proof. intros ->. repeat split. Qed.


Lemma battery_not_other g :
  is_battery g = true -> is_renewable g = false /\ is_thermal g = false.
Proof.
  unfold is_thermal, is_renewable, is_battery.
  destruct (gen_type g); intros H; try discriminate H; split; reflexivity.
Qed.



Lemma insert_by_cost_perm x l : insert_by_cost x l ≡ₚ x :: l.
Proof.
  induction l as [|y l IH]; simpl; [reflexivity|].
  destruct (Qle_bool _ _); [reflexivity|].
  rewrite IH. apply perm_swap.
Qed.

Lemma sorted_gens_perm l : sorted_gens l ≡ₚ l.
Proof.
  induction l as [|x l IH]; simpl; [reflexivity|].
  rewrite insert_by_cost_perm, IH. reflexivity.
Qed.










Lemma renewable_loop_residual hour sc l : forall a,
  remaining_load (snd (gen_loop (renewable_body hour sc) l a))
  = residual_demand hour sc l (remaining_load a).
Proof.
  unfold residual_demand.
  induction l as [|[k g0] l IH]; intros a; simpl; [reflexivity|].
  destruct (renewable_body hour sc g0 a) as [g1 a1] eqn:E.
  specialize (IH a1). destruct (gen_loop (renewable_body hour sc) l a1)
    as [rest a2]. simpl in *. rewrite IH. f_equal.
  unfold renewable_output, renewable_body in *.
  destruct (is_renewable g0); inversion E; reflexivity.
Qed.



Lemma renewable_type hour sc g a :
  gen_type (fst (renewable_body hour sc g a)) = gen_type g.
Proof.
  destruct (static_fields _ _ _ (renewable_static hour sc g a))
    as (_ & _ & H & _). exact H.
Qed.

Lemma thermal_type g a : gen_type (fst (thermal_body g a)) = gen_type g.
Proof.
  destruct (static_fields _ _ _ (thermal_static g a)) as (_ & _ & H & _).
  exact H.
Qed.






End PowerFacts.

(** ** Signal phase controller: state strings, tallies and failures *)

Section TrafficStateFacts.
Import Traffic.

Lemma length_str_rep1 c n :
  String.length (str_rep (String c EmptyString) n) = n.
Proof. induction n as [|n IH]; simpl; [reflexivity | f_equal; exact IH]. Qed.

Lemma length_append a b :
  String.length (String.append a b) = (String.length a + String.length b)%nat.
Proof. induction a as [|c a IH]; simpl; [reflexivity | f_equal; exact IH]. Qed.

Lemma length_substring_prefix n : forall s,
  (n <= String.length s)%nat -> String.length (String.substring 0 n s) = n.
Proof.
  induction n as [|n IH]; intros s Hn.
  - destruct s; reflexivity.
  - destruct s as [|c s]; simpl in *; [lia|]. f_equal. apply IH. lia.
Qed.

(** The length repair at the end of [_generate_manhattan_state]. *)
Lemma repair_length state n :
  String.length
    (if (String.length state =? n)%nat then state
     else if (n <? String.length state)%nat
          then String.substring 0 n state
          else String.append state (str_rep "r" (n - String.length state)))
  = n.
Proof.
  destruct (Nat.eqb_spec (String.length state) n) as [H|H]; [exact H|].
  destruct (Nat.ltb_spec n (String.length state)) as [H1|H1].
  - apply length_substring_prefix. lia.
  - rewrite length_append, length_str_rep1. lia.
Qed.

(** X1. The state string generated for a signal the simulator knows has
    exactly as many heads as the signal's current state, whatever the
    pattern and the phase (also a phase outside 0..5); for a signal the
    simulator does not know it is ['rrrr']. *)
Theorem generated_state_length env light_info tl_id ph :
  match env !! tl_id with
  | Some current_state =>
      String.length (_generate_manhattan_state env light_info tl_id ph)
      = String.length current_state
  | None => _generate_manhattan_state env light_info tl_id ph = "rrrr"%string
  end.
Proof.
  unfold _generate_manhattan_state, traci_get.
  destruct (env !! tl_id) as [cur|]; [|reflexivity].
  cbv zeta. apply repair_length.
Qed.

End TrafficStateFacts.

(** ** Signal phase controller: tallies, histories and failed initialisation *)

Section TrafficCycleFacts.
Import Traffic.
Import Signals.

Lemma tally_spec tl_id c :
  cx_env (tally tl_id c) = cx_env c /\ cx_states (tally tl_id c) = cx_states c /\
  counted (cx_counts (tally tl_id c))
  = (counted (cx_counts c) + if known (cx_env c) tl_id then 1 else 0)%nat.
Proof.
  unfold tally, traci_get, known, counted.
  destruct (cx_env c !! tl_id) as [s|]; simpl; [|repeat split; lia].
  destruct (_ || _); simpl; [repeat split; lia|].
  destruct (_ || _); simpl; repeat split; lia.
Qed.

(** What one pass of the loop body does to the simulator, to the mirror
    [traffic_light_states] and to the tallies. *)
Lemma update_light_frame tl_id l c :
  let c' := snd (update_light tl_id l c) in
  (forall k, known (cx_env c') k = known (cx_env c) k) /\
  (forall k, (cx_states c' !! k = cx_states c !! k /\
              cx_env c' !! k = cx_env c !! k) \/
             (exists s, k = tl_id /\ cx_states c' !! k = Some s /\
                        cx_env c' !! k = Some s)) /\
  counted (cx_counts c')
  = (counted (cx_counts c) + if known (cx_env c) tl_id then 1 else 0)%nat.
Proof.
  unfold update_light. cbv zeta.
  destruct (_ <=? _).
  - unfold traci_set.
    destruct (cx_env c !! tl_id) as [cur|] eqn:E; simpl.
    + match goal with
      | |- context [tally tl_id ?cc] =>
          destruct (tally_spec tl_id cc) as (He & Hs & Hn); rewrite He, Hs, Hn
      end. simpl.
      split; [|split].
      * intros k. unfold known. destruct (decide (tl_id = k)) as [->|Hne].
        -- rewrite lookup_insert_eq, E. reflexivity.
        -- rewrite lookup_insert_ne by exact Hne. reflexivity.
      * intros k. destruct (decide (tl_id = k)) as [->|Hne].
        -- right. eexists. split; [reflexivity|].
           rewrite !lookup_insert_eq. split; reflexivity.
        -- left. rewrite !lookup_insert_ne by exact Hne. split; reflexivity.
      * unfold known. rewrite lookup_insert_eq, E. reflexivity.
    + split; [reflexivity|]. split; [intros k; left; split; reflexivity|].
      unfold known. rewrite E. lia.
  - simpl. destruct (tally_spec tl_id c) as (He & Hs & Hn).
    rewrite He, Hs, Hn. split; [reflexivity|].
    split; [intros k; left; split; reflexivity | reflexivity].
Qed.

Lemma known_lights_ext env env' ls :
  (forall k, known env' k = known env k) ->
  known_lights env' ls = known_lights env ls.
Proof.
  intros H. induction ls as [|[k l] ls IH]; simpl; [reflexivity|].
  rewrite H, IH. reflexivity.
Qed.

Lemma update_lights_frame ls : forall c,
  let c' := snd (update_lights ls c) in
  (forall k, known (cx_env c') k = known (cx_env c) k) /\
  (forall k, (cx_states c' !! k = cx_states c !! k /\
              cx_env c' !! k = cx_env c !! k) \/
             (exists s, k ∈ map fst ls /\ cx_states c' !! k = Some s /\
                        cx_env c' !! k = Some s)) /\
  counted (cx_counts c')
  = (counted (cx_counts c) + known_lights (cx_env c) ls)%nat.
Proof.
  induction ls as [|[k0 l0] ls IH]; intros c; simpl.
  - split; [reflexivity|]. split; [intros k; left; split; reflexivity | lia].
  - pose proof (update_light_frame k0 l0 c) as (K1 & M1 & N1).
    destruct (update_light k0 l0 c) as [l0' c1]. simpl in K1, M1, N1.
    specialize (IH c1). destruct (update_lights ls c1) as [ls' c2].
    simpl in *. destruct IH as (K2 & M2 & N2).
    split; [|split].
    + intros k. rewrite K2. apply K1.
    + intros k. destruct (M2 k) as [[Hs He]|(s & Hin & Hs & He)].
      * destruct (M1 k) as [[Hs1 He1]|(s & -> & Hs1 & He1)].
        -- left. split; congruence.
        -- right. exists s. split; [left|]. split; congruence.
      * right. exists s. split; [right; exact Hin|]. split; assumption.
    + rewrite N2, N1, (known_lights_ext _ _ _ K1). lia.
Qed.

(** X2. One controller cycle tallies exactly the lights whose signal the
    simulator knows, one colour each, so the three tallies never add up to
    more than the number of lights; it neither adds a signal to the
    simulator nor drops one; and for every signal it either leaves the
    simulator and the mirror [traffic_light_states] alone or leaves the same
    state in both. *)
Theorem update_cycle_tally env c :
  let out := update_cycle env c in
  counted (snd out) = known_lights env (lights c) /\
  (counted (snd out) <= length (lights c))%nat /\
  (forall k, is_Some (snd (fst out) !! k) <-> is_Some (env !! k)) /\
  (forall k, (traffic_light_states (fst (fst out)) !! k
              = traffic_light_states c !! k /\
              snd (fst out) !! k = env !! k) \/
             (exists s, traffic_light_states (fst (fst out)) !! k = Some s /\
                        snd (fst out) !! k = Some s)).
Proof.
  unfold update_cycle.
  pose proof (update_lights_frame (lights c)
                (mkCtx env (traffic_light_states c) (mkCounts 0 0 0)))
    as (K & M & N).
  destruct (update_lights _ _) as [ls' cx]. simpl in *.
  assert (Hle : forall ls, (known_lights env ls <= length ls)%nat).
  { induction ls as [|[k l] ls IH]; simpl; [lia|].
    destruct (known env k); lia. }
  split; [exact N|]. split; [rewrite N; apply Hle|]. split.
  - intros k. specialize (K k). unfold known in K.
    destruct (cx_env cx !! k), (env !! k); try discriminate K;
      split; intros H; try exact H; eauto; destruct H as [? H]; discriminate H.
  - intros k. destruct (M k) as [H|(s & _ & H)]; [left; exact H|].
    right. exists s. exact H.
Qed.

Lemma update_light_history tl_id l c :
  (length (state_history l) <= 10)%nat ->
  let l' := fst (update_light tl_id l c) in
  (length (state_history l') <= 10)%nat /\
  (state_history l' = state_history l \/
   exists s,
     state_history l'
     = (if (length (state_history l) <? 10)%nat then state_history l
        else tail (state_history l)) ++ [s]).
Proof.
  intros Hlen. unfold update_light. cbv zeta.
  destruct (_ <=? _); [|simpl; split; [exact Hlen | left; reflexivity]].
  destruct (traci_set _ _ _); simpl; [|split; [exact Hlen | left; reflexivity]].
  match goal with
  | |- context [state_history l ++ [?s]] => set (new_state := s)
  end.
  rewrite length_app. simpl.
  destruct (Nat.ltb_spec 10 (length (state_history l) + 1)) as [H|H].
  - assert (Hten : length (state_history l) = 10%nat) by lia.
    destruct (state_history l) as [|h0 hs] eqn:Eh; [discriminate Hten|].
    simpl in *. rewrite length_app. simpl. split; [lia|].
    right. exists new_state.
    destruct (Nat.ltb_spec (S (length hs)) 10); [lia | reflexivity].
  - rewrite length_app. simpl. split; [lia|]. right. exists new_state.
    destruct (Nat.ltb_spec (length (state_history l)) 10); [reflexivity | lia].
Qed.

(** X3. A light's [state_history] never grows beyond ten entries: one
    controller cycle either leaves it alone or appends the state just pushed,
    dropping the oldest entry when ten are already kept. *)
Theorem update_cycle_history env c i tl_id l :
  lights c !! i = Some (tl_id, l) ->
  (length (state_history l) <= 10)%nat ->
  exists l',
    lights (fst (fst (update_cycle env c))) !! i = Some (tl_id, l') /\
    (length (state_history l') <= 10)%nat /\
    (state_history l' = state_history l \/
     exists s,
       state_history l'
       = (if (length (state_history l) <? 10)%nat then state_history l
          else tail (state_history l)) ++ [s]).
Proof.
  intros Hi Hlen. unfold update_cycle.
  destruct (update_lights_lookup (lights c)
              (mkCtx env (traffic_light_states c) (mkCounts 0 0 0)) i tl_id l Hi)
    as [c0 H0].
  destruct (update_lights _ _) as [ls' cx]. simpl in *.
  eexists. split; [exact H0|]. apply update_light_history. exact Hlen.
Qed.

Lemma update_cycle_history_witness :
  exists l',
    lights (fst (fst (update_cycle (<["tl0"%string := "rrrr"%string]> ∅)
      (mkController
         [("tl0"%string, mkLight STREET 0 24 25 3 2 (-73.98, 40.75)%Q [])] 0 ∅))))
      !! 0%nat = Some ("tl0"%string, l') /\
    state_history l' = ["yyrr"%string].
Proof.
  destruct (update_cycle_history (<["tl0"%string := "rrrr"%string]> ∅)
      (mkController
         [("tl0"%string, mkLight STREET 0 24 25 3 2 (-73.98, 40.75)%Q [])] 0 ∅)
      0 "tl0"%string (mkLight STREET 0 24 25 3 2 (-73.98, 40.75)%Q []))
    as (l' & Hl & _ & _).
  - reflexivity.
  - simpl. lia.
  - exists l'. split; [exact Hl|].
    vm_compute in Hl. inversion Hl. reflexivity.
Defined.

End TrafficCycleFacts.

Section TrafficInitFacts.
Import Traffic.
Import Signals.

Lemma enumerated_app randint pre : forall i rest,
  enumerated randint i (pre ++ rest)
  = enumerated randint i pre ++ enumerated randint (i + length pre) rest.
Proof.
  induction pre as [|[k g] pre IH]; intros i rest; simpl.
  - rewrite Nat.add_0_r. reflexivity.
  - rewrite IH. replace (S i + length pre)%nat with (i + S (length pre))%nat by lia.
    reflexivity.
Qed.

Lemma init_loop_prefix randint pre : forall rest i env c,
  NoDup (map fst (lights c) ++ map fst pre) ->
  (forall k, k ∈ map fst pre -> is_Some (env !! k)) ->
  exists env' c',
    init_loop randint i (pre ++ rest) env c
    = init_loop randint (i + length pre) rest env' c' /\
    lights c' = lights c ++ enumerated randint i pre /\
    (forall k, is_Some (env' !! k) <-> is_Some (env !! k)) /\
    (forall k, k ∉ map fst pre ->
               traffic_light_states c' !! k = traffic_light_states c !! k).
Proof.
  induction pre as [|[k g] pre IH]; intros rest i env c Hnd Hex; simpl.
  - exists env, c. rewrite Nat.add_0_r, app_nil_r. repeat split; auto.
  - assert (Hk : k ∉ map fst (lights c)).
    { apply NoDup_app in Hnd. destruct Hnd as (_ & Hd & _).
      intros Hin. apply (Hd k Hin). left. }
    rewrite (dict_set_fresh k _ _ Hk).
    unfold traci_set. destruct (Hex k) as [s0 Hs0]; [left|]. rewrite Hs0.
    edestruct (IH rest (S i)) as (env' & c' & Hrun & Hl & Hdom & Hst); cycle 2.
    + exists env', c'. split.
      { rewrite Hrun. replace (i + S (length pre))%nat
          with (S i + length pre)%nat by lia. reflexivity. }
      split; [rewrite Hl; simpl; rewrite <- app_assoc; reflexivity|].
      split.
      * intros k'. rewrite Hdom. destruct (decide (k = k')) as [->|Hne].
        -- rewrite lookup_insert_eq, Hs0. split; eauto.
        -- rewrite lookup_insert_ne by exact Hne. reflexivity.
      * intros k' Hk'. rewrite Hst.
        -- simpl. apply lookup_insert_ne. intros ->. apply Hk'. left.
        -- intros Hin. apply Hk'. right. exact Hin.
    + simpl. rewrite map_app. simpl. rewrite <- app_assoc. exact Hnd.
    + intros k' Hk'. destruct (decide (k = k')) as [->|Hne].
      * rewrite lookup_insert_eq. eauto.
      * rewrite lookup_insert_ne by exact Hne. apply Hex. right. exact Hk'.
Qed.

(** X4. Initialisation stops at the first discovered signal the simulator
    does not know and reports failure: the lights of the signals before it
    and of that signal are stored, that signal has no entry in the mirror
    [traffic_light_states], and no later signal is stored. *)
Theorem initialize_stops_at_unknown randint inventory env pre k g post :
  discover inventory = pre ++ (k, g) :: post ->
  NoDup (map fst pre ++ [k]) ->
  (forall k', k' ∈ map fst pre -> is_Some (env !! k')) ->
  env !! k = None ->
  exists env' c',
    initialize_manhattan_lights randint inventory env new_controller
    = (false, env', c') /\
    lights c' = enumerated randint 0 (pre ++ [(k, g)]) /\
    length (lights c') = S (length pre) /\
    traffic_light_states c' !! k = None /\
    (forall k', is_Some (env' !! k') <-> is_Some (env !! k')).
Proof.
  intros Hd Hnd Hex Hk. unfold initialize_manhattan_lights. rewrite Hd.
  apply NoDup_app in Hnd as (Hnd & Hfresh & _).
  destruct (init_loop_prefix randint pre ((k, g) :: post) 0 env new_controller)
    as (env' & c' & Hrun & Hl & Hdom & Hst);
    [simpl; exact Hnd | exact Hex |].
  rewrite Hrun. simpl in Hl |- *.
  assert (Hk' : env' !! k = None).
  { destruct (env' !! k) eqn:E; [|reflexivity].
    assert (is_Some (env !! k)) as [? H] by (apply Hdom; eauto).
    rewrite Hk in H. discriminate H. }
  unfold traci_set. rewrite Hk'.
  assert (Hkl : k ∉ map fst (lights c')).
  { rewrite Hl. clear -Hfresh. intros Hin. apply (Hfresh k); [|left].
    revert Hin. generalize 0%nat.
    induction pre as [|[k0 g0] pre IH]; intros n Hin; simpl in *;
      [inversion Hin|].
    apply elem_of_cons in Hin as [->|Hin]; [left|].
    right. apply (IH (fun x Hx => Hfresh x (list_elem_of_further _ _ _ Hx)) (S n)).
    exact Hin. }
  eexists _, _. split; [reflexivity|]. simpl.
  rewrite (dict_set_fresh k _ _ Hkl), Hl, enumerated_app. simpl.
  split; [reflexivity|]. split.
  - rewrite length_app. simpl.
    assert (Hlen : forall n, length (enumerated randint n pre) = length pre).
    { clear. induction pre as [|[k0 g0] pre IH]; intros n; simpl;
        [reflexivity | f_equal; apply IH]. }
    rewrite Hlen. lia.
  - split; [|exact Hdom].
    rewrite Hst; [reflexivity|]. intros Hin. apply (Hfresh k Hin). left.
Qed.

Lemma initialize_stops_at_unknown_witness :
  exists env' c',
    initialize_manhattan_lights (fun _ => 7)
      [("A"%string, Some (-73.98, 40.7512)%Q); ("B"%string, Some (-73.97, 40.76)%Q);
       ("C"%string, Some (-73.96, 40.77)%Q)]
      (<["A"%string := "rrrr"%string]> ∅) new_controller = (false, env', c') /\
    map fst (lights c') = ["A"%string; "B"%string].
Proof.
  destruct (initialize_stops_at_unknown (fun _ => 7)
      [("A"%string, Some (-73.98, 40.7512)%Q); ("B"%string, Some (-73.97, 40.76)%Q);
       ("C"%string, Some (-73.96, 40.77)%Q)]
      (<["A"%string := "rrrr"%string]> ∅)
      [("A"%string, (-73.98, 40.7512)%Q)] "B"%string (-73.97, 40.76)%Q
      [("C"%string, (-73.96, 40.77)%Q)])
    as (env' & c' & Hrun & Hl & _).
  - reflexivity.
  - apply (bool_decide_unpack _). vm_compute. reflexivity.
  - intros k' Hin. apply list_elem_of_singleton in Hin as ->.
    vm_compute. eauto.
  - reflexivity.
  - exists env', c'. split; [exact Hrun|]. rewrite Hl. reflexivity.
Defined.

End TrafficInitFacts.

Section TrafficHeadFacts.
Import Traffic.
Import Signals.

Lemma get_append a : forall i b,
  String.get i (String.append a b)
  = if (i <? String.length a)%nat then String.get i a
    else String.get (i - String.length a) b.
Proof.
  induction a as [|c a IH]; intros i b.
  - simpl. rewrite Nat.sub_0_r. reflexivity.
  - destruct i as [|i]; [reflexivity|]. simpl String.get. rewrite IH.
    reflexivity.
Qed.

Lemma get_rep1 c n : forall i,
  String.get i (str_rep (String c EmptyString) n)
  = if (i <? n)%nat then Some c else None.
Proof.
  induction n as [|n IH]; intros [|i]; simpl; try reflexivity.
  rewrite IH. reflexivity.
Qed.

Lemma repair_id state n :
  String.length state = n ->
  (if (String.length state =? n)%nat then state
   else if (n <? String.length state)%nat
        then String.substring 0 n state
        else String.append state (str_rep "r" (n - String.length state)))
  = state.
Proof. intros H. rewrite (proj2 (Nat.eqb_eq _ _) H). reflexivity. Qed.

Ltac head_cases :=
  repeat match goal with
         | |- context [(?a <? ?b)%nat] => destruct (Nat.ltb_spec a b)
         end; try lia; try reflexivity.

(** X5. For a street signal, and for an avenue signal with more than two
    heads, the two green phases serve complementary heads: every head is
    green in exactly one of phases 0 and 3 and red in the other, it is
    yellow in phase 1 exactly where it was green in phase 0 (and in phase 4
    where it was green in phase 3), and phases 2 and 5 are red on every
    head. *)
Theorem green_phases_complementary env l tl_id cur i :
  env !! tl_id = Some cur ->
  pattern l = STREET \/ (2 < String.length cur)%nat ->
  (i < String.length cur)%nat ->
  ((String.get i (_generate_manhattan_state env (Some l) tl_id 0) = GREEN /\
    String.get i (_generate_manhattan_state env (Some l) tl_id 1) = YELLOW /\
    String.get i (_generate_manhattan_state env (Some l) tl_id 3) = RED /\
    String.get i (_generate_manhattan_state env (Some l) tl_id 4) = RED) \/
   (String.get i (_generate_manhattan_state env (Some l) tl_id 0) = RED /\
    String.get i (_generate_manhattan_state env (Some l) tl_id 1) = RED /\
    String.get i (_generate_manhattan_state env (Some l) tl_id 3) = GREEN /\
    String.get i (_generate_manhattan_state env (Some l) tl_id 4) = YELLOW)) /\
  String.get i (_generate_manhattan_state env (Some l) tl_id 2) = RED /\
  String.get i (_generate_manhattan_state env (Some l) tl_id 5) = RED.
Proof.
  intros Henv Hpat Hi. unfold _generate_manhattan_state, traci_get.
  rewrite Henv. cbv zeta. set (n := String.length cur) in *.
  assert (Hhalf : (n / 2 <= n)%nat) by (apply Nat.Div0.div_le_upper_bound; lia).
  destruct (pattern l) eqn:Hp.
  - destruct Hpat as [Hpat|Hpat]; [discriminate Hpat|].
    rewrite (proj2 (Nat.ltb_lt 2 n) Hpat). cbv [Z.eqb Pos.eqb].
    change "GG"%string with (str_rep "G" 2).
    change "yy"%string with (str_rep "y" 2).
    rewrite !repair_id
      by (rewrite ?length_append, !length_str_rep1; lia).
    rewrite !get_append, !get_rep1, !length_str_rep1.
    destruct (Nat.ltb_spec i 2) as [H2|H2].
    + split; [left|]; head_cases; repeat split; reflexivity.
    + split; [right|]; head_cases; repeat split; reflexivity.
  - cbv [Z.eqb Pos.eqb].
    rewrite !repair_id
      by (rewrite ?length_append, !length_str_rep1; lia).
    rewrite !get_append, !get_rep1, !length_str_rep1.
    destruct (Nat.ltb_spec i (n / 2)) as [H2|H2].
    + split; [left|]; head_cases; repeat split; reflexivity.
    + split; [right|]; head_cases; repeat split; reflexivity.
Qed.

Lemma green_phases_complementary_witness :
  String.get 1 (_generate_manhattan_state (<["tl0"%string := "rrrr"%string]> ∅)
                  (Some (new_light 1 (-73.98, 40.75)%Q 0)) "tl0" 0) = GREEN /\
  String.get 1 (_generate_manhattan_state (<["tl0"%string := "rrrr"%string]> ∅)
                  (Some (new_light 1 (-73.98, 40.75)%Q 0)) "tl0" 3) = RED.
Proof.
  destruct (green_phases_complementary (<["tl0"%string := "rrrr"%string]> ∅)
              (new_light 1 (-73.98, 40.75)%Q 0) "tl0" "rrrr" 1)
    as ([(H0 & _ & H3 & _)|(H0 & _)] & _).
  - reflexivity.
  - left. reflexivity.
  - simpl. lia.
  - split; assumption.
  - vm_compute in H0. discriminate H0.
Defined.

(** X6. An avenue signal with one or two heads is given the same state in
    both green phases, and the same state in both yellow phases: its first
    head is green in phase 0 and again in phase 3. *)
Theorem avenue_small_same_greens env l tl_id cur :
  env !! tl_id = Some cur ->
  pattern l = AVENUE ->
  (0 < String.length cur <= 2)%nat ->
  _generate_manhattan_state env (Some l) tl_id 0
  = _generate_manhattan_state env (Some l) tl_id 3 /\
  _generate_manhattan_state env (Some l) tl_id 1
  = _generate_manhattan_state env (Some l) tl_id 4 /\
  String.get 0 (_generate_manhattan_state env (Some l) tl_id 0) = GREEN /\
  String.get 0 (_generate_manhattan_state env (Some l) tl_id 1) = YELLOW.
Proof.
  intros Henv Hp Hn. unfold _generate_manhattan_state, traci_get.
  rewrite Henv, Hp. cbv zeta.
  destruct cur as [|a [|b [|c cur]]]; simpl in Hn; try lia;
    repeat split; reflexivity.
Qed.

Lemma avenue_small_same_greens_witness :
  _generate_manhattan_state (<["tl0"%string := "rr"%string]> ∅)
    (Some (new_light 0 (-73.98, 40.75)%Q 0)) "tl0" 0
  = _generate_manhattan_state (<["tl0"%string := "rr"%string]> ∅)
      (Some (new_light 0 (-73.98, 40.75)%Q 0)) "tl0" 3.
Proof.
  destruct (avenue_small_same_greens (<["tl0"%string := "rr"%string]> ∅)
              (new_light 0 (-73.98, 40.75)%Q 0) "tl0" "rr") as (H & _).
  - reflexivity.
  - reflexivity.
  - simpl. lia.
  - exact H.
Defined.

End TrafficHeadFacts.

(** ** Charging coordinator: routing, counters, reports and sessions *)

Section EVRouteFacts.
Import EV.
Import Charging.
Local Open Scope Q_scope.

Lemma nearest_free_spec pos sts : forall best,
  (forall b d, best = Some (b, d) ->
     has_room b /\ d = dist2 pos b) ->
  match nearest_free pos sts best with
  | None => best = None /\ forall st, st ∈ sts -> ~ has_room st
  | Some (b, d) =>
      has_room b /\ d = dist2 pos b /\
      (b ∈ sts \/ best = Some (b, d)) /\
      (forall st, st ∈ sts -> has_room st -> d <= dist2 pos st) /\
      (forall b0 d0, best = Some (b0, d0) -> d <= d0)
  end.
Proof.
  induction sts as [|st sts IH]; intros best Hbest; simpl.
  - destruct best as [[b d]|].
    + destruct (Hbest b d eq_refl) as [H1 H2].
      repeat split; auto.
      * intros st Hin. inversion Hin.
      * intros b0 d0 H. inversion H; subst. lra.
    + split; [reflexivity|]. intros st Hin. inversion Hin.
  - destruct (Z.ltb_spec (Z.of_nat (length (vehicles_charging st))) (capacity st))
      as [Hroom|Hfull].
    + set (closer := match best with
                     | Some (_, m) => Qltb (dist2 pos st) m
                     | None => true
                     end).
      specialize (IH (if closer then Some (st, dist2 pos st) else best)).
      destruct (nearest_free pos sts _) as [[b d]|].
      * destruct IH as (R1 & R2 & R3 & R4 & R5).
        { intros b0 d0 H. destruct closer; [inversion H; subst; split; auto|].
          apply Hbest. exact H. }
        split; [exact R1|]. split; [exact R2|]. split; [|split].
        -- destruct R3 as [R3|R3]; [left; right; exact R3|].
           destruct closer eqn:Ec; [inversion R3; subst; left; left|].
           right. exact R3.
        -- intros st' Hin Hr. apply elem_of_cons in Hin as [->|Hin];
             [|apply R4; assumption].
           subst closer. destruct best as [[b0 d0]|].
           ++ destruct (Qltb (dist2 pos st) d0) eqn:E.
              ** apply (R5 st (dist2 pos st)). reflexivity.
              ** apply Qltb_ge in E. specialize (R5 b0 d0 eq_refl). lra.
           ++ apply (R5 st (dist2 pos st)). reflexivity.
        -- intros b0 d0 H. subst best closer.
           destruct (Qltb (dist2 pos st) d0) eqn:E.
           ++ apply Qltb_lt in E. specialize (R5 st (dist2 pos st) eq_refl). lra.
           ++ apply (R5 b0 d0). reflexivity.
      * destruct IH as [H _].
        { intros b0 d0 H. destruct closer; [inversion H; subst; split; auto|].
          apply Hbest. exact H. }
        exfalso. subst closer. destruct best as [[b0 d0]|]; [|discriminate H].
        destruct (Qltb (dist2 pos st) d0); discriminate H.
    + specialize (IH best Hbest).
      destruct (nearest_free pos sts best) as [[b d]|].
      * destruct IH as (R1 & R2 & R3 & R4 & R5).
        split; [exact R1|]. split; [exact R2|]. split; [|split; [|exact R5]].
        -- destruct R3 as [R3|R3]; [left; right; exact R3 | right; exact R3].
        -- intros st' Hin Hr. apply elem_of_cons in Hin as [->|Hin];
             [unfold has_room in Hr; lia | apply R4; assumption].
      * destruct IH as [H1 H2]. split; [exact H1|].
        intros st' Hin. apply elem_of_cons in Hin as [->|Hin];
          [unfold has_room; lia | apply H2; exact Hin].
Qed.

(** X7. [route_ev_to_station] only ever returns a station of the table
    that still has room, lies within 0.01 degrees of the vehicle, is at
    least as near as every other station with room, and whose route the
    simulator accepted. *)
Theorem route_picks_nearest_free sts pos accepted st :
  route_ev_to_station sts pos accepted = Some st ->
  st ∈ sts /\ has_room st /\ accepted = true /\
  dist2 pos st < 0.01 * 0.01 /\
  forall st', st' ∈ sts -> has_room st' -> dist2 pos st <= dist2 pos st'.
Proof.
  unfold route_ev_to_station. intros H.
  pose proof (nearest_free_spec pos sts None) as Hspec.
  destruct (nearest_free pos sts None) as [[b d]|]; [|discriminate H].
  destruct Hspec as (R1 & R2 & R3 & R4 & _); [intros ? ? E; discriminate E|].
  destruct (Qltb d (0.01 * 0.01)) eqn:Ed; [|discriminate H].
  destruct accepted; [|discriminate H]. simpl in H. inversion H; subst b.
  apply Qltb_lt in Ed. subst d.
  destruct R3 as [R3|R3]; [|discriminate R3].
  repeat split; auto.
Qed.

Lemma route_picks_nearest_free_witness :
  demo_station ∈ [demo_station] /\ has_room demo_station.
Proof.
  destruct (route_picks_nearest_free [demo_station] (-73.98, 40.75) true
              demo_station) as (H1 & H2 & _).
  - vm_compute. reflexivity.
  - split; assumption.
Defined.

(** X8. [route_ev_to_station] returns nothing when every station is full,
    when the nearest station with room is 0.01 degrees away or more, or when
    the simulator does not accept the route. *)
Theorem route_none sts pos accepted :
  (forall st, st ∈ sts -> ~ has_room st) \/
  (forall st, st ∈ sts -> has_room st -> 0.01 * 0.01 <= dist2 pos st) \/
  accepted = false ->
  route_ev_to_station sts pos accepted = None.
Proof.
  intros H. unfold route_ev_to_station.
  pose proof (nearest_free_spec pos sts None) as Hspec.
  destruct (nearest_free pos sts None) as [[b d]|]; [|reflexivity].
  destruct Hspec as (R1 & R2 & R3 & R4 & _); [intros ? ? E; discriminate E|].
  destruct R3 as [R3|R3]; [|discriminate R3].
  destruct H as [H|[H|H]].
  - destruct (H b R3 R1).
  - specialize (H b R3 R1). subst d.
    rewrite (proj2 (Qltb_ge _ _) H). reflexivity.
  - subst accepted. rewrite andb_false_r. reflexivity.
Qed.

Lemma route_none_witness :
  route_ev_to_station [demo_station] (-73.98, 40.75) false = None.
Proof.
  apply route_none. right. right. reflexivity.
Defined.

End EVRouteFacts.

Section EVTickFacts.
Import EV.
Import Charging.
Variable hash : string -> Z.

Lemma occupants_ext sts cv cv' :
  cv_ext cv cv' -> occupants sts cv' = occupants sts cv.
Proof.
  intros Hext. induction sts as [|st sts IH]; simpl; [reflexivity|].
  rewrite IH. destruct (Hext (id st)) as [->|[-> ->]]; reflexivity.
Qed.

Lemma occupants_insert_fresh sts cv sid occ :
  sid ∉ map id sts -> occupants sts (<[sid := occ]> cv) = occupants sts cv.
Proof.
  induction sts as [|st sts IH]; simpl; intros Hnot; [reflexivity|].
  apply not_elem_of_cons in Hnot as [Hne Hnot].
  rewrite lookup_insert_ne by exact Hne. rewrite IH by exact Hnot. reflexivity.
Qed.

Lemma occupants_append sts cvm st occ k :
  NoDup (map id sts) -> st ∈ sts -> cvm !! id st = Some occ ->
  occupants sts (<[id st := occ ++ [k]]> cvm) = occupants sts cvm + 1.
Proof.
  induction sts as [|st0 sts IH]; simpl; intros Hnd Hin Hocc.
  - inversion Hin.
  - apply NoDup_cons in Hnd as [Hfresh Hnd].
    destruct (decide (id st = id st0)) as [E|E].
    + rewrite E. rewrite lookup_insert_eq. rewrite <- E, Hocc. simpl.
      rewrite E, occupants_insert_fresh by exact Hfresh.
      rewrite length_app. simpl. lia.
    + rewrite lookup_insert_ne by exact E.
      apply elem_of_cons in Hin as [->|Hin]; [destruct (E eq_refl)|].
      rewrite IH by assumption. lia.
Qed.

Lemma occupied_refresh sts cv :
  occupied (map (fun st => mkStation (id st) (lat st) (lon st) (power st)
                             (capacity st) (default [] (cv !! id st))) sts)
  = occupants sts cv.
Proof.
  induction sts as [|st sts IH]; simpl; [reflexivity|]. rewrite IH. reflexivity.
Qed.

Lemma station_loop_total_evs cr v d e sts : forall s s' flag,
  station_loop cr v d e sts s = Some (s', flag) ->
  l_total_evs s' = l_total_evs s.
Proof.
  induction sts as [|st sts IH]; simpl; intros s s' flag H.
  - inversion H; subst. reflexivity.
  - destruct (within cr v st); [|apply (IH _ _ _ H)].
    match type of H with
    | (if ?c then _ else _) = _ => destruct c
    end; [|apply (IH _ _ _ H)].
    destruct (Qltb (speed v) 2.0); [|apply (IH _ _ _ H)].
    unfold meter in H. simpl in H.
    destruct (l_sessions s !! id st); [|discriminate H].
    inversion H; subst. reflexivity.
Qed.

Variables (share bias : Z) (cr : Q) (sts : list Station).

Lemma process_vehicle_total_evs v d s s' v' :
  process_vehicle hash share bias cr sts v d s = Some (s', v') ->
  l_total_evs s' = l_total_evs s + (if classify hash share v then 1 else 0).
Proof.
  unfold process_vehicle. intros Hrun.
  destruct (classify hash share v); simpl in Hrun.
  - match type of Hrun with
    | match station_loop ?a ?b ?c ?e ?f ?g with _ => _ end = _ =>
        destruct (station_loop a b c e f g) as [[s2 flag]|] eqn:Hst;
          [|discriminate Hrun]
    end.
    inversion Hrun; subst. apply station_loop_total_evs in Hst.
    rewrite Hst. reflexivity.
  - inversion Hrun; subst. lia.
Qed.

Lemma vehicle_loop_total_evs obs : forall s res vs,
  vehicle_loop hash share bias cr sts obs s = Some (res, vs) ->
  l_total_evs res = l_total_evs s + electric hash share obs /\
  0 <= electric hash share obs <= Z.of_nat (length obs).
Proof.
  induction obs as [|[v d] obs IH]; intros s res vs Hrun.
  - simpl in Hrun. inversion Hrun; subst. simpl. lia.
  - simpl in Hrun.
    destruct (process_vehicle hash share bias cr sts v d s) as [[s1 v1]|] eqn:Hp;
      [|discriminate Hrun].
    destruct (vehicle_loop hash share bias cr sts obs s1) as [[s2 vs2]|] eqn:Hl;
      [|discriminate Hrun].
    inversion Hrun; subst.
    pose proof (process_vehicle_total_evs _ _ _ _ _ Hp) as A.
    destruct (IH _ _ _ Hl) as (B1 & B2).
    cbn [electric length]. destruct (classify hash share v); lia.
Qed.

Lemma process_vehicle_counts v d s s' v' :
  NoDup (map id sts) ->
  process_vehicle hash share bias cr sts v d s = Some (s', v') ->
  l_charging_count s <= l_charging_count s'
    <= l_charging_count s + (if classify hash share v then 1 else 0) /\
  occupants sts (l_cv s') - occupants sts (l_cv s)
  = l_charging_count s' - l_charging_count s.
Proof.
  intros Hnd Hrun.
  apply process_vehicle_outcome in Hrun.
  destruct Hrun as [[Hc ->]|(Hc & e1 & flag & _ & _ & Hout)]; rewrite Hc.
  - lia.
  - destruct Hout as [(_ & _ & Hext & Hcnt & _)|Hm]; simpl in *.
    + rewrite (occupants_ext _ _ _ Hext). lia.
    + destruct Hm as (st0 & occ & cvm & e' & Hin & _ & _ & _ & Hext & Hocc
                      & Hcv & _ & _ & _ & Hcnt & _).
      rewrite Hcv, (occupants_append _ _ _ _ _ Hnd Hin Hocc),
        (occupants_ext _ _ _ Hext). lia.
Qed.

Lemma vehicle_loop_counts obs : forall s res vs,
  NoDup (map id sts) ->
  vehicle_loop hash share bias cr sts obs s = Some (res, vs) ->
  l_charging_count s <= l_charging_count res /\
  l_charging_count res - l_charging_count s <= electric hash share obs /\
  occupants sts (l_cv res) - occupants sts (l_cv s)
  = l_charging_count res - l_charging_count s.
Proof.
  induction obs as [|[v d] obs IH]; intros s res vs Hnd Hrun.
  - simpl in Hrun. inversion Hrun; subst. simpl. lia.
  - simpl in Hrun.
    destruct (process_vehicle hash share bias cr sts v d s) as [[s1 v1]|] eqn:Hp;
      [|discriminate Hrun].
    destruct (vehicle_loop hash share bias cr sts obs s1) as [[s2 vs2]|] eqn:Hl;
      [|discriminate Hrun].
    inversion Hrun; subst.
    destruct (process_vehicle_counts _ _ _ _ _ Hnd Hp) as (A2 & A3).
    destruct (IH _ _ _ Hnd Hl) as (B3 & B4 & B5).
    cbn [electric]. destruct (classify hash share v); lia.
Qed.

Lemma vehicle_loop_one_slot obs : forall s res vs,
  NoDup (map (fun o => vid (fst o)) obs) ->
  vehicle_loop hash share bias cr sts obs s = Some (res, vs) ->
  one_slot_each (l_cv s) ->
  (forall sid i k v d, slot (l_cv s) sid i k -> (v, d) ∈ obs -> vid v <> k) ->
  one_slot_each (l_cv res).
Proof.
  induction obs as [|[v d] obs IH]; intros s res vs Hnd Hrun Huniq Hfresh.
  - simpl in Hrun. inversion Hrun; subst. exact Huniq.
  - simpl in Hrun.
    destruct (process_vehicle hash share bias cr sts v d s) as [[s1 v1]|] eqn:Hp;
      [|discriminate Hrun].
    destruct (vehicle_loop hash share bias cr sts obs s1) as [[s2 vs2]|] eqn:Hl;
      [|discriminate Hrun].
    inversion Hrun; subst. simpl in Hnd. apply NoDup_cons in Hnd as [Hv Hnd].
    assert (Hslots : forall sid j k, slot (l_cv s1) sid j k ->
              slot (l_cv s) sid j k \/ k = vid v).
    { apply process_vehicle_summary in Hp.
      destruct Hp as [[_ ->]|(_ & e' & _ & [(_ & _ & Hs)|(_ & st & i & _ & _ & _ & _ & Hs)])].
      - intros; left; assumption.
      - intros sid j k H. left. apply Hs. exact H.
      - intros sid j k H. apply Hs in H as [H|(_ & _ & H)]; [left|right]; exact H. }
    assert (Hone : one_slot_each (l_cv s1)).
    { apply process_vehicle_summary in Hp.
      destruct Hp as [[_ ->]|(_ & e' & _ & [(_ & _ & Hs)|(_ & st & i & _ & _ & _ & _ & Hs)])].
      - exact Huniq.
      - intros sid i sid' j k H1 H2. apply Hs in H1. apply Hs in H2.
        apply (Huniq _ _ _ _ _ H1 H2).
      - intros sid i0 sid' j k H1 H2. apply Hs in H1. apply Hs in H2.
        destruct H1 as [H1|(-> & -> & ->)], H2 as [H2|(E1 & E2 & E3)].
        + apply (Huniq _ _ _ _ _ H1 H2).
        + subst k. exfalso. apply (Hfresh _ _ _ v d H1); [left|reflexivity].
        + exfalso. apply (Hfresh _ _ _ v d H2); [left|reflexivity].
        + subst. split; reflexivity. }
    apply (IH _ _ _ Hnd Hl Hone).
    intros sid i k v2 d2 Hs Hin2 E.
    apply Hslots in Hs as [Hs| ->].
    + apply (Hfresh _ _ _ v2 d2 Hs); [right; exact Hin2 | exact E].
    + apply Hv. apply list_elem_of_fmap. exists (v2, d2). split; [symmetry; exact E|exact Hin2].
Qed.

Lemma process_vehicle_report v d s s' v' :
  process_vehicle hash share bias cr sts v d s = Some (s', v') ->
  vid v' = vid v /\ x v' = x v /\ y v' = y v /\ speed v' = speed v /\
  is_ev v' = classify hash share v /\
  ((classify hash share v = false /\ v_charging v' = v_charging v) \/
   (classify hash share v = true /\
    ((v_charging v' = v_charging v /\
      forall sid j k, slot (l_cv s') sid j k <-> slot (l_cv s) sid j k) \/
     (exists e' sid j, l_ev s' !! vid v = Some e' /\
        v_charging v' = charging e' /\ slot (l_cv s') sid j (vid v) /\
        forall sid j k, slot (l_cv s) sid j k -> slot (l_cv s') sid j k)))).
Proof.
  unfold process_vehicle. intros Hrun.
  destruct (classify hash share v); simpl in Hrun.
  - match type of Hrun with
    | match station_loop ?a ?b ?c ?e ?f ?g with _ => _ end = _ =>
        destruct (station_loop a b c e f g) as [[s2 flag]|] eqn:Hst;
          [|discriminate Hrun]
    end.
    inversion Hrun; subst; simpl. repeat (split; [reflexivity|]).
    right. split; [reflexivity|].
    apply station_loop_outcome in Hst.
    destruct Hst as [(_ & _ & Hext & _ & Hflag)|Hm]; simpl in *.
    + left. split; [exact Hflag|]. intros sid j k. apply slot_ext. exact Hext.
    + destruct Hm as (st0 & occ & cvm & e' & _ & _ & _ & _ & Hext & Hocc
                      & Hcv & He & _ & Hflag & _).
      right. exists e', (id st0), (length occ).
      split; [rewrite He; apply lookup_insert_eq|]. split; [exact Hflag|].
      split.
      * rewrite Hcv. apply slot_append; [exact Hocc|]. right. repeat split.
      * intros sid j k H. rewrite Hcv. apply slot_append; [exact Hocc|].
        left. apply (slot_ext _ _ _ _ _ Hext). exact H.
  - inversion Hrun; subst; simpl. repeat (split; [reflexivity|]).
    left. split; reflexivity.
Qed.

Lemma vehicle_loop_report obs : forall s res vs,
  NoDup (map (fun o => vid (fst o)) obs) ->
  (forall v d, (v, d) ∈ obs -> ~ metered (l_cv s) (vid v)) ->
  vehicle_loop hash share bias cr sts obs s = Some (res, vs) ->
  Forall2 (fun o v' => reported (l_cv res) (l_ev res)
                         (classify hash share (fst o)) (fst o) v') obs vs.
Proof.
  induction obs as [|[v d] obs IH]; intros s res vs Hnd Hfresh Hrun.
  - simpl in Hrun. inversion Hrun; subst. constructor.
  - simpl in Hrun.
    destruct (process_vehicle hash share bias cr sts v d s) as [[s1 v1]|] eqn:Hp;
      [|discriminate Hrun].
    destruct (vehicle_loop hash share bias cr sts obs s1) as [[s2 vs2]|] eqn:Hl;
      [|discriminate Hrun].
    inversion Hrun; subst. simpl in Hnd.
    pose proof Hnd as Hnd0. apply NoDup_cons in Hnd as [Hv Hnd].
    assert (Hrest : forall v2 d2, (v2, d2) ∈ obs -> vid v2 <> vid v).
    { intros v2 d2 Hin E. apply Hv. apply list_elem_of_fmap.
      exists (v2, d2). split; [symmetry; exact E | exact Hin]. }
    destruct (vehicle_loop_rel hash share bias cr sts obs _ _ _ Hnd Hl)
      as (_ & Hmono & Hback & _).
    assert (Hev : l_ev res !! vid v = l_ev s1 !! vid v).
    { apply (vehicle_loop_untouched hash share bias cr sts obs _ _ _ _ Hl).
      intros v2 d2 Hin _. apply (Hrest v2 d2 Hin). }
    assert (Hkeep : metered (l_cv res) (vid v) -> metered (l_cv s1) (vid v)).
    { intros (sid & j & H). apply Hback in H as [H|H]; [exists sid, j; exact H|].
      destruct H as (v2 & d2 & _ & Hin & _ & E & _).
      destruct (Hrest v2 d2 Hin E). }
    pose proof (process_vehicle_report _ _ _ _ _ Hp)
      as (R1 & R2 & R3 & R4 & R5 & R6).
    constructor.
    + simpl. unfold reported. repeat (split; [assumption|]).
      destruct R6 as [[Hc Hf]|(Hc & [[Hf Hs]|(e' & sid & j & He & Hf & Hs & _)])].
      * right. split; [left; exact Hc | exact Hf].
      * right. split; [|exact Hf]. right. intros Hm. apply Hkeep in Hm.
        destruct Hm as (sid & j & Hm). apply Hs in Hm.
        apply (Hfresh v d); [left | exists sid, j; exact Hm].
      * left. split; [exact Hc|]. split.
        -- exists sid, j. apply Hmono. exact Hs.
        -- exists e'. rewrite Hev. split; [exact He | exact Hf].
    + apply (IH s1 _ _ Hnd); [|exact Hl].
      intros v2 d2 Hin (sid & j & Hm).
      assert (Hold : slot (l_cv s) sid j (vid v2)).
      { apply process_vehicle_summary in Hp.
        destruct Hp as [[_ ->]|(_ & e' & _ & [(_ & _ & Hs)
                                             |(_ & st & i & _ & _ & _ & _ & Hs)])].
        - exact Hm.
        - apply Hs. exact Hm.
        - apply Hs in Hm as [Hm|(_ & _ & E)]; [exact Hm|].
          destruct (Hrest v2 d2 Hin E). }
      apply (Hfresh v2 d2); [right; exact Hin | exists sid, j; exact Hold].
Qed.

Lemma vehicle_loop_no_ev obs : forall s,
  (forall v d, (v, d) ∈ obs -> classify hash share v = false) ->
  vehicle_loop hash share bias cr sts obs s
  = Some (s, map (fun o => mkVehicle (vid (fst o)) (x (fst o)) (y (fst o))
                             (speed (fst o)) false (v_charging (fst o))) obs).
Proof.
  induction obs as [|[v d] obs IH]; intros s Hno; simpl; [reflexivity|].
  unfold process_vehicle. rewrite (Hno v d) by left. simpl.
  rewrite IH; [reflexivity|]. intros v2 d2 Hin. apply (Hno v2 d2). right. exact Hin.
Qed.

Lemma electric_all obs :
  (forall v d, (v, d) ∈ obs -> classify hash share v = true) ->
  electric hash share obs = Z.of_nat (length obs).
Proof.
  induction obs as [|[v d] obs IH]; intros Hall; [reflexivity|].
  cbn [electric length]. rewrite (Hall v d) by left.
  rewrite IH; [lia|]. intros v2 d2 Hin. apply (Hall v2 d2). right. exact Hin.
Qed.

End EVTickFacts.

Section EVTickTheorems.
Import EV.
Import Charging.
Variable hash : string -> Z.

Lemma occupants_empty sts : occupants sts ∅ = 0.
Proof.
  induction sts as [|st sts IH]; simpl; [reflexivity|].
  rewrite lookup_empty, IH. reflexivity.
Qed.

Lemma no_slot_empty sid i k : ~ slot ∅ sid i k.
Proof. intros (occ & H & _). rewrite lookup_empty in H. discriminate H. Qed.

(** X9. A tick over registered stations with distinct ids returns; its
    count of electric vehicles is the number of snapshot vehicles whose
    hashed id falls under the share, its count of charging vehicles is
    the total length of the stations' occupancy lists, and
    0 <= charging <= electric <= size of the snapshot. *)
Theorem tick_counters n obs :
  NoDup (map id (stations n)) ->
  sessions_registered (stations n) (charging_sessions n) ->
  exists t,
    process_ev_charging hash n obs = Some t /\
    total_evs t = electric hash (clamp_percent (ev_share_percent n)) obs /\
    charging_count t = occupied (stations (network t)) /\
    0 <= charging_count t <= total_evs t /\
    total_evs t <= Z.of_nat (length obs).
Proof.
  intros Hnd Hreg. unfold process_ev_charging.
  set (share := clamp_percent (ev_share_percent n)).
  set (bias := clamp_percent (ev_charging_bias_percent n)).
  set (s0 := mkLoop (ev_vehicles n) ∅ (charging_sessions n) 0 0).
  destruct (vehicle_loop_total hash share bias (capture_radius_of bias)
              (stations n) obs s0 Hreg) as [[s vs] Hrun].
  rewrite Hrun. eexists. split; [reflexivity|]. cbn [total_evs charging_count network stations].
  destruct (vehicle_loop_total_evs hash share bias _ _ obs _ _ _ Hrun)
    as (A1 & A2).
  destruct (vehicle_loop_counts hash share bias _ _ obs _ _ _ Hnd Hrun)
    as (A3 & A4 & A5).
  rewrite occupied_refresh. subst s0. simpl in *.
  rewrite occupants_empty in A5. lia.
Qed.

(** X10. After a tick over a snapshot with distinct vehicle ids, no station
    lists a vehicle twice and no vehicle is listed by two stations. *)
Theorem one_station_per_vehicle n obs t :
  NoDup (map (fun o => vid (fst o)) obs) ->
  process_ev_charging hash n obs = Some t ->
  one_slot_each (charging_vehicles (network t)) /\
  (forall st, st ∈ stations (network t) -> NoDup (vehicles_charging st)) /\
  (forall st st' k, st ∈ stations (network t) -> st' ∈ stations (network t) ->
     k ∈ vehicles_charging st -> k ∈ vehicles_charging st' -> id st = id st').
Proof.
  intros Hnd Hrun. unfold process_ev_charging in Hrun.
  match type of Hrun with
  | match ?e with _ => _ end = _ => destruct e as [[s vs]|] eqn:Hl;
                                     [|discriminate Hrun]
  end.
  inversion Hrun; subst t; clear Hrun. cbn [network charging_vehicles stations].
  assert (Hone : one_slot_each (l_cv s)).
  { apply (vehicle_loop_one_slot hash _ _ _ _ obs _ _ _ Hnd Hl).
    - intros sid i sid' j k H. destruct (no_slot_empty _ _ _ H).
    - intros sid i k v d H. destruct (no_slot_empty _ _ _ H). }
  assert (Hslot : forall st k,
            st ∈ map (fun st => mkStation (id st) (lat st) (lon st) (power st)
                       (capacity st) (default [] (l_cv s !! id st))) (stations n) ->
            forall i, vehicles_charging st !! i = Some k ->
                      slot (l_cv s) (id st) i k).
  { intros st k Hin i Hi. apply list_elem_of_fmap in Hin as (st0 & -> & _).
    simpl in *. destruct (l_cv s !! id st0) as [occ|] eqn:E; simpl in Hi.
    - exists occ. split; [exact E | exact Hi].
    - discriminate Hi. }
  split; [exact Hone|]. split.
  - intros st Hin. apply NoDup_alt. intros i j k Hi Hj.
    apply (Hone _ _ _ _ _ (Hslot st k Hin i Hi) (Hslot st k Hin j Hj)).
  - intros st st' k Hin Hin' Hk Hk'.
    apply list_elem_of_lookup in Hk as [i Hi].
    apply list_elem_of_lookup in Hk' as [j Hj].
    apply (Hone _ _ _ _ _ (Hslot st k Hin i Hi) (Hslot st' k Hin' j Hj)).
Qed.

(** X11. The vehicles a tick returns are the snapshot's, in order, with
    position and speed as they came; ['is_ev'] is the classification; and
    (ids distinct) ['charging'] is the tracked record's flag for a vehicle
    that was metered in this tick and the incoming flag for every other
    vehicle. *)
Theorem returned_vehicles n obs t :
  NoDup (map (fun o => vid (fst o)) obs) ->
  process_ev_charging hash n obs = Some t ->
  Forall2 (fun o v' =>
             reported (charging_vehicles (network t)) (ev_vehicles (network t))
               (classify hash (clamp_percent (ev_share_percent n)) (fst o))
               (fst o) v')
          obs (vehicles t).
Proof.
  intros Hnd Hrun. unfold process_ev_charging in Hrun.
  match type of Hrun with
  | match ?e with _ => _ end = _ => destruct e as [[s vs]|] eqn:Hl;
                                     [|discriminate Hrun]
  end.
  inversion Hrun; subst t; clear Hrun.
  cbn [network charging_vehicles ev_vehicles vehicles].
  refine (vehicle_loop_report hash _ _ _ _ obs _ _ _ Hnd _ Hl).
  intros v d _ (sid & j & H). destruct (no_slot_empty _ _ _ H).
Qed.

(** X12. With an electric share of 0 or less a tick never fails, even
    without session tables: no vehicle is classified electric, the tracked
    records and the sessions stay as they were, both counters are 0, the
    occupancy table is empty and every station's list is cleared. *)
Theorem zero_share_tick n obs :
  ev_share_percent n <= 0 ->
  process_ev_charging hash n obs
  = Some (mkTick
            (mkNetwork
               (map (fun st => mkStation (id st) (lat st) (lon st) (power st)
                                 (capacity st) []) (stations n))
               (charging_sessions n) ∅ (ev_share_percent n)
               (ev_charging_bias_percent n) (ev_vehicles n))
            (map (fun o => mkVehicle (vid (fst o)) (x (fst o)) (y (fst o))
                             (speed (fst o)) false (v_charging (fst o))) obs)
            0 0).
Proof.
  intros Hshare. unfold process_ev_charging.
  rewrite vehicle_loop_no_ev.
  - reflexivity.
  - intros v d _. unfold classify, clamp_percent. apply Z.ltb_ge.
    pose proof (Z.mod_pos_bound (hash (vid v)) 100 ltac:(lia)). lia.
Qed.

(** X13. With an electric share of 100 or more every snapshot vehicle is
    electric: the tick counts them all and tracks a record for each. *)
Theorem full_share_tick n obs :
  100 <= ev_share_percent n ->
  sessions_registered (stations n) (charging_sessions n) ->
  exists t,
    process_ev_charging hash n obs = Some t /\
    total_evs t = Z.of_nat (length obs) /\
    forall v d, (v, d) ∈ obs -> is_Some (ev_vehicles (network t) !! vid v).
Proof.
  intros Hshare Hreg.
  assert (Hall : forall v d, (v, d) ∈ obs ->
            classify hash (clamp_percent (ev_share_percent n)) v = true).
  { intros v d _. unfold classify, clamp_percent. apply Z.ltb_lt.
    pose proof (Z.mod_pos_bound (hash (vid v)) 100 ltac:(lia)). lia. }
  unfold process_ev_charging.
  set (share := clamp_percent (ev_share_percent n)) in *.
  set (bias := clamp_percent (ev_charging_bias_percent n)).
  set (s0 := mkLoop (ev_vehicles n) ∅ (charging_sessions n) 0 0).
  destruct (vehicle_loop_total hash share bias (capture_radius_of bias)
              (stations n) obs s0 Hreg) as [[s vs] Hrun].
  rewrite Hrun. eexists. split; [reflexivity|].
  cbn [total_evs network ev_vehicles]. split.
  - destruct (vehicle_loop_total_evs hash share bias _ _ obs _ _ _ Hrun)
      as (A1 & _).
    rewrite A1, (electric_all hash share obs Hall). subst s0. simpl. lia.
  - intros v d Hin.
    apply (vehicle_loop_dom hash _ _ _ _ obs _ _ _ Hrun). right.
    exists v, d. split; [exact Hin|]. split; [apply (Hall v d Hin)|reflexivity].
Qed.

End EVTickTheorems.

Lemma demo_pair_nodup :
  NoDup (map (fun o => EV.vid (fst o))
           [(EV.demo_va, EV.demo_draws); (EV.demo_vb, EV.demo_draws)]).
Proof. apply (bool_decide_unpack _). vm_compute. reflexivity. Qed.

Lemma demo_ids_nodup : NoDup (map EV.id (EV.stations EV.demo_network)).
Proof. apply (bool_decide_unpack _). vm_compute. reflexivity. Qed.

Lemma tick_counters_witness :
  exists t,
    EV.process_ev_charging EV.demo_hash EV.demo_network
      [(EV.demo_va, EV.demo_draws); (EV.demo_vb, EV.demo_draws)] = Some t /\
    EV.total_evs t = 2 /\ 0 <= EV.charging_count t <= 2.
Proof.
  destruct (tick_counters EV.demo_hash EV.demo_network
              [(EV.demo_va, EV.demo_draws); (EV.demo_vb, EV.demo_draws)]
              demo_ids_nodup demo_registered) as (t & Ht & He & _ & Hc & _).
  exists t. split; [exact Ht|]. rewrite He in *. split; [reflexivity|exact Hc].
Defined.

Lemma one_station_per_vehicle_witness :
  exists t,
    EV.process_ev_charging EV.demo_hash EV.demo_network
      [(EV.demo_va, EV.demo_draws); (EV.demo_vb, EV.demo_draws)] = Some t /\
    Charging.one_slot_each (EV.charging_vehicles (EV.network t)).
Proof.
  destruct (EV.process_ev_charging EV.demo_hash EV.demo_network
              [(EV.demo_va, EV.demo_draws); (EV.demo_vb, EV.demo_draws)])
    as [t|] eqn:E.
  - exists t. split; [reflexivity|].
    apply (one_station_per_vehicle EV.demo_hash EV.demo_network _ t
             demo_pair_nodup E).
  - vm_compute in E. discriminate E.
Defined.

Lemma returned_vehicles_witness :
  exists t,
    EV.process_ev_charging EV.demo_hash EV.demo_network
      [(EV.demo_va, EV.demo_draws); (EV.demo_vb, EV.demo_draws)] = Some t /\
    length (EV.vehicles t) = 2%nat.
Proof.
  destruct (EV.process_ev_charging EV.demo_hash EV.demo_network
              [(EV.demo_va, EV.demo_draws); (EV.demo_vb, EV.demo_draws)])
    as [t|] eqn:E.
  - exists t. split; [reflexivity|].
    pose proof (returned_vehicles EV.demo_hash EV.demo_network _ t
                  demo_pair_nodup E) as H.
    apply Forall2_length in H. symmetry. exact H.
  - vm_compute in E. discriminate E.
Defined.

Lemma zero_share_tick_witness :
  exists t,
    EV.process_ev_charging EV.demo_hash
      (EV.mkNetwork [EV.demo_station] ∅ ∅ 0 30 ∅)
      [(EV.demo_va, EV.demo_draws)] = Some t /\
    EV.total_evs t = 0.
Proof.
  eexists. split.
  - apply zero_share_tick. simpl. lia.
  - reflexivity.
Defined.

Lemma full_share_tick_witness :
  exists t,
    EV.process_ev_charging EV.demo_hash
      (EV.register_sessions (EV.mkNetwork [EV.demo_station] ∅ ∅ 100 30 ∅))
      [(EV.demo_va, EV.demo_draws)] = Some t /\
    EV.total_evs t = 1.
Proof.
  destruct (full_share_tick EV.demo_hash
              (EV.register_sessions (EV.mkNetwork [EV.demo_station] ∅ ∅ 100 30 ∅))
              [(EV.demo_va, EV.demo_draws)]) as (t & Ht & He & _).
  - simpl. lia.
  - exact demo_registered.
  - exists t. split; [exact Ht | exact He].
Defined.

Section EVSessionFacts.
Import EV.
Import Charging.
Variable hash : string -> Z.

Lemma session_step_trans a b c :
  session_step a b -> session_step b c -> session_step a c.
Proof.
  intros [->|(se1 & -> & H1 & H2)] Hbc; [exact Hbc|].
  destruct Hbc as [->|(se2 & -> & H3 & H4)].
  - right. exists se1. repeat split; assumption.
  - right. exists se2. split; [reflexivity|]. split; [exact H3|].
    intros se Hse. rewrite (H4 se1 eq_refl). apply H2. exact Hse.
Qed.

Lemma meter_sessions v d e st occ s s' flag sid k :
  meter v d e st occ s = Some (s', flag) ->
  session_step (session_of (l_sessions s) sid k)
               (session_of (l_sessions s') sid k).
Proof.
  unfold meter. destruct (l_sessions s !! id st) as [table|] eqn:Et;
    [|intros H; discriminate H].
  intros H. inversion H; subst; clear H. cbn [l_sessions]. unfold session_of.
  destruct (decide (sid = id st)) as [->|Hs].
  - rewrite lookup_insert_eq, Et.
    destruct (decide (k = vid v)) as [->|Hk].
    + rewrite lookup_insert_eq. right. eexists. split; [reflexivity|].
      split; [apply Q.le_min_r|].
      intros se Hse. rewrite Hse. reflexivity.
    + rewrite lookup_insert_ne by (intros E; apply Hk; symmetry; exact E).
      left. reflexivity.
  - rewrite lookup_insert_ne by (intros E; apply Hs; symmetry; exact E).
    left. reflexivity.
Qed.

Lemma station_loop_sessions cr v d e sts sid k : forall s s' flag,
  station_loop cr v d e sts s = Some (s', flag) ->
  session_step (session_of (l_sessions s) sid k)
               (session_of (l_sessions s') sid k).
Proof.
  induction sts as [|st sts IH]; simpl; intros s s' flag H.
  - inversion H; subst. left. reflexivity.
  - destruct (within cr v st); [|apply (IH _ _ _ H)].
    match type of H with
    | (if ?c then _ else _) = _ => destruct c
    end; [|apply (IH _ _ _ H)].
    destruct (Qltb (speed v) 2.0); [|apply (IH _ _ _ H)].
    apply (meter_sessions _ _ _ _ _ _ _ _ sid k) in H. exact H.
Qed.

Lemma vehicle_loop_sessions share bias cr sts sid k obs : forall s res vs,
  vehicle_loop hash share bias cr sts obs s = Some (res, vs) ->
  session_step (session_of (l_sessions s) sid k)
               (session_of (l_sessions res) sid k).
Proof.
  induction obs as [|[v d] obs IH]; intros s res vs Hrun; simpl in Hrun.
  - inversion Hrun; subst. left. reflexivity.
  - destruct (process_vehicle hash share bias cr sts v d s) as [[s1 v1]|] eqn:Hp;
      [|discriminate Hrun].
    destruct (vehicle_loop hash share bias cr sts obs s1) as [[s2 vs2]|] eqn:Hl;
      [|discriminate Hrun].
    inversion Hrun; subst.
    apply (session_step_trans _ (session_of (l_sessions s1) sid k));
      [|apply (IH _ _ _ Hl)].
    unfold process_vehicle in Hp.
    destruct (classify hash share v); simpl in Hp.
    + match type of Hp with
      | match station_loop ?a ?b ?c ?e ?f ?g with _ => _ end = _ =>
          destruct (station_loop a b c e f g) as [[s3 flag]|] eqn:Hst;
            [|discriminate Hp]
      end.
      inversion Hp; subst.
      apply (station_loop_sessions _ _ _ _ _ sid k) in Hst. exact Hst.
    + inversion Hp; subst. left. reflexivity.
Qed.

(** X14. A tick never deletes a charging session and never moves its
    start: an entry of [charging_sessions] is after the tick what it was,
    or it holds at most 100 kWh and, if it existed before, has the start
    it had. *)
Theorem sessions_accumulate n obs t :
  process_ev_charging hash n obs = Some t ->
  forall sid k,
    session_step (session_of (charging_sessions n) sid k)
                 (session_of (charging_sessions (network t)) sid k) /\
    (forall se, session_of (charging_sessions n) sid k = Some se ->
       exists se', session_of (charging_sessions (network t)) sid k = Some se' /\
                   start se' = start se).
Proof.
  intros Hrun sid k. unfold process_ev_charging in Hrun.
  match type of Hrun with
  | match ?e with _ => _ end = _ => destruct e as [[s vs]|] eqn:Hl;
                                     [|discriminate Hrun]
  end.
  inversion Hrun; subst t; clear Hrun. cbn [network charging_sessions].
  pose proof (vehicle_loop_sessions _ _ _ _ sid k _ _ _ _ Hl) as Hstep.
  cbn [l_sessions] in Hstep. split; [exact Hstep|].
  intros se Hse. destruct Hstep as [->|(se' & -> & _ & Hst)].
  - exists se. split; [exact Hse | reflexivity].
  - exists se'. split; [reflexivity | apply Hst; exact Hse].
Qed.

End EVSessionFacts.

Lemma sessions_accumulate_witness :
  exists t,
    EV.process_ev_charging EV.demo_hash EV.demo_network
      [(EV.demo_va, EV.demo_draws)] = Some t /\
    Charging.session_step
      (Charging.session_of (EV.charging_sessions EV.demo_network)
         "ev_station_0" "veh0")
      (Charging.session_of (EV.charging_sessions (EV.network t))
         "ev_station_0" "veh0").
Proof.
  destruct (EV.process_ev_charging EV.demo_hash EV.demo_network
              [(EV.demo_va, EV.demo_draws)]) as [t|] eqn:E.
  - exists t. split; [reflexivity|].
    apply (sessions_accumulate EV.demo_hash EV.demo_network _ t E).
  - vm_compute in E. discriminate E.
Defined.

(** ** Station creation *)

Section EVStationFacts.
Import EV.
Import Stations.

Lemma length_insert_by_key p l :
  length (insert_by_key p l) = S (length l).
Proof.
  induction l as [|q l IH]; simpl; [reflexivity|].
  destruct (key_le q p); simpl; [rewrite IH|]; reflexivity.
Qed.

Lemma length_sorted_by_key l : length (sorted_by_key l) = length l.
Proof.
  unfold sorted_by_key.
  assert (H : forall acc, length (fold_left (fun acc p => insert_by_key p acc) l acc)
                          = (length acc + length l)%nat).
  { induction l as [|p l IH]; intros acc; simpl; [lia|].
    rewrite IH, length_insert_by_key. lia. }
  rewrite H. reflexivity.
Qed.

Lemma range_from_multiples step m : (0 < step)%nat ->
  forall r j fuel, (j + r = m)%nat -> (r <= fuel)%nat ->
    range_from fuel (j * step) (m * step) step
    = map (fun q => (q * step)%nat) (seq j r).
Proof.
  intros Hstep. induction r as [|r IH]; intros j fuel Hj Hfuel.
  - assert (j = m) by lia. subst j.
    destruct fuel; simpl; [reflexivity|].
    rewrite (proj2 (Nat.ltb_ge _ _)) by lia. reflexivity.
  - destruct fuel as [|fuel]; [lia|]. simpl.
    rewrite (proj2 (Nat.ltb_lt _ _)) by nia.
    f_equal. replace (j * step + step)%nat with (S j * step)%nat by lia.
    apply IH; lia.
Qed.

Lemma station_near_sane dr k p :
  6 <= capacity_draw dr <= 12 -> station_sane (station_near dr k p).
Proof.
  intros Hc. unfold station_sane, station_near. simpl.
  split; [exact Hc|]. split; [|split; [|reflexivity]].
  - destruct (Q.max_spec 40.700 (Qmin 40.800 (snd p + jitter_lat dr)))
      as [[H1 H2]|[H1 H2]],
      (Q.min_spec 40.800 (snd p + jitter_lat dr)) as [[H3 H4]|[H3 H4]];
      rewrite H2; try rewrite H4; rewrite ?H4 in H1; lra.
  - destruct (Q.max_spec (-74.020) (Qmin (-73.930) (fst p + jitter_lon dr)))
      as [[H1 H2]|[H1 H2]],
      (Q.min_spec (-73.930) (fst p + jitter_lon dr)) as [[H3 H4]|[H3 H4]];
      rewrite H2; try rewrite H4; rewrite ?H4 in H1; lra.
Qed.

Lemma place_loop_spec draw lights : 
  (forall k, 6 <= capacity_draw (draw k) <= 12) ->
  forall idxs acc,
    Forall (fun i => (i < length lights)%nat) idxs ->
    (length acc + length idxs <= 12)%nat ->
    Forall station_sane acc ->
    map id acc = map station_id (seq 0 (length acc)) ->
    exists sts,
      place_loop draw lights idxs acc = Some sts /\
      length sts = (length acc + length idxs)%nat /\
      Forall station_sane sts /\
      map id sts = map station_id (seq 0 (length sts)).
Proof.
  intros Hdraw. induction idxs as [|i idxs IH]; intros acc Hin Hlen Hsane Hids.
  - exists acc. simpl. repeat split; [lia | exact Hsane | exact Hids].
  - cbn [place_loop length] in *. rewrite (proj2 (Nat.leb_gt _ _)) by lia.
    apply Forall_cons in Hin as [Hi Hin].
    destruct (lookup_lt_is_Some_2 lights i Hi) as [p Hp]. rewrite Hp.
    destruct (IH (acc ++ [station_near (draw (length acc)) (length acc) p]))
      as (sts & Hrun & Hl & Hs & Hid).
    + exact Hin.
    + rewrite length_app. simpl. lia.
    + apply Forall_app. split; [exact Hsane|]. constructor; [|constructor].
      apply station_near_sane. apply Hdraw.
    + rewrite length_app, map_app. simpl.
      rewrite Nat.add_1_r, seq_S, map_app, Hids. reflexivity.
    + exists sts. split; [exact Hrun|]. rewrite length_app in Hl. simpl in Hl.
      split; [lia|]. split; assumption.
Qed.

Lemma station_id_inj a b : station_id a = station_id b -> a = b.
Proof.
  unfold station_id. intros H.
  apply (inj pretty). apply (inj (String.app "ev_station_")). exact H.
Qed.

Lemma station_ids_nodup m : NoDup (map station_id (seq 0 m)).
Proof.
  apply NoDup_fmap_2; [|apply NoDup_seq].
  intros a b H. apply station_id_inj. exact H.
Qed.

Lemma fallback_grid_eq draw :
  fallback_grid draw
  = [fallback_station (draw 0%nat) 0 0 0; fallback_station (draw 1%nat) 1 0 1;
     fallback_station (draw 2%nat) 2 0 2; fallback_station (draw 3%nat) 3 1 0;
     fallback_station (draw 4%nat) 4 1 1; fallback_station (draw 5%nat) 5 1 2;
     fallback_station (draw 6%nat) 6 2 0; fallback_station (draw 7%nat) 7 2 1;
     fallback_station (draw 8%nat) 8 2 2; fallback_station (draw 9%nat) 9 3 0;
     fallback_station (draw 10%nat) 10 3 1;
     fallback_station (draw 11%nat) 11 3 2].
Proof. reflexivity. Qed.

Lemma fallback_station_sane dr idx lat_i lon_i :
  6 <= capacity_draw dr <= 12 -> (lat_i <= 3)%nat -> (lon_i <= 2)%nat ->
  station_sane (fallback_station dr idx lat_i lon_i).
Proof.
  intros Hc Hlat Hlon. unfold station_sane, fallback_station. cbn [capacity lat lon vehicles_charging].
  split; [exact Hc|]. split; [|split; [|reflexivity]].
  - assert (0 <= inject_Z (Z.of_nat lat_i) <= 3)%Q as [H1 H2].
    { split; [apply (Qle_trans _ (inject_Z 0)); [apply Qle_refl|]
             |apply (Qle_trans _ (inject_Z 3)); [|apply Qle_refl]];
        rewrite <- Zle_Qle; lia. }
    assert (E : (lat_step == 0.025)%Q) by reflexivity.
    set (q := inject_Z (Z.of_nat lat_i)) in *. rewrite E. lra.
  - assert (0 <= inject_Z (Z.of_nat lon_i) <= 2)%Q as [H1 H2].
    { split; [apply (Qle_trans _ (inject_Z 0)); [apply Qle_refl|]
             |apply (Qle_trans _ (inject_Z 2)); [|apply Qle_refl]];
        rewrite <- Zle_Qle; lia. }
    assert (E : (lon_step == 0.03)%Q) by reflexivity.
    set (q := inject_Z (Z.of_nat lon_i)) in *. rewrite E. lra.
Qed.

Lemma register_lookup sts : forall (m : gmap string (gmap string Session)) sid,
  (sid ∈ map id sts ->
   fold_left (fun m st => <[id st := ∅]> m) sts m !! sid = Some ∅) /\
  (sid ∉ map id sts ->
   fold_left (fun m st => <[id st := ∅]> m) sts m !! sid = m !! sid).
Proof.
  induction sts as [|st sts IH]; intros m sid; simpl.
  - split; [intros H; inversion H | reflexivity].
  - destruct (IH (<[id st := ∅]> m) sid) as [IH1 IH2].
    destruct (decide (sid ∈ map id sts)) as [Hin|Hnot].
    + split; [intros _; apply IH1; exact Hin|].
      intros H. exfalso. apply H. right. exact Hin.
    + split.
      * intros H. apply elem_of_cons in H as [->|H]; [|destruct (Hnot H)].
        rewrite IH2 by exact Hnot. apply lookup_insert_eq.
      * intros H. apply not_elem_of_cons in H as [Hne _].
        rewrite IH2 by exact Hnot. apply lookup_insert_ne.
        intros E. apply Hne. symmetry. exact E.
Qed.

Lemma created_ok sts n :
  Forall station_sane sts ->
  map id sts = map station_id (seq 0 (length sts)) ->
  let n' := register_sessions
              (mkNetwork sts (charging_sessions n) (charging_vehicles n)
                 (ev_share_percent n) (ev_charging_bias_percent n)
                 (ev_vehicles n)) in
  (forall st, st ∈ stations n' -> charging_sessions n' !! id st = Some ∅) /\
  stations_ok n'.
Proof.
  intros Hsane Hids n'.
  assert (Hreg : forall st, st ∈ stations n' ->
                            charging_sessions n' !! id st = Some ∅).
  { intros st Hin. subst n'. unfold register_sessions. cbn [stations charging_sessions] in *.
    apply register_lookup. apply list_elem_of_fmap. exists st. split; [reflexivity|exact Hin]. }
  split; [exact Hreg|]. split; [|split].
  - subst n'. cbn [register_sessions stations]. rewrite Hids. apply station_ids_nodup.
  - intros st Hin. subst n'. cbn [register_sessions stations] in Hin.
    rewrite Forall_forall in Hsane. destruct (Hsane st Hin) as [[H _] _]. lia.
  - intros st Hin. rewrite (Hreg st Hin). eexists. reflexivity.
Qed.

Lemma build_stations_spec draw positions :
  (forall k, 6 <= capacity_draw (draw k) <= 12) ->
  exists sts,
    build_stations draw positions = Some sts /\
    length sts = (if (0 <? length positions)%nat
                  then Nat.min 12 (length positions / 5) else 12%nat) /\
    Forall station_sane sts /\
    map id sts = map station_id (seq 0 (length sts)).
Proof.
  intros Hdraw.
  unfold build_stations. destruct (0 <? length positions)%nat eqn:Hpos.
  - cbv zeta. rewrite length_sorted_by_key.
    set (len := length positions).
    set (m := Nat.min 12 (len / 5)).
    set (step := if (0 <? m)%nat then (len / m)%nat else 1%nat).
    assert (Hm5 : (5 * (len / 5) <= len)%nat) by apply Nat.Div0.mul_div_le.
    assert (Hstep : (0 < step)%nat).
    { subst step. destruct (Nat.ltb_spec 0 m) as [Hm|Hm]; [|lia].
      apply Nat.div_str_pos. lia. }
    assert (Hstop : (m * step <= len)%nat).
    { subst step. destruct (Nat.ltb_spec 0 m) as [Hm|Hm]; [|lia].
      apply Nat.Div0.mul_div_le. }
    rewrite Nat.min_r by exact Hstop. unfold py_range.
    pose proof (range_from_multiples step m Hstep m 0%nat (m * step)%nat
                  eq_refl ltac:(nia)) as Hr.
    change (0 * step)%nat with 0%nat in Hr. rewrite Hr.
    destruct (place_loop_spec draw (sorted_by_key positions) Hdraw
                (map (fun q => (q * step)%nat) (seq 0 m)) [])
      as (sts & Hrun & Hl & Hs & Hid).
    + apply Forall_forall. intros i Hi.
      apply list_elem_of_fmap in Hi as (q & -> & Hq).
      apply elem_of_seq in Hq. rewrite length_sorted_by_key. fold len. nia.
    + simpl. rewrite length_map, length_seq. subst m. lia.
    + constructor.
    + reflexivity.
    + exists sts. split; [exact Hrun|]. simpl in Hl.
      rewrite length_map, length_seq in Hl. repeat split; assumption.
  - exists (fallback_grid draw). split; [reflexivity|].
    rewrite fallback_grid_eq. split; [reflexivity|]. split.
    + repeat (constructor; [apply fallback_station_sane;
                              [apply Hdraw | lia | lia]|]).
      constructor.
    + reflexivity.
Qed.

(** X15. [create_manhattan_grid_stations] never fails.  From a non-empty
    list of positions it builds min(12, len // 5) stations (none for one
    to four lights), from an empty one the 12 stations of the fallback
    grid.  The stations are named ev_station_0, ev_station_1, ... in order,
    lie inside the bounding box, are empty, have the drawn capacity, and
    each gets an empty session table; tracked vehicles and the occupancy
    table are not touched. *)
Theorem stations_created draw positions n :
  (forall k, 6 <= capacity_draw (draw k) <= 12) ->
  exists n',
    create_manhattan_grid_stations draw positions n = Some n' /\
    length (stations n')
    = (if (0 <? length positions)%nat
       then Nat.min 12 (length positions / 5) else 12%nat) /\
    map id (stations n') = map station_id (seq 0 (length (stations n'))) /\
    Forall station_sane (stations n') /\
    (forall st, st ∈ stations n' -> charging_sessions n' !! id st = Some ∅) /\
    stations_ok n' /\
    ev_vehicles n' = ev_vehicles n /\
    charging_vehicles n' = charging_vehicles n.
Proof.
  intros Hdraw. unfold create_manhattan_grid_stations.
  destruct (build_stations_spec draw positions Hdraw)
    as (sts & Hb & Hlen & Hsane & Hids).
  rewrite Hb. eexists. split; [reflexivity|].
  destruct (created_ok sts n Hsane Hids) as [Hreg Hok].
  cbn [register_sessions stations ev_vehicles charging_vehicles] in *.
  repeat split; try assumption; apply Hok.
Qed.

End EVStationFacts.

Lemma stations_created_witness :
  exists n',
    Stations.create_manhattan_grid_stations Stations.demo_station_draw [] EV.new_network
    = Some n' /\
    length (EV.stations n') = 12%nat.
Proof.
  destruct (stations_created Stations.demo_station_draw [] EV.new_network)
    as (n' & Hn & Hl & _).
  - intros k. simpl. lia.
  - exists n'. split; [exact Hn | exact Hl].
Defined.

Section EVLifeFacts.
Import EV.
Import Stations.
Variable hash : string -> Z.

Lemma tick_capacities n obs t :
  process_ev_charging hash n obs = Some t ->
  map capacity (stations (network t)) = map capacity (stations n).
Proof.
  unfold process_ev_charging.
  match goal with
  | |- match ?e with _ => _ end = _ -> _ => destruct e as [[s vs]|]
  end; intros H; [|discriminate H].
  inversion H; subst t. cbn [network stations].
  rewrite map_map. apply map_ext. intros st. reflexivity.
Qed.

Lemma run_ticks_capped snapshots : forall n,
  stations_ok n -> occupancy_ok n ->
  exists n', run_ticks hash n snapshots = Some n' /\
             occupancy_ok n' /\
             map capacity (stations n') = map capacity (stations n).
Proof.
  induction snapshots as [|obs rest IH]; intros n Hok Hocc; simpl.
  - exists n. repeat split; try apply Hocc.
  - destruct (process_ev_charging_cap hash n obs Hok) as (t & Ht & Hok' & Hocc').
    rewrite Ht. destruct (IH (network t) Hok' Hocc') as (n' & Hrun & H1 & H2).
    exists n'. split; [exact Hrun|]. split; [exact H1|].
    rewrite H2. apply (tick_capacities _ _ _ Ht).
Qed.

(** X16. A coordinator fresh from [__init__] whose stations were created
    by [create_manhattan_grid_stations] can be run for any number of
    ticks on any snapshots: no tick fails, and at every station the
    number of charging vehicles stays within the capacity, which is
    between 6 and 12. *)
Theorem created_network_runs draw positions snapshots :
  (forall k, 6 <= capacity_draw (draw k) <= 12) ->
  exists n0 n',
    create_manhattan_grid_stations draw positions new_network = Some n0 /\
    run_ticks hash n0 snapshots = Some n' /\
    forall st, st ∈ stations n' ->
      Z.of_nat (length (vehicles_charging st)) <= capacity st /\
      6 <= capacity st <= 12.
Proof.
  intros Hdraw. unfold create_manhattan_grid_stations.
  destruct (build_stations_spec draw positions Hdraw)
    as (sts & -> & _ & Hsane & Hids).
  destruct (created_ok sts new_network Hsane Hids) as [_ Hok].
  set (n0 := register_sessions _) in *.
  assert (Hocc : occupancy_ok n0).
  { rewrite Forall_forall in Hsane. split.
    - intros st Hin. destruct (Hsane st Hin) as (Hc & _ & _ & ->). simpl. lia.
    - intros st occ _ H. subst n0. simpl in H.
      rewrite lookup_empty in H. discriminate H. }
  destruct (run_ticks_capped snapshots n0 Hok Hocc) as (n' & Hrun & [Ho _] & Hcap).
  exists n0, n'. split; [reflexivity|]. split; [exact Hrun|].
  intros st Hin. split; [apply Ho; exact Hin|].
  assert (Hc : capacity st ∈ map capacity (stations n0)).
  { rewrite <- Hcap. apply list_elem_of_fmap. exists st. split; [reflexivity|exact Hin]. }
  apply list_elem_of_fmap in Hc as (st0 & -> & Hin0).
  rewrite Forall_forall in Hsane. apply (Hsane st0 Hin0).
Qed.

End EVLifeFacts.

Lemma created_network_runs_witness :
  exists n0 n',
    Stations.create_manhattan_grid_stations Stations.demo_station_draw [] EV.new_network
    = Some n0 /\
    EV.run_ticks EV.demo_hash n0 [[(EV.demo_va, EV.demo_draws)]] = Some n'.
Proof.
  destruct (created_network_runs EV.demo_hash Stations.demo_station_draw []
              [[(EV.demo_va, EV.demo_draws)]]) as (n0 & n' & H0 & H1 & _).
  - intros k. simpl. lia.
  - exists n0, n'. split; [exact H0 | exact H1].
Defined.

(** ** Station panel *)

Section EVDataFacts.
Import EV.
Import Charging.
Import StationPanel.
Variable hash : string -> Z.

Lemma station_entry_sane cv st :
  0 <= capacity st ->
  Z.of_nat (length (default [] (cv !! id st))) <= capacity st ->
  entry_sane (station_entry cv st).
Proof.
  intros Hcap Hlen. unfold entry_sane, station_entry.
  cbn [evs_charging sd_capacity utilization busy sd_vehicles].
  set (a := Z.of_nat (length (default [] (cv !! id st)))) in *.
  assert (Ha : 0 <= a) by (subst a; lia).
  split; [lia|].
  destruct (capacity st) as [|p|p] eqn:Ec; [| |lia].
  - simpl. split; [split; discriminate|].
    split; [|reflexivity]. split; [intros H; discriminate H | lia].
  - simpl (0 <? Z.pos p). cbv iota.
    split; [|split; [|reflexivity]].
    + unfold Qle, Qdiv, Qmult, Qinv, inject_Z. simpl. lia.
    + rewrite Qltb_lt. unfold Qlt, Qdiv, Qmult, Qinv, inject_Z. simpl. lia.
Qed.

Lemma sum_evs_entries cv sts :
  sum_evs (map (station_entry cv) sts) = occupants sts cv.
Proof.
  induction sts as [|st sts IH]; simpl; [reflexivity|]. rewrite IH. reflexivity.
Qed.

Lemma occupants_same_ids sts sts' cv :
  map id sts' = map id sts -> occupants sts' cv = occupants sts cv.
Proof.
  revert sts'. induction sts as [|st sts IH]; intros [|st' sts'] H;
    simpl in *; try discriminate H; [reflexivity|].
  inversion H as [[H1 H2]]. rewrite H1, (IH _ H2). reflexivity.
Qed.

(** X17. After a tick over registered stations with distinct ids and
    non-negative capacities, the panel [prepare_ev_station_data] builds
    from the tick's occupancy table has one entry per station, in order;
    every entry counts between 0 and capacity vehicles, shows a
    utilization between 0 and 100, is marked busy exactly when more than
    four fifths of the chargers are taken, and the entries' counts add up
    to the tick's count of charging vehicles. *)
Theorem station_panel_after_tick n obs :
  stations_ok n ->
  exists t,
    process_ev_charging hash n obs = Some t /\
    let panel := prepare_ev_station_data (stations (network t))
                   (charging_vehicles (network t)) in
    map sd_id (fst (fst panel)) = map id (stations n) /\
    Forall entry_sane (fst (fst panel)) /\
    sum_evs (fst (fst panel)) = charging_count t.
Proof.
  intros Hok.
  destruct (process_ev_charging_cap hash n obs Hok)
    as (t & Ht & (Hnd' & Hcap' & _) & (_ & Hinv')).
  exists t. split; [exact Ht|]. cbv zeta.
  unfold prepare_ev_station_data. cbn [fst].
  unfold process_ev_charging in Ht.
  match type of Ht with
  | match ?e with _ => _ end = _ => destruct e as [[s vs]|] eqn:Hl;
                                     [|discriminate Ht]
  end.
  inversion Ht; subst t; clear Ht.
  cbn [network stations charging_vehicles charging_count] in *.
  set (sts' := map _ (stations n)) in *.
  assert (Hids : map id sts' = map id (stations n)).
  { subst sts'. rewrite map_map. apply map_ext. intros st. reflexivity. }
  split; [|split].
  - rewrite map_map. exact Hids.
  - apply Forall_forall. intros d Hd.
    apply list_elem_of_fmap in Hd as (st & -> & Hin).
    apply station_entry_sane; [apply Hcap'; exact Hin|].
    destruct (l_cv s !! id st) as [occ|] eqn:E; simpl.
    + apply (Hinv' st occ Hin E).
    + apply Hcap'. exact Hin.
  - rewrite sum_evs_entries, (occupants_same_ids _ _ _ Hids).
    destruct Hok as (Hnd & _).
    destruct (vehicle_loop_counts hash _ _ _ _ obs _ _ _ Hnd Hl) as (_ & _ & A).
    cbn [l_cv l_charging_count] in A. rewrite occupants_empty in A. lia.
Qed.

End EVDataFacts.

Lemma demo_stations_ok : EV.stations_ok EV.demo_network.
Proof.
  split; [exact demo_ids_nodup|]. split.
  - intros st Hin. apply list_elem_of_singleton in Hin. subst st. simpl. lia.
  - exact demo_registered.
Qed.

Lemma station_panel_after_tick_witness :
  exists t,
    EV.process_ev_charging EV.demo_hash EV.demo_network
      [(EV.demo_va, EV.demo_draws); (EV.demo_vb, EV.demo_draws)] = Some t /\
    StationPanel.sum_evs
      (fst (fst (StationPanel.prepare_ev_station_data (EV.stations (EV.network t))
                   (EV.charging_vehicles (EV.network t)))))
    = EV.charging_count t.
Proof.
  destruct (station_panel_after_tick EV.demo_hash EV.demo_network
              [(EV.demo_va, EV.demo_draws); (EV.demo_vb, EV.demo_draws)]
              demo_stations_ok) as (t & Ht & _ & _ & Hs).
  exists t. split; [exact Ht | exact Hs].
Defined.

(** ** Dispatch and flow engine: failures, load profiles and adequacy *)

Section PowerSocFacts.
Import Power.
Import Grid.
Local Open Scope Q_scope.

Lemma py_div_None a b : py_div a b = None <-> b == 0.
Proof.
  unfold py_div. destruct (Qeq_bool b 0) eqn:E.
  - apply Qeq_bool_iff in E. split; [intros _; exact E | reflexivity].
  - split; [intros H; discriminate H|].
    intros H. apply Qeq_bool_iff in H. rewrite H in E. discriminate E.
Qed.

Lemma update_soc_None g : update_soc g = None <-> soc_undefined g.
Proof.
  unfold update_soc, soc_undefined.
  destruct (is_battery g); [|split; [intros H; discriminate H|intros [H _]; discriminate H]].
  destruct (Qltb 0 (current_output g)) eqn:E1.
  - apply Qltb_lt in E1.
    destruct (py_div (current_output g * time_step_hours) (efficiency g))
      as [e|] eqn:D1.
    + assert (Hne : ~ efficiency g == 0).
      { intros H.
        apply (proj2 (py_div_None (current_output g * time_step_hours) _)) in H.
        rewrite D1 in H. discriminate H. }
      destruct (py_div e (energy_capacity_mwh g)) as [d|] eqn:D2.
      * assert (Hne2 : ~ energy_capacity_mwh g == 0).
        { intros H. apply (proj2 (py_div_None e _)) in H.
          rewrite D2 in H. discriminate H. }
        split; [intros H; discriminate H|].
        intros [_ [[_ [H|H]]|[H _]]]; [destruct (Hne H)|destruct (Hne2 H)|lra].
      * split; [intros _|reflexivity]. split; [reflexivity|]. left.
        split; [exact E1|]. right. apply (proj1 (py_div_None e _)). exact D2.
    + split; [intros _|reflexivity]. split; [reflexivity|]. left.
      split; [exact E1|]. left.
      apply (proj1 (py_div_None (current_output g * time_step_hours) _)).
      exact D1.
  - apply Qltb_ge in E1.
    destruct (Qltb (current_output g) 0) eqn:E2.
    + apply Qltb_lt in E2.
      destruct (py_div (- current_output g * time_step_hours * efficiency g)
                  (energy_capacity_mwh g)) as [d|] eqn:D.
      * split; [intros H; discriminate H|].
        intros [_ [[H _]|[_ H]]]; [lra|].
        apply (proj2 (py_div_None
                        (- current_output g * time_step_hours * efficiency g) _))
          in H.
        rewrite D in H. discriminate H.
      * split; [intros _|reflexivity]. split; [reflexivity|]. right.
        split; [exact E2|].
        apply (proj1 (py_div_None
                        (- current_output g * time_step_hours * efficiency g) _)).
        exact D.
    + apply Qltb_ge in E2. split; [intros H; discriminate H|].
      intros [_ [[H _]|[H _]]]; lra.
Qed.

Lemma update_soc_all_None l :
  update_soc_all l = None <->
  exists name g, (name, g) ∈ l /\ soc_undefined g.
Proof.
  induction l as [|[k g0] l IH]; simpl.
  - split; [intros H; discriminate H|]. intros (name & g & H & _). inversion H.
  - destruct (update_soc g0) as [g1|] eqn:E.
    + destruct (update_soc_all l) as [l'|].
      * split; [intros H; discriminate H|].
        intros (name & g & Hin & Hu). apply elem_of_cons in Hin as [Heq|Hin].
        -- inversion Heq; subst. apply update_soc_None in Hu.
           rewrite Hu in E. discriminate E.
        -- assert (H : Some l' = None)
             by (apply IH; exists name, g; split; assumption).
           discriminate H.
      * split; [intros _|reflexivity].
        destruct (proj1 IH eq_refl) as (name & g & Hin & Hu).
        exists name, g. split; [right; exact Hin | exact Hu].
    + split; [intros _|reflexivity]. exists k, g0. split; [left|].
      apply update_soc_None. exact E.
Qed.

(** X18. [_update_battery_soc] fails with a division by zero exactly when
    some battery is discharging with zero efficiency or zero energy
    capacity, or charging with zero energy capacity; otherwise it
    returns. *)
Theorem battery_update_fails_iff n :
  _update_battery_soc n = None <->
  exists name g, (name, g) ∈ generators n /\ soc_undefined g.
Proof.
  unfold _update_battery_soc. rewrite <- update_soc_all_None.
  destruct (update_soc_all (generators n)); split; intros H;
    try reflexivity; discriminate H.
Qed.

End PowerSocFacts.

Section PowerLoadFacts.
Import Power.
Import Grid.
Local Open Scope Q_scope.

Ltac split_ifs :=
  repeat match goal with
         | |- context [if ?b then _ else _] => destruct b
         end.

Lemma load_profile_bounds hour minute day_of_week :
  Forall (fun e => 0.3 <= snd e <= 1.2)
         (_get_load_profiles hour minute day_of_week).
Proof.
  unfold _get_load_profiles.
  repeat (constructor; [cbn [snd]; split_ifs; lra|]). constructor.
Qed.

Lemma profile_factor_bounds hour minute day_of_week ty :
  0.3 <= default 1.0 (dict_get ty (_get_load_profiles hour minute day_of_week))
      <= 1.2.
Proof.
  destruct (dict_get ty _) as [f|] eqn:E; simpl; [|lra].
  apply dict_get_Some_elem in E.
  pose proof (load_profile_bounds hour minute day_of_week) as H.
  rewrite Forall_forall in H. apply (H _ E).
Qed.

Lemma sum_mw_shift l : forall a, sum_mw l a == a + sum_mw l 0.
Proof.
  unfold sum_mw. induction l as [|e l IH]; intros a; simpl; [lra|].
  rewrite (IH (a + snd e)), (IH (0 + snd e)). lra.
Qed.

Lemma profiled_sum_bounds profiles (l : list (string * Load)) :
  (forall ty, 0.3 <= default 1.0 (dict_get ty profiles) <= 1.2) ->
  (forall name ld, (name, ld) ∈ l -> 0 <= base_mw ld) ->
  forall a b,
    0.3 * b <= a <= 1.2 * b ->
    0.3 * (b + base_total l)
    <= fold_left (fun acc e => acc + current_mw (snd e))
         (map (fun e => (fst e, apply_profile profiles (snd e))) l) a
    <= 1.2 * (b + base_total l).
Proof.
  intros Hp. induction l as [|[k ld] l IH]; intros Hbase a b Hab; simpl.
  - lra.
  - assert (Hb : 0 <= base_mw ld) by (apply (Hbase k); left).
    specialize (Hp (load_type ld)).
    set (f := default 1.0 (dict_get (load_type ld) profiles)) in *.
    assert (H1 : 0.3 * base_mw ld <= base_mw ld * f <= 1.2 * base_mw ld) by nra.
    destruct (IH (fun name x H => Hbase name x (list_elem_of_further _ _ _ H))
                 (a + base_mw ld * f) (b + base_mw ld)) as [I1 I2]; [lra|].
    lra.
Qed.

Lemma profiled_loads_rel profiles (l : list (string * Load)) :
  (forall ty, 0.3 <= default 1.0 (dict_get ty profiles) <= 1.2) ->
  (forall name ld, (name, ld) ∈ l -> 0 <= base_mw ld) ->
  Forall2 (fun e e' =>
             fst e' = fst e /\ load_type (snd e') = load_type (snd e) /\
             base_mw (snd e') = base_mw (snd e) /\
             0.3 * base_mw (snd e) <= current_mw (snd e')
             <= 1.2 * base_mw (snd e))
          l (map (fun e => (fst e, apply_profile profiles (snd e))) l).
Proof.
  intros Hp. induction l as [|[k ld] rest IH]; intros Hbase; simpl; constructor.
  - cbn [fst snd apply_profile load_type base_mw current_mw].
    repeat (split; [reflexivity|]).
    assert (Hb : 0 <= base_mw ld) by (apply (Hbase k); left).
    specialize (Hp (load_type ld)).
    set (f := default 1.0 (dict_get (load_type ld) profiles)) in *. nra.
  - apply IH. intros name x H. apply (Hbase name). right. exact H.
Qed.

(** X19. Whenever [simulate_power_flow] returns, every conventional load
    keeps its type and base and is set between 0.3 and 1.2 times a
    non-negative base, and the total load lies between 0.3 and 1.2
    times the summed bases plus the three infrastructure tables. *)
Theorem loads_follow_profiles hour minute day_of_week sc draws n n' :
  simulate_power_flow hour minute day_of_week sc draws n = Some n' ->
  (forall name ld, (name, ld) ∈ loads n -> 0 <= base_mw ld) ->
  Forall2 (fun e e' =>
             fst e' = fst e /\ load_type (snd e') = load_type (snd e) /\
             base_mw (snd e') = base_mw (snd e) /\
             0.3 * base_mw (snd e) <= current_mw (snd e')
             <= 1.2 * base_mw (snd e))
          (loads n) (loads n') /\
  0.3 * base_total (loads n) + infrastructure_total n
  <= total_load n'
  <= 1.2 * base_total (loads n) + infrastructure_total n.
Proof.
  intros Hrun Hbase. unfold simulate_power_flow, _update_battery_soc in Hrun.
  match type of Hrun with
  | match ?e with _ => _ end = _ => destruct e as [gens|]; [|discriminate Hrun]
  end.
  inversion Hrun; subst n'; clear Hrun.
  unfold _economic_dispatch.
  repeat match goal with
         | |- context [let '(_, _) := ?e in _] => destruct e
         end.
  cbn [loads total_load _check_violations _calculate_line_flows set_dispatch].
  pose proof (profile_factor_bounds hour minute day_of_week) as Hp.
  split; [apply profiled_loads_rel; assumption|].
  destruct (profiled_sum_bounds _ (loads n) Hp Hbase 0 0) as [H1 H2]; [lra|].
  unfold infrastructure_total.
  set (L := fold_left _ _ 0) in *.
  pose proof (sum_mw_shift (traffic_light_loads n) L) as A1.
  pose proof (sum_mw_shift (street_light_loads n)
                (sum_mw (traffic_light_loads n) L)) as A2.
  pose proof (sum_mw_shift (ev_charging_loads n)
                (sum_mw (street_light_loads n)
                   (sum_mw (traffic_light_loads n) L))) as A3.
  pose proof (sum_mw_shift (street_light_loads n)
                (sum_mw (traffic_light_loads n) 0)) as B2.
  pose proof (sum_mw_shift (ev_charging_loads n)
                (sum_mw (street_light_loads n)
                   (sum_mw (traffic_light_loads n) 0))) as B3.
  lra.
Qed.

End PowerLoadFacts.

Lemma loads_follow_profiles_witness :
  exists n',
    Power.simulate_power_flow 14 0 2 (1 # 2) (fun _ => 70%Q)
      Grid.loaded_network = Some n' /\
    (0.3 * Grid.base_total (Power.loads Grid.loaded_network)
     + Grid.infrastructure_total Grid.loaded_network
     <= Power.total_load n')%Q.
Proof.
  destruct (Power.simulate_power_flow 14 0 2 (1 # 2) (fun _ => 70%Q)
              Grid.loaded_network) as [n'|] eqn:E.
  - exists n'. split; [reflexivity|].
    destruct (loads_follow_profiles 14 0 2 (1 # 2) (fun _ => 70%Q)
                Grid.loaded_network n' E) as [_ [H _]].
    + intros name ld Hin. apply list_elem_of_singleton in Hin.
      inversion Hin; subst. simpl. discriminate.
    + exact H.
  - vm_compute in E. discriminate E.
Defined.

Section PowerDispatchFacts.
Import Power.
Import Grid.
Local Open Scope Q_scope.

Lemma qsum_perm f l l' : l ≡ₚ l' -> qsum f l == qsum f l'.
Proof.
  induction 1; simpl; lra.
Qed.

Lemma residual_supply hour sc l : forall total,
  residual_demand hour sc l total == total - renewable_supply hour sc l.
Proof.
  unfold residual_demand, renewable_supply.
  induction l as [|e l IH]; intros total; simpl; [lra|].
  rewrite IH. destruct (is_renewable (snd e)); lra.
Qed.

Lemma gen_loop_elem_inv (P : Acc -> Prop) body l :
  (forall g a, P a -> P (snd (body g a))) ->
  forall a, P a ->
    P (snd (gen_loop body l a)) /\
    forall name g', (name, g') ∈ fst (gen_loop body l a) ->
      exists g a0, (name, g) ∈ l /\ P a0 /\ g' = fst (body g a0).
Proof.
  intros Hstep. induction l as [|[k g0] l IH]; intros a Ha; simpl.
  - split; [exact Ha|]. intros name g' H. inversion H.
  - pose proof (Hstep g0 a Ha) as H1.
    destruct (body g0 a) as [g1 a1] eqn:E. simpl in H1.
    destruct (IH a1 H1) as [I1 I2].
    destruct (gen_loop body l a1) as [rest a2]. simpl in *.
    split; [exact I1|]. intros name g' Hin.
    apply elem_of_cons in Hin as [Heq|Hin].
    + inversion Heq; subst. exists g0, a. split; [left|].
      split; [exact Ha|]. rewrite E. reflexivity.
    + destruct (I2 name g' Hin) as (g & a0 & Hg & Hp & ->).
      exists g, a0. split; [right; exact Hg|]. split; [exact Hp|reflexivity].
Qed.

Lemma renewable_balance hour sc g a :
  remaining_load (snd (renewable_body hour sc g a))
  + acc_generation (snd (renewable_body hour sc g a))
  == remaining_load a + acc_generation a.
Proof.
  unfold renewable_body. destruct (is_renewable g); simpl; lra.
Qed.

Lemma thermal_balance g a :
  remaining_load (snd (thermal_body g a))
  + acc_generation (snd (thermal_body g a))
  == remaining_load a + acc_generation a.
Proof.
  unfold thermal_body. destruct (is_thermal g); [|simpl; lra].
  destruct (Qltb 0 (remaining_load a)); simpl; lra.
Qed.

Lemma thermal_loop_noop l : forall a,
  remaining_load a <= 0 -> snd (gen_loop thermal_body l a) = a.
Proof.
  induction l as [|[k g] l IH]; intros a Ha; simpl; [reflexivity|].
  assert (E : snd (thermal_body g a) = a).
  { unfold thermal_body. destruct (is_thermal g); [|reflexivity].
    rewrite (proj2 (Qltb_ge 0 (remaining_load a)) Ha). reflexivity. }
  destruct (thermal_body g a) as [g1 a1]. simpl in E. subst a1.
  specialize (IH a Ha). destruct (gen_loop thermal_body l a) as [rest a2].
  exact IH.
Qed.

Lemma thermal_loop_remaining l : forall a,
  remaining_load (snd (gen_loop thermal_body l a))
  <= Qmax 0 (remaining_load a - thermal_capacity l).
Proof.
  unfold thermal_capacity.
  induction l as [|[k g] l IH]; intros a; simpl.
  - apply Q.max_case_strong; intros; lra.
  - specialize (IH (snd (thermal_body g a))).
    pose proof (thermal_loop_noop l (snd (thermal_body g a))) as Hnoop.
    destruct (thermal_body g a) as [g1 a1] eqn:E. cbn [snd] in IH, Hnoop.
    destruct (gen_loop thermal_body l a1) as [rest a2]. simpl in *.
    assert (Hstep : remaining_load a1 <= 0 \/
                    remaining_load a1
                    <= remaining_load a
                       - (if is_thermal g then capacity_mw g else 0)).
    { unfold thermal_body in E. destruct (is_thermal g).
      - destruct (Qltb 0 (remaining_load a)) eqn:Er.
        + apply Qltb_lt in Er. inversion E; subst; simpl.
          destruct (Q.min_spec (capacity_mw g)
                      (Qmax (min_mw g) (remaining_load a))) as [[H1 H2]|[H1 H2]];
            rewrite H2; [right; lra|].
          left. pose proof (Q.le_max_r (min_mw g) (remaining_load a)). lra.
        + apply Qltb_ge in Er. inversion E; subst. left. exact Er.
      - inversion E; subst. right. lra. }
    revert IH. set (C := qsum _ l).
    set (c := if is_thermal g then capacity_mw g else 0) in *.
    intros IH.
    destruct (Q.max_spec 0 (remaining_load a1 - C)) as [[M1 M2]|[M1 M2]];
      rewrite M2 in IH;
      destruct (Q.max_spec 0 (remaining_load a - (c + C))) as [[N1 N2]|[N1 N2]];
      rewrite N2; (destruct Hstep as [Hs|Hs];
                   [rewrite (Hnoop Hs); lra | lra]).
Qed.

Lemma balance_loop body l :
  (forall g a, remaining_load (snd (body g a)) + acc_generation (snd (body g a))
               == remaining_load a + acc_generation a) ->
  forall a,
    remaining_load (snd (gen_loop body l a))
    + acc_generation (snd (gen_loop body l a))
    == remaining_load a + acc_generation a.
Proof.
  intros Hb. induction l as [|[k g] l IH]; intros a; simpl; [lra|].
  specialize (Hb g a). specialize (IH (snd (body g a))).
  destruct (body g a) as [g1 a1]. cbn [snd] in Hb, IH.
  destruct (gen_loop body l a1) as [rest a2]. simpl in *. lra.
Qed.

(** What the battery loop does to one battery when no demand is left: it
    leaves it alone, or charges it from a surplus above 50. *)
Lemma battery_body_surplus g a :
  remaining_load a <= 0 ->
  remaining_load (snd (battery_body g a)) <= 0 /\
  acc_generation (snd (battery_body g a)) = acc_generation a /\
  (fst (battery_body g a) = g \/
   exists surplus,
     50 < surplus /\ current_soc g < 0.9 /\
     fst (battery_body g a)
     = set_output g (- Qmin (Qmin (capacity_mw g) surplus)
                            ((1 - current_soc g) * energy_capacity_mwh g))).
Proof.
  intros Hr. unfold battery_body.
  destruct (is_battery g); [|simpl; repeat split; [exact Hr|left; reflexivity]].
  rewrite (proj2 (Qltb_ge 0 (remaining_load a)) Hr). simpl andb. cbv iota.
  destruct (Qltb (remaining_load a) (-50) && Qltb (current_soc g) 0.9)%bool
    eqn:E; [|simpl; repeat split; [exact Hr|left; reflexivity]].
  apply andb_true_iff in E as [E1 E2].
  apply Qltb_lt in E1. apply Qltb_lt in E2. simpl.
  split; [|split; [reflexivity|]].
  - pose proof (Q.le_min_l (Qmin (capacity_mw g) (- remaining_load a))
                  ((1 - current_soc g) * energy_capacity_mwh g)).
    pose proof (Q.le_min_r (capacity_mw g) (- remaining_load a)). lra.
  - right. exists (- remaining_load a). split; [lra|]. split; [exact E2|reflexivity].
Qed.

Lemma renewable_loop_capacity hour sc l : forall a,
  thermal_capacity (fst (gen_loop (renewable_body hour sc) l a))
  = thermal_capacity l.
Proof.
  unfold thermal_capacity.
  induction l as [|[k g] l IH]; intros a; simpl; [reflexivity|].
  pose proof (renewable_static hour sc g a) as Hs.
  destruct (renewable_body hour sc g a) as [g1 a1]. cbn [fst] in Hs.
  specialize (IH a1).
  destruct (gen_loop (renewable_body hour sc) l a1) as [rest a2].
  cbn [fst snd qsum] in *. rewrite IH.
  destruct (static_fields _ _ _ Hs) as (H1 & _ & H3 & _).
  unfold is_thermal. rewrite H1, H3. reflexivity.
Qed.

Lemma battery_type g a : gen_type (fst (battery_body g a)) = gen_type g.
Proof.
  destruct (static_fields _ _ _ (battery_static g a)) as (_ & _ & H & _).
  exact H.
Qed.

(** X20. When the renewable output of the hour plus the installed
    thermal capacity covers the total load, the dispatch generates at
    least the total load and discharges no battery: every battery is left
    as it was, or is charging from a surplus above 50 with its state of
    charge below 0.9. *)
Theorem dispatch_covers_load hour sc n :
  total_load n <= renewable_supply hour sc (generators n)
                  + thermal_capacity (generators n) ->
  total_load n <= total_generation (_economic_dispatch hour sc n) /\
  forall name g', (name, g') ∈ generators (_economic_dispatch hour sc n) ->
    is_battery g' = true ->
    exists g0, (name, g0) ∈ generators n /\
      (g' = g0 \/
       exists surplus,
         50 < surplus /\ current_soc g0 < 0.9 /\
         g' = set_output g0
                (- Qmin (Qmin (capacity_mw g0) surplus)
                        ((1 - current_soc g0) * energy_capacity_mwh g0))).
Proof.
  intros Hcover. unfold _economic_dispatch.
  pose proof (renewable_loop_residual hour sc (sorted_gens (generators n))
                (mkAcc (total_load n) 0)) as Hres.
  pose proof (balance_loop (renewable_body hour sc) (sorted_gens (generators n))
                (renewable_balance hour sc) (mkAcc (total_load n) 0)) as Hb1.
  pose proof (gen_loop_names (renewable_body hour sc)
                (sorted_gens (generators n)) (mkAcc (total_load n) 0)) as N1.
  pose proof (gen_loop_elem (renewable_body hour sc)
                (sorted_gens (generators n)) (mkAcc (total_load n) 0)) as El1.
  pose proof (renewable_loop_capacity hour sc (sorted_gens (generators n))
                (mkAcc (total_load n) 0)) as Hcap.
  destruct (gen_loop (renewable_body hour sc) (sorted_gens (generators n))
              (mkAcc (total_load n) 0)) as [s1 a1].
  pose proof (thermal_loop_remaining s1 a1) as Hrem.
  pose proof (balance_loop thermal_body s1 thermal_balance a1) as Hb2.
  pose proof (gen_loop_names thermal_body s1 a1) as N2.
  pose proof (gen_loop_elem thermal_body s1 a1) as El2.
  destruct (gen_loop thermal_body s1 a1) as [s2 a2].
  cbn [fst snd remaining_load acc_generation] in *.
  assert (Hdone : remaining_load a2 <= 0).
  { pose proof (residual_supply hour sc (sorted_gens (generators n))
                  (total_load n)) as R1.
    pose proof (qsum_perm (fun g => if is_renewable g
                                    then renewable_output hour sc g else 0)
                  _ _ (sorted_gens_perm (generators n))) as R2.
    pose proof (qsum_perm (fun g => if is_thermal g then capacity_mw g else 0)
                  _ _ (sorted_gens_perm (generators n))) as R3.
    fold (renewable_supply hour sc (sorted_gens (generators n))) in R2.
    fold (renewable_supply hour sc (generators n)) in R2.
    fold (thermal_capacity (sorted_gens (generators n))) in R3.
    fold (thermal_capacity (generators n)) in R3.
    rewrite Hcap in Hrem. rewrite Hres in Hrem.
    destruct (Q.max_spec 0 (residual_demand hour sc (sorted_gens (generators n))
                              (total_load n)
                            - thermal_capacity (sorted_gens (generators n))))
      as [[M1 M2]|[M1 M2]]; rewrite M2 in Hrem; lra. }
  destruct (gen_loop_elem_inv
              (fun a => remaining_load a <= 0
                        /\ acc_generation a = acc_generation a2)
              battery_body (write_back (generators n) s2)) with (a := a2)
    as [[_ Hgen] Hel].
  { intros g a [H1 H2]. destruct (battery_body_surplus g a H1) as (B1 & B2 & _).
    split; [exact B1 | rewrite B2; exact H2]. }
  { split; [exact Hdone | reflexivity]. }
  destruct (gen_loop battery_body (write_back (generators n) s2) a2)
    as [g3 a3].
  cbn [fst snd generators total_generation set_dispatch] in *.
  split; [rewrite Hgen; lra|].
  intros name g' Hin Hbat.
  destruct (Hel name g' Hin) as (gw & a0 & Hw & [Ha0 _] & ->).
  assert (Hbw : is_battery gw = true).
  { unfold is_battery in *. rewrite battery_type in Hbat. exact Hbat. }
  apply write_back_elem in Hw.
  2:{ intros e He. rewrite N2, N1.
      apply (list_elem_of_fmap_2 fst). apply sorted_gens_elem. exact He. }
  destruct (El2 name gw Hw) as (gt & at' & Ht & Egw).
  destruct (El1 name gt Ht) as (g0 & ar & Hr & Egt).
  assert (Hb0 : is_battery g0 = true).
  { unfold is_battery in *. rewrite Egw, thermal_type, Egt, renewable_type in Hbw.
    exact Hbw. }
  destruct (battery_not_other g0 Hb0) as [Hnr Hnt].
  rewrite (renewable_body_other hour sc g0 ar Hnr) in Egt. cbn [fst] in Egt.
  subst gt. rewrite (thermal_body_other g0 at' Hnt) in Egw. cbn [fst] in Egw.
  subst gw.
  exists g0. split; [apply sorted_gens_elem; exact Hr|].
  destruct (battery_body_surplus g0 a0 Ha0) as (_ & _ & H). exact H.
Qed.

End PowerDispatchFacts.

Lemma dispatch_covers_load_witness :
  (Power.total_load (Power.sample_network 400)
   <= Power.total_generation
        (Power._economic_dispatch 12 1 (Power.sample_network 400)))%Q.
Proof.
  apply (dispatch_covers_load 12 1 (Power.sample_network 400)).
  vm_compute. discriminate.
Defined.

(** ** Infrastructure loads *)

Section InfraFacts.
Import Infra.
Local Open Scope Q_scope.

Lemma length_filter_le {A} (f : A -> bool) l :
  (length (List.filter f l) <= length l)%nat.
Proof.
  induction l as [|x l IH]; simpl; [lia|]. destruct (f x); simpl; lia.
Qed.

Lemma yellow_ratio_range states :
  (0 < size states)%nat -> 0 <= yellow_ratio states <= 1.
Proof.
  intros Hpos. unfold yellow_ratio.
  set (c := length _).
  assert (Hc : (c <= size states)%nat).
  { subst c. etransitivity; [apply length_filter_le|].
    rewrite length_map, length_map_to_list. reflexivity. }
  destruct (size states) as [|k] eqn:Es; [lia|].
  unfold Qle, Qdiv, Qmult, Qinv, inject_Z. simpl. lia.
Qed.

(** X21. [update_traffic_loads] keeps the keys, bases and flags of the
    signal table.  With a non-empty state table a signal of non-negative
    base draws between its base and 1.15 times its base, times 1.2 under
    adaptive control; with an empty one the signal table is untouched. *)
Theorem signal_loads_bounded hour vehicle_count states data t :
  let t' := update_traffic_loads hour vehicle_count states data t in
  Forall2 (fun e e' =>
             fst e' = fst e /\
             sg_base_mw (snd e') = sg_base_mw (snd e) /\
             adaptive_control (snd e') = adaptive_control (snd e) /\
             (0 <= sg_base_mw (snd e) -> (0 < size states)%nat ->
              let k := if adaptive_control (snd e) then 1.2 else 1 in
              sg_base_mw (snd e) * k <= sg_current_mw (snd e')
              <= sg_base_mw (snd e) * 1.15 * k))
          (signal_tbl t) (signal_tbl t') /\
  (size states = 0%nat -> signal_tbl t' = signal_tbl t).
Proof.
  cbv zeta. unfold update_traffic_loads. cbn [signal_tbl].
  destruct (Nat.ltb_spec 0 (size states)) as [Hpos|Hz].
  - split; [|lia].
    pose proof (yellow_ratio_range states Hpos) as Hy.
    set (r := yellow_ratio states) in *.
    induction (signal_tbl t) as [|[k l] rest IH]; simpl; constructor; [|exact IH].
    cbn [fst snd update_signal sg_base_mw adaptive_control sg_current_mw].
    repeat (split; [reflexivity|]). intros Hb _.
    destruct (adaptive_control l); nra.
  - split; [|reflexivity].
    induction (signal_tbl t) as [|[k l] rest IH]; constructor; [|exact IH].
    repeat (split; [reflexivity|]). intros _ H. lia.
Qed.

Lemma signal_loads_bounded_witness :
  Infra.signal_tbl
    (Infra.update_traffic_loads 12 50 ∅ []
       (Infra.mkTables [("TL_Major_Times_Square"%string,
                         Infra.mkSignalLoad 0.001 0.001 true)] [] []))
  = [("TL_Major_Times_Square"%string, Infra.mkSignalLoad 0.001 0.001 true)].
Proof.
  apply (signal_loads_bounded 12 50 ∅ []). reflexivity.
Defined.

Ltac hour_cases :=
  repeat match goal with
         | |- context [(?a <=? ?b)%Z] => destruct (Z.leb_spec a b)
         | |- context [(?a <? ?b)%Z] => destruct (Z.ltb_spec a b)
         end; cbn [andb orb].

Lemma dimming_by_hour_values hour :
  (0 <= hour <= 23)%Z ->
  dimming_by_hour hour = 0.0 \/ dimming_by_hour hour = 0.7 \/
  dimming_by_hour hour = 1.0.
Proof.
  intros Hh. unfold dimming_by_hour. hour_cases; auto; lia.
Qed.

Lemma dimming_factor_range hour vehicle_count :
  0 <= dimming_factor hour vehicle_count <= 1.1.
Proof.
  unfold dimming_factor, dimming_by_hour. hour_cases; lra.
Qed.

(** X22. The street-light table keeps its keys, bases and flags.  Between
    6 and 18 o'clock every street light draws nothing.  At any hour a light
    of non-negative base draws between 0 and its base, and at most 0.88
    times its base when it can dim.  For the hours 0 to 23 the hourly
    dimming level is 0, 0.7 or 1: the dawn level 0.5 is never used. *)
Theorem street_lights_by_hour hour vehicle_count states data t :
  let t' := update_traffic_loads hour vehicle_count states data t in
  Forall2 (fun e e' =>
             fst e' = fst e /\
             sl_base_mw (snd e') = sl_base_mw (snd e) /\
             dimming_capable (snd e') = dimming_capable (snd e) /\
             ((6 <= hour <= 18)%Z -> sl_current_mw (snd e') == 0) /\
             (0 <= sl_base_mw (snd e) ->
              0 <= sl_current_mw (snd e')
              <= sl_base_mw (snd e)
                 * (if dimming_capable (snd e) then 0.88 else 1)))
          (street_tbl t) (street_tbl t') /\
  ((0 <= hour <= 23)%Z ->
   dimming_by_hour hour = 0.0 \/ dimming_by_hour hour = 0.7 \/
   dimming_by_hour hour = 1.0).
Proof.
  cbv zeta. split; [|apply dimming_by_hour_values].
  unfold update_traffic_loads. cbn [street_tbl].
  pose proof (dimming_factor_range hour vehicle_count) as Hd.
  assert (Hday : (6 <= hour <= 18)%Z -> dimming_factor hour vehicle_count == 0).
  { intros Hh. unfold dimming_factor, dimming_by_hour.
    rewrite (proj2 (Z.leb_le 6 hour)), (proj2 (Z.leb_le hour 18)) by lia.
    cbn [andb]. hour_cases; lra. }
  set (d := dimming_factor hour vehicle_count) in *.
  induction (street_tbl t) as [|[k l] rest IH]; simpl; constructor; [|exact IH].
  cbn [fst snd update_street sl_base_mw dimming_capable sl_current_mw].
  repeat (split; [reflexivity|]). split.
  - intros Hh. specialize (Hday Hh).
    destruct (dimming_capable l).
    + rewrite Hday. lra.
    + destruct (Q.min_spec 1.0 d) as [[H1 H2]|[H1 H2]]; rewrite H2; [lra|].
      rewrite Hday. lra.
  - intros Hb. destruct (dimming_capable l).
    + nra.
    + destruct (Q.min_spec 1.0 d) as [[H1 H2]|[H1 H2]]; rewrite H2; nra.
Qed.

Lemma dict_get_prefix_miss {V} (p k : string) (tbl : list (string * V)) :
  Forall (fun e => String.prefix p (fst e) = true) tbl ->
  String.prefix p k = false ->
  dict_get k tbl = None.
Proof.
  intros Hall Hk. induction tbl as [|[k' v] tbl IH]; simpl; [reflexivity|].
  apply Forall_cons in Hall as [Hp Hall]. simpl in Hp.
  destruct (String.eqb_spec k' k) as [->|Hne].
  - rewrite Hp in Hk. discriminate Hk.
  - apply IH. exact Hall.
Qed.

Lemma ev_loop_foreign data : forall tbl,
  Forall (fun e => String.prefix "EV_" (fst e) = true) tbl ->
  Forall (fun e => String.prefix "EV_" (fst e) = false) data ->
  ev_loop data tbl = tbl.
Proof.
  unfold ev_loop. induction data as [|[sid vs] data IH]; intros tbl Ht Hd;
    simpl; [reflexivity|].
  apply Forall_cons in Hd as [Hsid Hd]. simpl in Hsid.
  rewrite (dict_get_prefix_miss "EV_" sid tbl Ht Hsid).
  apply IH; assumption.
Qed.

Lemma dict_set_keys {V} (k : string) (v : V) d (P : string -> Prop) :
  P k -> Forall (fun e => P (fst e)) d ->
  Forall (fun e => P (fst e)) (dict_set k v d).
Proof.
  intros Hk. induction d as [|[k' v'] d IH]; intros Hd; simpl.
  - constructor; [exact Hk | constructor].
  - apply Forall_cons in Hd as [H1 H2].
    destruct (String.eqb k' k); constructor; auto.
Qed.

Lemma panel_keys (P : string -> Prop) cv sts :
  Forall (fun st => P (EV.id st)) sts ->
  Forall (fun e => P (fst e))
         (snd (StationPanel.prepare_ev_station_data sts cv)).
Proof.
  unfold StationPanel.prepare_ev_station_data. cbn [snd].
  assert (H : forall acc, Forall (fun e => P (fst e)) acc ->
                Forall (fun st => P (EV.id st)) sts ->
                Forall (fun e => P (fst e))
                  (fold_left (fun m st =>
                     dict_set (EV.id st) (default [] (cv !! EV.id st)) m)
                     sts acc)).
  { induction sts as [|st sts IH]; intros acc Ha Hs; simpl; [exact Ha|].
    apply Forall_cons in Hs as [H1 H2].
    apply IH; [|exact H2]. apply dict_set_keys; assumption. }
  intros Hs. apply H; [constructor | exact Hs].
Qed.

(** X23. The charging data the coordinator hands to the grid never
    changes the grid's charger table: the coordinator's stations are named
    ev_station_<k>, every key of the table starts with EV_, so no id is
    found and every charger keeps its utilization and load. *)
Theorem coordinator_data_skipped hour vehicle_count states cv sts ks t :
  map EV.id sts = map Stations.station_id ks ->
  Forall (fun e => String.prefix "EV_" (fst e) = true) (charger_tbl t) ->
  charger_tbl
    (update_traffic_loads hour vehicle_count states
       (snd (StationPanel.prepare_ev_station_data sts cv)) t)
  = charger_tbl t.
Proof.
  intros Hids Hkeys. unfold update_traffic_loads. cbn [charger_tbl].
  assert (Hdata : Forall (fun e => String.prefix "EV_" (fst e) = false)
                         (snd (StationPanel.prepare_ev_station_data sts cv))).
  { apply (panel_keys (fun k => String.prefix "EV_" k = false)).
    apply Forall_forall. intros st Hin.
    assert (H : EV.id st ∈ map Stations.station_id ks).
    { rewrite <- Hids. apply list_elem_of_fmap. exists st. split; [reflexivity|exact Hin]. }
    apply list_elem_of_fmap in H as (k & -> & _). reflexivity. }
  destruct (snd (StationPanel.prepare_ev_station_data sts cv)) eqn:E; [reflexivity|].
  rewrite <- E in *. apply ev_loop_foreign; assumption.
Qed.

End InfraFacts.

Lemma street_lights_by_hour_witness :
  Infra.dimming_by_hour 21 = 1.0%Q.
Proof.
  destruct (street_lights_by_hour 21 50 ∅ [] (Infra.mkTables [] [] []))
    as [_ H].
  destruct (H ltac:(lia)) as [H1|[H1|H1]];
    [vm_compute in H1; discriminate H1 | vm_compute in H1; discriminate H1
     | exact H1].
Defined.

Lemma coordinator_data_skipped_witness :
  Infra.charger_tbl
    (Infra.update_traffic_loads 12 50 ∅
       (snd (StationPanel.prepare_ev_station_data [EV.demo_station]
               (<["ev_station_0"%string := ["veh0"%string]]> ∅)))
       (Infra.mkTables [] []
          [("EV_DC_Times_Square_Hub"%string,
            Infra.mkChargerLoad 1.5 10 0 0)]))
  = [("EV_DC_Times_Square_Hub"%string, Infra.mkChargerLoad 1.5 10 0 0)].
Proof.
  apply (coordinator_data_skipped 12 50 ∅ _ [EV.demo_station] [0%nat]).
  - reflexivity.
  - repeat constructor.
Defined.

(** ** Grid bookkeeping *)

Section GridManagerFacts.
Import GridManager.
Local Open Scope Q_scope.

Lemma record_all_window reported : forall m seen,
  history m = drop (length seen - 100) seen ->
  (forall x, x ∈ seen -> x <= peak_demand m) ->
  0 <= peak_demand m ->
  let m' := record_all reported m in
  history m' = drop (length (seen ++ reported) - 100) (seen ++ reported) /\
  (forall x, x ∈ seen ++ reported -> x <= peak_demand m') /\
  peak_demand m <= peak_demand m'.
Proof.
  induction reported as [|x reported IH]; intros m seen Hh Hp H0; cbv zeta.
  - simpl. rewrite app_nil_r. split; [exact Hh|]. split; [exact Hp|lra].
  - unfold record_all. cbn [fold_left]. fold (record_all reported
                                                  (fst (record_load m x))).
    destruct (IH (fst (record_load m x)) (seen ++ [x])) as (I1 & I2 & I3).
    + unfold record_load. cbn [fst history]. rewrite Hh.
      rewrite !length_app, length_drop. cbn [length].
      destruct (Nat.ltb_spec 100 (length seen - (length seen - 100) + 1)) as [Hl|Hl].
      * assert (Hs : (100 <= length seen)%nat) by lia.
        replace (length seen + 1 - 100)%nat with (length seen - 100 + 1)%nat
          by lia.
        rewrite drop_app_le by lia. rewrite <- drop_drop.
        assert (Hd : length (drop (length seen - 100) seen) = 100%nat)
          by (rewrite length_drop; lia).
        destruct (drop (length seen - 100) seen) as [|a r];
          [discriminate Hd | reflexivity].
      * replace (length seen - 100)%nat with 0%nat by lia.
        replace (length seen + 1 - 100)%nat with 0%nat by lia.
        reflexivity.
    + unfold record_load. cbn [fst peak_demand]. intros y Hy.
      destruct (Qltb (peak_demand m) x) eqn:E.
      * apply Qltb_lt in E.
        apply elem_of_app in Hy as [Hy|Hy].
        -- specialize (Hp y Hy). lra.
        -- apply list_elem_of_singleton in Hy. subst y. lra.
      * apply Qltb_ge in E.
        apply elem_of_app in Hy as [Hy|Hy]; [apply Hp; exact Hy|].
        apply list_elem_of_singleton in Hy. subst y. exact E.
    + unfold record_load. cbn [fst peak_demand].
      destruct (Qltb (peak_demand m) x) eqn:E; [|exact H0].
      apply Qltb_lt in E. lra.
    + rewrite <- app_assoc in I1, I2. cbn [app] in I1, I2.
      split; [exact I1|]. split; [exact I2|].
      assert (peak_demand m <= peak_demand (fst (record_load m x))).
      { unfold record_load. cbn [fst peak_demand].
        destruct (Qltb (peak_demand m) x) eqn:E; [|lra].
        apply Qltb_lt in E. lra. }
      lra.
Qed.

(** X24. After any run of reported loads a fresh manager's history is
    the last 100 of them, in order, and its peak demand is non-negative
    and at least every load reported. *)
Theorem manager_keeps_last_100 reported :
  let m := record_all reported new_manager in
  history m = drop (length reported - 100) reported /\
  (length (history m) <= 100)%nat /\
  0 <= peak_demand m /\
  forall x, x ∈ reported -> x <= peak_demand m.
Proof.
  cbv zeta.
  destruct (record_all_window reported new_manager []) as (H1 & H2 & H3).
  - reflexivity.
  - intros x Hx. inversion Hx.
  - simpl. lra.
  - cbn [app] in *. split; [exact H1|]. split; [|split; [exact H3 | exact H2]].
    rewrite H1, length_drop. lia.
Qed.

(** X25. One bookkeeping step for a non-negative reported load: the peak
    never falls and is at least the load, the energy grows by
    load / 3600, the load factor lies between 0 and 100, and with fewer
    than 10 samples in the history the trend is stable. *)
Theorem report_ranges m total_load_mw :
  0 <= total_load_mw -> 0 <= peak_demand m ->
  let r := snd (record_load m total_load_mw) in
  let m' := fst (record_load m total_load_mw) in
  peak_demand m <= peak_demand m' /\ total_load_mw <= peak_demand m' /\
  peak_demand_mw r = peak_demand m' /\
  total_energy m' == total_energy m + total_load_mw / 3600 /\
  0 <= load_factor r <= 100 /\
  ((length (history m') < 10)%nat -> trend r = stable).
Proof.
  intros Hl Hp. cbv zeta. unfold record_load.
  cbn [fst snd peak_demand peak_demand_mw total_energy load_factor trend history].
  set (peak := if Qltb (peak_demand m) total_load_mw then total_load_mw
               else peak_demand m).
  assert (Hpk : peak_demand m <= peak /\ total_load_mw <= peak).
  { subst peak. destruct (Qltb (peak_demand m) total_load_mw) eqn:E.
    - apply Qltb_lt in E. lra.
    - apply Qltb_ge in E. lra. }
  destruct Hpk as [Hk1 Hk2].
  split; [exact Hk1|]. split; [exact Hk2|]. split; [reflexivity|].
  split; [reflexivity|]. split.
  - destruct (Qltb 0 peak) eqn:E; [|lra].
    apply Qltb_lt in E.
    assert (H1 : 0 <= total_load_mw / peak).
    { apply Qle_shift_div_l; [exact E | lra]. }
    assert (H2 : total_load_mw / peak <= 1).
    { apply Qle_shift_div_r; [exact E | lra]. }
    lra.
  - intros Hshort. unfold _calculate_trend.
    rewrite (proj2 (Nat.ltb_lt _ _) Hshort). reflexivity.
Qed.

End GridManagerFacts.

Lemma report_ranges_witness :
  (0 <= GridManager.load_factor
          (snd (GridManager.record_load GridManager.new_manager 250)) <= 100)%Q.
Proof.
  apply (report_ranges GridManager.new_manager 250); vm_compute; discriminate.
Defined.
